(** * Batch lifecycle of the address management API

    A shallow embedding of [app/services/address_validation.py],
    [app/services/address_recognition.py], [app/schemas/addresses.py],
    [app/workers/jobs.py] and the batch routes of
    [app/api/v1/endpoints/addresses.py], followed by the properties of the
    batch state machine.

    Conventions of the embedding:
    - a Python [str] is a Rocq [string]; the case and whitespace functions
      are the ASCII ones (text outside ASCII is left untouched);
    - a JSON object / Python [dict] is a [gmap string value], whose equality
      is the equality of dictionaries (same keys, same values);
    - a table keyed by its primary key is a [gmap uuid row]; the item tables,
      whose rows are only ever filtered by [batch_id], are lists in insertion
      order;
    - a service coroutine is a function in the monad [M], which threads the
      database session and may raise. *)

From Stdlib Require Import ZArith Ascii String List Lia Sorting.Sorted.
From stdpp Require Import gmap strings list fin_maps sorting.

Open Scope string_scope.
Open Scope list_scope.

(** ** Python strings *)

Module Str.

(** [str.isspace] on one ASCII character: TAB, LF, VT, FF, CR, the four
    separators FS GS RS US, and the space. *)
Definition is_space (c : ascii) : bool :=
  let n := nat_of_ascii c in
  ((9 <=? n)%nat && (n <=? 13)%nat) || ((28 <=? n)%nat && (n <=? 32)%nat).

Definition upper_char (c : ascii) : ascii :=
  let n := nat_of_ascii c in
  if ((97 <=? n)%nat && (n <=? 122)%nat) then ascii_of_nat (n - 32) else c.

Definition lower_char (c : ascii) : ascii :=
  let n := nat_of_ascii c in
  if ((65 <=? n)%nat && (n <=? 90)%nat) then ascii_of_nat (n + 32) else c.

Fixpoint map_chars (f : ascii → ascii) (s : string) : string :=
  match s with
  | EmptyString => EmptyString
  | String c r => String (f c) (map_chars f r)
  end.

(** [s.upper()] and [s.lower()]. *)
Definition upper : string → string := map_chars upper_char.
Definition lower : string → string := map_chars lower_char.

Fixpoint lstrip (s : string) : string :=
  match s with
  | EmptyString => EmptyString
  | String c r => if is_space c then lstrip r else s
  end.

Fixpoint rstrip (s : string) : string :=
  match s with
  | EmptyString => EmptyString
  | String c r =>
      match rstrip r with
      | EmptyString => if is_space c then EmptyString else String c EmptyString
      | r' => String c r'
      end
  end.

(** [s.strip()]. *)
Definition strip (s : string) : string := rstrip (lstrip s).

(** [len(s)]. *)
Definition len (s : string) : nat := String.length s.

End Str.

(** ** JSON values and dictionaries *)

(** The values that occur in an address record: [None], a [str], an [int]. *)
Inductive value : Type :=
| VNone
| VStr (s : string)
| VInt (z : Z).

#[global] Instance value_eq_dec : EqDecision value.
Proof. solve_decision. Defined.

(** [dict[str, Any]] *)
Abbreviation dict := (gmap string value).

(** Python truthiness of a value, as used by [not v] and [v or w]. *)
Definition truthy (v : value) : bool :=
  match v with
  | VNone => false
  | VStr s => negb (String.eqb s "")
  | VInt z => negb (z =? 0)%Z
  end.

(** ** Exceptions and results *)

Inductive exn : Type :=
| ValidationError                       (* pydantic *)
| RuntimeError (msg : string)
| IntegrityError                        (* primary key already present *)
| HTTPException (status_code : nat) (detail : string).

#[global] Instance exn_eq_dec : EqDecision exn.
Proof. solve_decision. Defined.

Inductive result (A : Type) : Type :=
| Ok (a : A)
| Raise (e : exn).
Arguments Ok {A} a.
Arguments Raise {A} e.

(** Validation inside the schemas runs in the exception monad alone. *)
#[global] Instance result_ret : MRet result := λ A a, Ok a.
#[global] Instance result_bind : MBind result := λ A B f r,
  match r with
  | Ok a => f a
  | Raise e => Raise e
  end.

(** [[f(x) for x in l]] where [f] may raise: stops at the first exception. *)
Fixpoint traverse {A B} (f : A → result B) (l : list A) : result (list B) :=
  match l with
  | [] => Ok []
  | x :: r =>
      match f x with
      | Raise e => Raise e
      | Ok y =>
          match traverse f r with
          | Raise e => Raise e
          | Ok ys => Ok (y :: ys)
          end
      end
  end.

(** ** Schemas ([app/schemas/addresses.py]) *)

(** [BatchStatusType], [ResidentialIndicatorType], [ValidationStatusType],
    [MessageLevelType]: the literal types, as the lists of their members. *)
Definition BatchStatusType : list string := ["queued"; "processing"; "completed"; "failed"].
Definition ResidentialIndicatorType : list string := ["unknown"; "yes"; "no"].
Definition ValidationStatusType : list string := ["verified"; "unverified"; "error"].
Definition MessageLevelType : list string := ["info"; "warning"; "error"].

Definition is_literal (members : list string) (s : string) : bool :=
  bool_decide (s ∈ members).

(** Field validators shared by the address schemas.  A key that is absent
    takes the field's default; keys the schema does not declare are ignored. *)
Module Field.

(** [f: str | None = None] *)
Definition opt_str (d : dict) (k : string) : result (option string) :=
  match d !! k with
  | None | Some VNone => Ok None
  | Some (VStr s) => Ok (Some s)
  | Some (VInt _) => Raise ValidationError
  end.

(** [f: str = Field(min_length=lo)] and, with [hi], [max_length=hi]. *)
Definition req_str (lo : nat) (hi : option nat) (d : dict) (k : string)
  : result string :=
  match d !! k with
  | Some (VStr s) =>
      if ((lo <=? Str.len s)%nat
          && match hi with Some h => (Str.len s <=? h)%nat | None => true end)
      then Ok s else Raise ValidationError
  | _ => Raise ValidationError
  end.

(** [f: str | int | None = None] *)
Definition str_int_none (d : dict) (k : string) : result value :=
  match d !! k with
  | None => Ok VNone
  | Some v => Ok v
  end.

(** [f: ResidentialIndicatorType | None = None] *)
Definition opt_indicator (d : dict) (k : string) : result (option string) :=
  match d !! k with
  | None | Some VNone => Ok None
  | Some (VStr s) =>
      if is_literal ResidentialIndicatorType s then Ok (Some s)
      else Raise ValidationError
  | Some (VInt _) => Raise ValidationError
  end.

Definition dump_opt (o : option string) : value :=
  match o with
  | None => VNone
  | Some s => VStr s
  end.

End Field.

Module AddressInputSchema.

Record t : Type := mk {
  name : option string;
  phone : option string;
  email : option string;
  company_name : option string;
  address_line1 : string;
  address_line2 : option string;
  address_line3 : option string;
  city_locality : string;
  state_province : string;
  postal_code : value;
  country_code : string;
  address_residential_indicator : string;
}.

(** The [mode="before"] validator of [address_residential_indicator]. *)
Definition validate_residential_indicator (v : value) : string :=
  match v with
  | VNone => "unknown"
  | VStr s =>
      let normalized := Str.lower (Str.strip s) in
      if is_literal ResidentialIndicatorType normalized then normalized
      else "unknown"
  | VInt _ => "unknown"
  end.

Definition model_validate (d : dict) : result t :=
  name ← Field.opt_str d "name";
  phone ← Field.opt_str d "phone";
  email ← Field.opt_str d "email";
  company_name ← Field.opt_str d "company_name";
  address_line1 ← Field.req_str 1 None d "address_line1";
  address_line2 ← Field.opt_str d "address_line2";
  address_line3 ← Field.opt_str d "address_line3";
  city_locality ← Field.req_str 1 None d "city_locality";
  state_province ← Field.req_str 1 None d "state_province";
  postal_code ← Field.str_int_none d "postal_code";
  country_code ← Field.req_str 2 (Some 2%nat) d "country_code";
  mret (mk name phone email company_name address_line1 address_line2
          address_line3 city_locality state_province postal_code country_code
          (match d !! "address_residential_indicator" with
           | None => "unknown"
           | Some v => validate_residential_indicator v
           end)).

Definition model_dump (a : t) : dict :=
  list_to_map [
    ("name", Field.dump_opt (name a));
    ("phone", Field.dump_opt (phone a));
    ("email", Field.dump_opt (email a));
    ("company_name", Field.dump_opt (company_name a));
    ("address_line1", VStr (address_line1 a));
    ("address_line2", Field.dump_opt (address_line2 a));
    ("address_line3", Field.dump_opt (address_line3 a));
    ("city_locality", VStr (city_locality a));
    ("state_province", VStr (state_province a));
    ("postal_code", postal_code a);
    ("country_code", VStr (country_code a));
    ("address_residential_indicator", VStr (address_residential_indicator a))
  ].

End AddressInputSchema.

(** [class AddressOutputSchema(AddressInputSchema): pass] *)
Module AddressOutputSchema := AddressInputSchema.

Module ValidationMessageSchema.

Record t : Type := mk {
  code : string;
  message : string;
  level : string;
}.

(** A stored message is the dump of one of these; validating it back
    checks the [level] literal. *)
Definition model_validate (m : t) : result t :=
  if is_literal MessageLevelType (level m) then Ok m else Raise ValidationError.

End ValidationMessageSchema.

Module ValidationResultSchema.

Record t : Type := mk {
  status : string;
  original_address : AddressOutputSchema.t;
  matched_address : AddressOutputSchema.t;
  messages : list ValidationMessageSchema.t;
}.

(** The constructor called with already validated parts: only the
    [status] literal is left to check. *)
Definition new (status : string) (original_address matched_address : AddressOutputSchema.t)
    (messages : list ValidationMessageSchema.t) : result t :=
  if is_literal ValidationStatusType status
  then Ok (mk status original_address matched_address messages)
  else Raise ValidationError.

End ValidationResultSchema.

Module BatchInfoSchema.

Record t : Type := mk {
  id : positive;
  status : string;
  created_at : nat;
  items_count : nat;
  request_payload : option (list dict);
}.

(** The constructor checks the [status] literal. *)
Definition new (id : positive) (status : string) (created_at items_count : nat)
    (request_payload : option (list dict)) : result t :=
  if is_literal BatchStatusType status
  then Ok (mk id status created_at items_count request_payload)
  else Raise ValidationError.

End BatchInfoSchema.

Module RecognitionInputAddressSchema.

Record t : Type := mk {
  name : option string;
  address_line1 : option string;
  address_line2 : option string;
  address_line3 : option string;
  city_locality : option string;
  state_province : option string;
  postal_code : value;
  country_code : option string;
  address_residential_indicator : option string;
}.

Definition model_validate (d : dict) : result t :=
  name ← Field.opt_str d "name";
  address_line1 ← Field.opt_str d "address_line1";
  address_line2 ← Field.opt_str d "address_line2";
  address_line3 ← Field.opt_str d "address_line3";
  city_locality ← Field.opt_str d "city_locality";
  state_province ← Field.opt_str d "state_province";
  postal_code ← Field.str_int_none d "postal_code";
  country_code ← Field.opt_str d "country_code";
  address_residential_indicator ← Field.opt_indicator d "address_residential_indicator";
  mret (mk name address_line1 address_line2 address_line3 city_locality
          state_province postal_code country_code address_residential_indicator).

Definition model_dump (a : t) : dict :=
  list_to_map [
    ("name", Field.dump_opt (name a));
    ("address_line1", Field.dump_opt (address_line1 a));
    ("address_line2", Field.dump_opt (address_line2 a));
    ("address_line3", Field.dump_opt (address_line3 a));
    ("city_locality", Field.dump_opt (city_locality a));
    ("state_province", Field.dump_opt (state_province a));
    ("postal_code", postal_code a);
    ("country_code", Field.dump_opt (country_code a));
    ("address_residential_indicator", Field.dump_opt (address_residential_indicator a))
  ].

End RecognitionInputAddressSchema.

Module PartialAddressSchema.

Record t : Type := mk {
  name : option string;
  phone : option string;
  email : option string;
  company_name : option string;
  address_line1 : option string;
  address_line2 : option string;
  address_line3 : option string;
  city_locality : option string;
  state_province : option string;
  postal_code : value;
  country_code : option string;
  address_residential_indicator : option string;
}.

Definition model_validate (d : dict) : result t :=
  name ← Field.opt_str d "name";
  phone ← Field.opt_str d "phone";
  email ← Field.opt_str d "email";
  company_name ← Field.opt_str d "company_name";
  address_line1 ← Field.opt_str d "address_line1";
  address_line2 ← Field.opt_str d "address_line2";
  address_line3 ← Field.opt_str d "address_line3";
  city_locality ← Field.opt_str d "city_locality";
  state_province ← Field.opt_str d "state_province";
  postal_code ← Field.str_int_none d "postal_code";
  country_code ← Field.opt_str d "country_code";
  address_residential_indicator ← Field.opt_indicator d "address_residential_indicator";
  mret (mk name phone email company_name address_line1 address_line2
          address_line3 city_locality state_province postal_code country_code
          address_residential_indicator).

End PartialAddressSchema.

Module RecognitionRequestSchema.

(** [text: str = Field(min_length=1)], [address: ... | None = None].  The
    same record is the validated request and, with the address as its
    dictionary, the stored JSON object; see [payload] below. *)
Record t : Type := mk {
  text : string;
  address : option RecognitionInputAddressSchema.t;
}.

(** The JSON object [{"text": ..., "address": ...}] of one request. *)
Record payload : Type := mk_payload {
  p_text : string;
  p_address : option dict;
}.

Definition model_dump (r : t) : payload :=
  mk_payload (text r) (RecognitionInputAddressSchema.model_dump <$> address r).

Definition model_validate (p : payload) : result t :=
  if (1 <=? Str.len (p_text p))%nat then
    match p_address p with
    | None => Ok (mk (p_text p) None)
    | Some d =>
        a ← RecognitionInputAddressSchema.model_validate d;
        mret (mk (p_text p) (Some a))
    end
  else Raise ValidationError.

End RecognitionRequestSchema.

Module RecognitionResultSchema.

Record t : Type := mk {
  status : string;
  original_address : PartialAddressSchema.t;
  recognized_address : PartialAddressSchema.t;
}.

(** [status] defaults to ["recognized"]. *)
Definition new (original_address recognized_address : PartialAddressSchema.t) : t :=
  mk "recognized" original_address recognized_address.

End RecognitionResultSchema.

(** ** Tables ([app/models]) *)

(** [uuid.UUID].  [uuid.uuid4] is modelled by a counter, see [uuid4]. *)
Abbreviation uuid := positive.

(** A row of [address_validation_batches]; its primary key [id] is the key
    under which the table holds it. *)
Module ValidationBatch.
Record t : Type := mk {
  status : string;
  created_at : nat;
  request_payload : option (list dict);
}.
Definition with_status (st : string) (b : t) : t :=
  mk st (created_at b) (request_payload b).
End ValidationBatch.

(** A row of [address_validation_items]. *)
Module ValidationItem.
Record t : Type := mk {
  id : uuid;
  batch_id : uuid;
  status : string;
  original_address : dict;
  matched_address : dict;
  messages : list ValidationMessageSchema.t;
  created_at : nat;
}.
End ValidationItem.

(** A row of [address_recognition_batches]. *)
Module RecognitionBatch.
Record t : Type := mk {
  status : string;
  created_at : nat;
  request_payload : option (list RecognitionRequestSchema.payload);
}.
Definition with_status (st : string) (b : t) : t :=
  mk st (created_at b) (request_payload b).
End RecognitionBatch.

(** A row of [address_recognition_items]; [recognized] is the JSON object
    with the two keys [original_address] and [recognized_address]. *)
Module RecognitionItem.
Record t : Type := mk {
  id : uuid;
  batch_id : uuid;
  status : string;
  original_address : dict;
  recognized_address : dict;
  created_at : nat;
}.
End RecognitionItem.

Record Database : Type := mkDatabase {
  validation_batches : gmap uuid ValidationBatch.t;
  validation_items : list ValidationItem.t;
  recognition_batches : gmap uuid RecognitionBatch.t;
  recognition_items : list RecognitionItem.t;
}.

Definition empty_database : Database := mkDatabase ∅ [] ∅ [].

(** The items of one batch, in insertion order. *)
Definition validation_items_of (d : Database) (batch_id : uuid) : list ValidationItem.t :=
  filter (λ it, ValidationItem.batch_id it = batch_id) (validation_items d).

Definition recognition_items_of (d : Database) (batch_id : uuid) : list RecognitionItem.t :=
  filter (λ it, RecognitionItem.batch_id it = batch_id) (recognition_items d).

(** ** The session *)

Inductive kind : Type := Validation | Recognition.

(** What a coroutine asks of its session, in program order. *)
Inductive event : Type :=
| Begin                                       (* db_session.begin() entered *)
| Commit
| Rollback
| SelectForUpdate (k : kind) (id : uuid)      (* select(...).with_for_update() *)
| Get (k : kind) (id : uuid)                  (* db_session.get or a plain select, no lock *)
| SelectItems (k : kind) (batch_id : uuid)
| AddBatch (k : kind) (id : uuid)             (* add + flush *)
| SetStatus (k : kind) (id : uuid) (st : string)
| DeleteItems (k : kind) (batch_id : uuid)
| AddItem (k : kind) (batch_id : uuid)
| DeleteBatch (k : kind) (id : uuid).

#[global] Instance kind_eq_dec : EqDecision kind.
Proof. solve_decision. Defined.
#[global] Instance event_eq_dec : EqDecision event.
Proof. solve_decision. Defined.

(** A session together with the outside it talks to.
    - [durable]: the committed database, what any other session sees;
    - [db]: the view of this session inside its open transaction;
    - [seed]: the next identifier [uuid.uuid4] returns;
    - [clock]: the server's [now()];
    - [queue]: the jobs handed to the broker, oldest first;
    - [log]: the events of the session, oldest first. *)
Record State : Type := mkState {
  durable : Database;
  db : Database;
  seed : uuid;
  clock : nat;
  queue : list (string * uuid);
  log : list event;
}.

Definition with_db (f : Database → Database) (s : State) : State :=
  mkState (durable s) (f (db s)) (seed s) (clock s) (queue s) (log s).

Definition emit_state (e : event) (s : State) : State :=
  mkState (durable s) (db s) (seed s) (clock s) (queue s) (log s ++ [e]).

(** Commit makes the view durable; rollback (also what closing a session
    does to an open transaction) discards it. *)
Definition commit_state (s : State) : State :=
  mkState (db s) (db s) (seed s) (clock s) (queue s) (log s ++ [Commit]).

Definition rollback_state (s : State) : State :=
  mkState (durable s) (durable s) (seed s) (clock s) (queue s) (log s ++ [Rollback]).

(** Opening a session gives it the committed database as its view; closing
    it drops whatever it has not committed. *)
Definition open_state (s : State) : State :=
  mkState (durable s) (durable s) (seed s) (clock s) (queue s) (log s).

Definition close_state (s : State) : State :=
  mkState (durable s) (durable s) (seed s) (clock s) (queue s) (log s).

(** The monad of the coroutines: state passing with exceptions. *)
Definition M (A : Type) : Type := State → result A * State.

#[global] Instance M_ret : MRet M := λ A a s, (Ok a, s).
#[global] Instance M_bind : MBind M := λ A B f m s,
  match m s with
  | (Ok a, s') => f a s'
  | (Raise e, s') => (Raise e, s')
  end.

Definition raise {A} (e : exn) : M A := λ s, (Raise e, s).

(** A pure computation that may raise, run inside a coroutine. *)
Definition lift {A} (r : result A) : M A := λ s, (r, s).

Definition emit (e : event) : M unit := λ s, (Ok tt, emit_state e s).

Definition read {A} (f : Database → A) : M A := λ s, (Ok (f (db s)), s).

Definition write (f : Database → Database) : M unit := λ s, (Ok tt, with_db f s).

(** [for x in l: body(x)], collecting what the bodies return. *)
Fixpoint for_each {A B} (l : list A) (body : A → M B) : M (list B) :=
  match l with
  | [] => mret []
  | x :: r => y ← body x; ys ← for_each r body; mret (y :: ys)
  end.

(** [uuid.uuid4()]: the identifiers come from a counter, so that two
    calls never return the same one. *)
Definition uuid4 : M uuid := λ s,
  (Ok (seed s),
   mkState (durable s) (db s) (Pos.succ (seed s)) (clock s) (queue s) (log s)).

(** [func.now()] *)
Definition now : M nat := λ s, (Ok (clock s), s).

(** [await db_session.commit()] *)
Definition commit : M unit := λ s, (Ok tt, commit_state s).

(** [async with db_session.begin(): body] commits when the body ends or
    returns, and rolls back when it raises. *)
Definition transaction {A} (body : M A) : M A := λ s,
  match body (emit_state Begin s) with
  | (Ok a, s') => (Ok a, commit_state s')
  | (Raise e, s') => (Raise e, rollback_state s')
  end.

(** [async with SessionLocal() as db_session: body], and the
    [get_database_session] dependency of the routes. *)
Definition SessionLocal {A} (body : M A) : M A := λ s,
  let '(r, s') := body (open_state s) in (r, close_state s').

(** [await request.app.state.redis.enqueue_job(name, str(batch_id))] *)
Definition enqueue_job (job : string) (batch_id : uuid) : M unit := λ s,
  (Ok tt,
   mkState (durable s) (db s) (seed s) (clock s) (queue s ++ [(job, batch_id)]) (log s)).

(** *** Statements on the validation tables *)

Module ValidationTable.

(** [select(ValidationBatch).where(id == batch_id).with_for_update()],
    [.scalars().first()] *)
Definition select_for_update (batch_id : uuid) : M (option ValidationBatch.t) :=
  emit (SelectForUpdate Validation batch_id);;
  read (λ d, validation_batches d !! batch_id).

(** [db_session.get(ValidationBatch, batch_id)] *)
Definition get (batch_id : uuid) : M (option ValidationBatch.t) :=
  emit (Get Validation batch_id);;
  read (λ d, validation_batches d !! batch_id).

(** [select(ValidationItem.id).where(batch_id == ...).limit(1)],
    [.scalar_one_or_none()] *)
Definition first_item_id (batch_id : uuid) : M (option uuid) :=
  emit (SelectItems Validation batch_id);;
  read (λ d, ValidationItem.id <$> head (validation_items_of d batch_id)).

(** [ValidationBatch(status=..., request_payload=...)], [add], [flush]:
    the row gets its [id] from [uuid4] and its [created_at] from [now()];
    a primary key already present is refused. *)
Definition add (status : string) (request_payload : option (list dict)) : M uuid :=
  id ← uuid4;
  created_at ← now;
  emit (AddBatch Validation id);;
  taken ← read (λ d, bool_decide (is_Some (validation_batches d !! id)));
  if (taken : bool) then raise IntegrityError
  else
    write (λ d, mkDatabase
                  (<[id := ValidationBatch.mk status created_at request_payload]>
                     (validation_batches d))
                  (validation_items d) (recognition_batches d) (recognition_items d));;
    mret id.

(** [batch_record.status = st] *)
Definition set_status (batch_id : uuid) (st : string) : M unit :=
  emit (SetStatus Validation batch_id st);;
  write (λ d, mkDatabase
                (alter (ValidationBatch.with_status st) batch_id (validation_batches d))
                (validation_items d) (recognition_batches d) (recognition_items d)).

(** [delete(ValidationItem).where(ValidationItem.batch_id == batch_id)] *)
Definition delete_items (batch_id : uuid) : M unit :=
  emit (DeleteItems Validation batch_id);;
  write (λ d, mkDatabase (validation_batches d)
                (filter (λ it, ValidationItem.batch_id it ≠ batch_id) (validation_items d))
                (recognition_batches d) (recognition_items d)).

(** [db_session.add(ValidationItem(...))] *)
Definition add_item (batch_id : uuid) (status : string)
    (original_address matched_address : dict)
    (messages : list ValidationMessageSchema.t) : M unit :=
  id ← uuid4;
  created_at ← now;
  emit (AddItem Validation batch_id);;
  write (λ d, mkDatabase (validation_batches d)
                (validation_items d ++
                   [ValidationItem.mk id batch_id status original_address
                      matched_address messages created_at])
                (recognition_batches d) (recognition_items d)).

(** [await db_session.delete(batch_record)]; the items go with it
    ([ondelete="CASCADE"]). *)
Definition delete (batch_id : uuid) : M unit :=
  emit (DeleteBatch Validation batch_id);;
  write (λ d, mkDatabase (base.delete batch_id (validation_batches d))
                (filter (λ it, ValidationItem.batch_id it ≠ batch_id) (validation_items d))
                (recognition_batches d) (recognition_items d)).

End ValidationTable.

(** ** The validation service ([app/services/address_validation.py]) *)

Module ValidationService.

(** The body of the loop of [_normalize_address_data] for one entry. *)
Definition normalize_entry (field_name : string) (field_value : value) : value :=
  match field_value with
  | VStr s =>
      let cleaned_value := Str.strip s in
      if decide (field_name = "address_residential_indicator") then
        let cleaned_value := Str.lower cleaned_value in
        if is_literal ResidentialIndicatorType cleaned_value
        then VStr cleaned_value else VStr "unknown"
      else if decide (field_name = "country_code") then
        VStr (Str.upper cleaned_value)
      else if decide (field_name = "email") then
        VStr (Str.lower cleaned_value)
      else VStr (Str.upper cleaned_value)
  | _ => field_value
  end.

(** The loop visits every key once and writes the same key, so the new
    dictionary has the keys of the old one. *)
Definition _normalize_address_data (address_data : dict) : dict :=
  let normalized_data :=
    map_imap (λ field_name field_value, Some (normalize_entry field_name field_value))
      address_data in
  match normalized_data !! "address_residential_indicator" with
  | None => <["address_residential_indicator" := VStr "unknown"]> normalized_data
  | Some _ => normalized_data
  end.

Definition _determine_validation_status (address : AddressInputSchema.t)
  : string * list ValidationMessageSchema.t :=
  let validation_messages :=
    if String.eqb (Str.upper (AddressInputSchema.country_code address)) "US"
       && negb (truthy (AddressInputSchema.postal_code address))
    then [ValidationMessageSchema.mk "missing_postal_code"
            "postal_code is recommended for US" "warning"]
    else [] in
  ("verified", validation_messages).

Definition create_queued_batch (addresses : list AddressInputSchema.t) : M uuid :=
  let request_payload := AddressInputSchema.model_dump <$> addresses in
  transaction (ValidationTable.add "queued" (Some request_payload)).

(** Lines 117-127: the residential indicator of the echoed original. *)
Definition original_output_of (original_data : dict) : dict :=
  match original_data !! "address_residential_indicator" with
  | Some (VStr residential_indicator) =>
      let normalized_indicator := Str.lower (Str.strip residential_indicator) in
      <["address_residential_indicator" :=
          VStr (if is_literal ResidentialIndicatorType normalized_indicator
                then normalized_indicator else "unknown")]> original_data
  | Some VNone | None =>
      <["address_residential_indicator" := VStr "unknown"]> original_data
  | Some (VInt _) => original_data
  end.

Definition validate_and_store_addresses (addresses : list AddressInputSchema.t)
  : M (uuid * list ValidationResultSchema.t) :=
  let request_payload := AddressInputSchema.model_dump <$> addresses in
  transaction (
    new_batch ← ValidationTable.add "completed" (Some request_payload);
    validation_results ← for_each addresses (λ address_input,
      let original_data := AddressInputSchema.model_dump address_input in
      let normalized_data := _normalize_address_data original_data in
      let '(validation_status, validation_messages) :=
        _determine_validation_status address_input in
      ValidationTable.add_item new_batch validation_status original_data
        normalized_data validation_messages;;
      let original_output := original_output_of original_data in
      original_address ← lift (AddressOutputSchema.model_validate original_output);
      matched_address ← lift (AddressOutputSchema.model_validate normalized_data);
      lift (ValidationResultSchema.new validation_status original_address
              matched_address validation_messages));
    mret (new_batch, validation_results)).

(** [request_payload = batch_record.request_payload or []] *)
Definition payload_or_empty {A} (request_payload : option (list A)) : list A :=
  match request_payload with
  | None | Some [] => []
  | Some l => l
  end.

(** [not request_payload] *)
Definition is_empty {A} (l : list A) : bool :=
  match l with
  | [] => true
  | _ => false
  end.

Definition process_batch_validation (batch_id : uuid) : M unit :=
  transaction (
    batch_record ← ValidationTable.select_for_update batch_id;
    match batch_record with
    | None => mret tt
    | Some batch_record =>
        existing_item ← ValidationTable.first_item_id batch_id;
        if String.eqb (ValidationBatch.status batch_record) "completed"
           && bool_decide (is_Some existing_item)
        then mret tt
        else
          let request_payload :=
            payload_or_empty (ValidationBatch.request_payload batch_record) in
          if is_empty request_payload then
            ValidationTable.set_status batch_id "failed"
          else
            ValidationTable.set_status batch_id "processing";;
            ValidationTable.delete_items batch_id;;
            address_list ← lift (traverse AddressInputSchema.model_validate request_payload);
            for_each address_list (λ address_input,
              let original_data := AddressInputSchema.model_dump address_input in
              let normalized_data := _normalize_address_data original_data in
              let '(validation_status, validation_messages) :=
                _determine_validation_status address_input in
              ValidationTable.add_item batch_id validation_status original_data
                normalized_data validation_messages);;
            ValidationTable.set_status batch_id "completed"
    end).

(** [order_by(ValidationItem.created_at)].  The rows written in one
    transaction have the same [now()]; the query leaves their order open,
    and [merge_sort] answers them in one of the orders it allows. *)
Definition by_created_at (a b : ValidationItem.t) : Prop :=
  (ValidationItem.created_at a ≤ ValidationItem.created_at b)%nat.

#[global] Instance by_created_at_dec a b : Decision (by_created_at a b).
Proof. unfold by_created_at. apply _. Defined.

Definition result_rows (d : Database) (batch_id : uuid) : list ValidationItem.t :=
  merge_sort by_created_at (validation_items_of d batch_id).

(** The [ValidationResultSchema(...)] call of [retrieve_batch_results]:
    the stored dictionaries are validated into the output schema. *)
Definition result_of_item (item : ValidationItem.t) : result ValidationResultSchema.t :=
  messages ← traverse ValidationMessageSchema.model_validate (ValidationItem.messages item);
  original_address ← AddressOutputSchema.model_validate (ValidationItem.original_address item);
  matched_address ← AddressOutputSchema.model_validate (ValidationItem.matched_address item);
  ValidationResultSchema.new (ValidationItem.status item) original_address
    matched_address messages.

Definition retrieve_batch_results (batch_id : uuid) : M (list ValidationResultSchema.t) :=
  emit (SelectItems Validation batch_id);;
  result_rows ← read (λ d, result_rows d batch_id);
  lift (traverse result_of_item result_rows).

(** Lines 269-298.  The outer join with [count] gives one row for an
    existing batch, with count 0 when it has no items, and no row for an
    unknown identifier. *)
Definition get_batch_info (batch_id : uuid) : M (option BatchInfoSchema.t) :=
  emit (Get Validation batch_id);;
  result_row ← read (λ d,
    (λ batch_record, (batch_record, length (validation_items_of d batch_id)))
      <$> validation_batches d !! batch_id);
  match result_row with
  | None => mret None
  | Some (batch_record, item_count) =>
      info ← lift (BatchInfoSchema.new batch_id (ValidationBatch.status batch_record)
                     (ValidationBatch.created_at batch_record) item_count
                     (ValidationBatch.request_payload batch_record));
      mret (Some info)
  end.

Definition remove_batch (batch_id : uuid) : M bool :=
  transaction (
    batch_record ← ValidationTable.get batch_id;
    match batch_record with
    | None => mret false
    | Some _ =>
        ValidationTable.delete_items batch_id;;
        ValidationTable.delete batch_id;;
        mret true
    end).

Definition reset_batch_for_processing (batch_id : uuid) : M bool :=
  transaction (
    batch_record ← ValidationTable.select_for_update batch_id;
    match batch_record with
    | None => mret false
    | Some batch_record =>
        if String.eqb (ValidationBatch.status batch_record) "processing" then
          raise (RuntimeError "processing")
        else if is_empty (payload_or_empty (ValidationBatch.request_payload batch_record)) then
          ValidationTable.set_status batch_id "failed";;
          mret false
        else
          ValidationTable.set_status batch_id "queued";;
          ValidationTable.delete_items batch_id;;
          mret true
    end).

(** [order_by(ValidationBatch.created_at.desc())]; the order of batches
    created at the same [now()] is left open by the query. *)
Definition newest_first (a b : uuid * ValidationBatch.t) : Prop :=
  (ValidationBatch.created_at b.2 ≤ ValidationBatch.created_at a.2)%nat.

#[global] Instance newest_first_dec a b : Decision (newest_first a b).
Proof. unfold newest_first. apply _. Defined.

(** The rows of the query of [list_validation_batches], lines 239-256:
    the batches with the status asked for, when one is asked for, newest
    first, from [offset] on and at most [limit] of them, each with the
    count of its items (0 for a batch without items, from the outer
    join).  [limit] and [offset] are the non-negative integers the route
    lets through. *)
Definition listed_rows (d : Database) (limit offset : nat) (status : option string)
  : list (uuid * ValidationBatch.t * nat) :=
  let rows := map_to_list (validation_batches d) in
  let rows :=
    match status with
    | Some st =>
        if String.eqb st "" then rows
        else filter (λ r, ValidationBatch.status r.2 = st) rows
    | None => rows
    end in
  let rows := take limit (drop offset (merge_sort newest_first rows)) in
  (λ r, (r, length (validation_items_of d r.1))) <$> rows.

Definition info_of_row (row : uuid * ValidationBatch.t * nat) : result BatchInfoSchema.t :=
  let '(batch_id, batch_record, item_count) := row in
  BatchInfoSchema.new batch_id (ValidationBatch.status batch_record)
    (ValidationBatch.created_at batch_record) item_count
    (ValidationBatch.request_payload batch_record).

Definition list_validation_batches (limit offset : nat) (status : option string)
  : M (list BatchInfoSchema.t) :=
  result_rows ← read (λ d, listed_rows d limit offset status);
  lift (traverse info_of_row result_rows).

End ValidationService.

(** *** Statements on the recognition tables *)

Module RecognitionTable.

(** [db_session.get(RecognitionBatch, batch_id)] *)
Definition get (batch_id : uuid) : M (option RecognitionBatch.t) :=
  emit (Get Recognition batch_id);;
  read (λ d, recognition_batches d !! batch_id).

(** [RecognitionBatch(status=..., request_payload=...)], [add], [flush] *)
Definition add (status : string)
    (request_payload : option (list RecognitionRequestSchema.payload)) : M uuid :=
  id ← uuid4;
  created_at ← now;
  emit (AddBatch Recognition id);;
  taken ← read (λ d, bool_decide (is_Some (recognition_batches d !! id)));
  if (taken : bool) then raise IntegrityError
  else
    write (λ d, mkDatabase (validation_batches d) (validation_items d)
                  (<[id := RecognitionBatch.mk status created_at request_payload]>
                     (recognition_batches d))
                  (recognition_items d));;
    mret id.

(** [batch_record.status = st] *)
Definition set_status (batch_id : uuid) (st : string) : M unit :=
  emit (SetStatus Recognition batch_id st);;
  write (λ d, mkDatabase (validation_batches d) (validation_items d)
                (alter (RecognitionBatch.with_status st) batch_id (recognition_batches d))
                (recognition_items d)).

(** [delete(RecognitionItem).where(RecognitionItem.batch_id == batch_id)] *)
Definition delete_items (batch_id : uuid) : M unit :=
  emit (DeleteItems Recognition batch_id);;
  write (λ d, mkDatabase (validation_batches d) (validation_items d)
                (recognition_batches d)
                (filter (λ it, RecognitionItem.batch_id it ≠ batch_id) (recognition_items d))).

(** [db_session.add(RecognitionItem(...))] *)
Definition add_item (batch_id : uuid) (status : string)
    (original_address recognized_address : dict) : M unit :=
  id ← uuid4;
  created_at ← now;
  emit (AddItem Recognition batch_id);;
  write (λ d, mkDatabase (validation_batches d) (validation_items d)
                (recognition_batches d)
                (recognition_items d ++
                   [RecognitionItem.mk id batch_id status original_address
                      recognized_address created_at])).

End RecognitionTable.

(** ** The recognition service ([app/services/address_recognition.py]) *)

Module RecognitionService.

(** The body of the loop of [_process_address_recognition] for one entry. *)
Definition process_entry (field_key : string) (field_value : value) : value :=
  match field_value with
  | VStr s =>
      let cleaned_value := Str.strip s in
      if decide (field_key = "country_code") then VStr (Str.upper cleaned_value)
      else if decide (field_key = "email") then VStr (Str.lower cleaned_value)
      else if decide (field_key = "address_residential_indicator") then
        let normalized_indicator := Str.lower (Str.strip cleaned_value) in
        if is_literal ResidentialIndicatorType normalized_indicator
        then VStr normalized_indicator else VStr "unknown"
      else VStr (Str.upper cleaned_value)
  | _ => field_value
  end.

Definition _process_address_recognition (address_data : dict) : dict :=
  let processed_data :=
    map_imap (λ field_key field_value, Some (process_entry field_key field_value))
      address_data in
  match processed_data !! "address_residential_indicator" with
  | None | Some VNone =>
      <["address_residential_indicator" := VStr "unknown"]> processed_data
  | Some _ => processed_data
  end.

(** [recognition_request.address.model_dump() if recognition_request.address else {}] *)
Definition original_data_of (recognition_request : RecognitionRequestSchema.t) : dict :=
  match RecognitionRequestSchema.address recognition_request with
  | Some address => RecognitionInputAddressSchema.model_dump address
  | None => ∅
  end.

Definition create_queued_recognition_batch (requests : list RecognitionRequestSchema.t)
  : M uuid :=
  let request_payload := RecognitionRequestSchema.model_dump <$> requests in
  new_batch ← RecognitionTable.add "queued" (Some request_payload);
  commit;;
  mret new_batch.

Definition recognize_and_store_addresses (requests : list RecognitionRequestSchema.t)
  : M (uuid * list RecognitionResultSchema.t) :=
  let request_payload := RecognitionRequestSchema.model_dump <$> requests in
  new_batch ← RecognitionTable.add "completed" (Some request_payload);
  recognition_results ← for_each requests (λ recognition_request,
    let original_data := original_data_of recognition_request in
    let recognized_data := _process_address_recognition original_data in
    RecognitionTable.add_item new_batch "completed" original_data recognized_data;;
    original_address ← lift (PartialAddressSchema.model_validate original_data);
    recognized_address ← lift (PartialAddressSchema.model_validate recognized_data);
    mret (RecognitionResultSchema.new original_address recognized_address));
  commit;;
  mret (new_batch, recognition_results).

Definition process_recognition_batch (batch_id : uuid) : M unit :=
  batch_record ← RecognitionTable.get batch_id;
  match batch_record with
  | None => mret tt
  | Some batch_record =>
      if is_literal ["processing"; "completed"] (RecognitionBatch.status batch_record)
      then mret tt
      else
        let request_payload :=
          ValidationService.payload_or_empty (RecognitionBatch.request_payload batch_record) in
        if ValidationService.is_empty request_payload then
          RecognitionTable.set_status batch_id "failed";;
          commit
        else
          RecognitionTable.set_status batch_id "processing";;
          commit;;
          RecognitionTable.delete_items batch_id;;
          recognition_requests ←
            lift (traverse RecognitionRequestSchema.model_validate request_payload);
          for_each recognition_requests (λ recognition_request,
            let original_data := original_data_of recognition_request in
            let recognized_data := _process_address_recognition original_data in
            RecognitionTable.add_item batch_id "completed" original_data recognized_data);;
          updated_batch ← RecognitionTable.get batch_id;
          match updated_batch with
          | Some _ => RecognitionTable.set_status batch_id "completed"
          | None => mret tt
          end;;
          commit
  end.

Definition by_created_at (a b : RecognitionItem.t) : Prop :=
  (RecognitionItem.created_at a ≤ RecognitionItem.created_at b)%nat.

#[global] Instance by_created_at_dec a b : Decision (by_created_at a b).
Proof. unfold by_created_at. apply _. Defined.

Definition result_rows (d : Database) (batch_id : uuid) : list RecognitionItem.t :=
  merge_sort by_created_at (recognition_items_of d batch_id).

Definition result_of_item (item : RecognitionItem.t) : result RecognitionResultSchema.t :=
  original_address ← PartialAddressSchema.model_validate (RecognitionItem.original_address item);
  recognized_address ← PartialAddressSchema.model_validate (RecognitionItem.recognized_address item);
  mret (RecognitionResultSchema.new original_address recognized_address).

Definition retrieve_recognition_results (batch_id : uuid)
  : M (list RecognitionResultSchema.t) :=
  emit (SelectItems Recognition batch_id);;
  result_rows ← read (λ d, result_rows d batch_id);
  lift (traverse result_of_item result_rows).

End RecognitionService.

(** ** The worker ([app/workers/jobs.py]) *)

(** The jobs receive the identifier as the string the route made of it;
    here they receive the identifier. *)
Definition validate_addresses_batch (batch_id : uuid) : M unit :=
  SessionLocal (ValidationService.process_batch_validation batch_id).

Definition recognize_addresses_batch (batch_id : uuid) : M unit :=
  SessionLocal (RecognitionService.process_recognition_batch batch_id).

(** ** The routes ([app/api/v1/endpoints/addresses.py]) *)

Module AddressEndpoints.

(** What a route answers: the status code, the batch identifier it puts
    in the response header when it has one, and the body. *)
Record response (A : Type) : Type := mk_response {
  status_code : nat;
  batch_header : option uuid;
  body : A;
}.
Arguments mk_response {A}.
Arguments status_code {A}.
Arguments batch_header {A}.
Arguments body {A}.

Definition validate_addresses_endpoint (addresses : list AddressInputSchema.t)
    (async_mode : bool) : M (response (list ValidationResultSchema.t)) :=
  SessionLocal (
    if async_mode then
      batch_id ← ValidationService.create_queued_batch addresses;
      enqueue_job "validate_addresses_batch" batch_id;;
      mret (mk_response 202 (Some batch_id) [])
    else
      '(batch_id, results) ← ValidationService.validate_and_store_addresses addresses;
      mret (mk_response 200 (Some batch_id) results)).

Definition get_validation_results_endpoint (batch_id : uuid)
  : M (list ValidationResultSchema.t) :=
  SessionLocal (
    results ← ValidationService.retrieve_batch_results batch_id;
    if ValidationService.is_empty results
    then raise (HTTPException 404 "batch_id not found or empty")
    else mret results).

Definition get_validation_batch_endpoint (batch_id : uuid) : M BatchInfoSchema.t :=
  SessionLocal (
    batch_info ← ValidationService.get_batch_info batch_id;
    match batch_info with
    | None => raise (HTTPException 404 "batch_id not found")
    | Some batch_info => mret batch_info
    end).

Definition delete_validation_batch_endpoint (batch_id : uuid) : M unit :=
  SessionLocal (
    success ← ValidationService.remove_batch batch_id;
    if (success : bool) then mret tt
    else raise (HTTPException 404 "batch_id not found")).

(** [try: ... except RuntimeError: raise HTTPException(409, ...)] *)
Definition requeue_validation_batch_endpoint (batch_id : uuid) : M unit :=
  SessionLocal (λ s,
    match ValidationService.reset_batch_for_processing batch_id s with
    | (Raise (RuntimeError _), s') =>
        (Raise (HTTPException 409 "batch is processing"), s')
    | (Raise e, s') => (Raise e, s')
    | (Ok success, s') =>
        if (success : bool)
        then enqueue_job "validate_addresses_batch" batch_id s'
        else (Raise (HTTPException 404 "batch_id not found"), s')
    end).

Definition recognize_addresses_endpoint (payload : list RecognitionRequestSchema.t)
    (async_mode : bool) : M (response (list RecognitionResultSchema.t)) :=
  SessionLocal (
    if async_mode then
      recognition_id ← RecognitionService.create_queued_recognition_batch payload;
      enqueue_job "recognize_addresses_batch" recognition_id;;
      mret (mk_response 202 (Some recognition_id) [])
    else
      '(recognition_id, results) ← RecognitionService.recognize_and_store_addresses payload;
      mret (mk_response 200 (Some recognition_id) results)).

Definition get_recognition_results_endpoint (recognition_id : uuid)
  : M (list RecognitionResultSchema.t) :=
  SessionLocal (
    emit (SelectItems Recognition recognition_id);;
    result_rows ← read (λ d, RecognitionService.result_rows d recognition_id);
    if ValidationService.is_empty result_rows
    then raise (HTTPException 404 "recognition_id not found or empty")
    else lift (traverse RecognitionService.result_of_item result_rows)).

(** The route lets through a [limit] from 1 to 200, an [offset] from 0 on
    and a status of [BatchStatusType] or none ([Query(50, ge=1, le=200)],
    [Query(0, ge=0)]). *)
Definition list_validation_batches_endpoint (limit offset : nat)
    (status_filter : option string) : M (list BatchInfoSchema.t) :=
  SessionLocal (ValidationService.list_validation_batches limit offset status_filter).

End AddressEndpoints.

(** * Definitions for the statements *)

(** ** Reading the committed database *)

Definition validation_status (s : State) (batch_id : uuid) : option string :=
  ValidationBatch.status <$> validation_batches (durable s) !! batch_id.

Definition recognition_status (s : State) (batch_id : uuid) : option string :=
  RecognitionBatch.status <$> recognition_batches (durable s) !! batch_id.

(** The payload of a stored batch as the services read it
    ([request_payload or []]): [Some []] is a batch whose payload is empty. *)
Definition validation_payload (s : State) (batch_id : uuid) : option (list dict) :=
  b ← validation_batches (durable s) !! batch_id;
  Some (ValidationService.payload_or_empty (ValidationBatch.request_payload b)).

Definition recognition_payload (s : State) (batch_id : uuid)
  : option (list RecognitionRequestSchema.payload) :=
  b ← recognition_batches (durable s) !! batch_id;
  Some (ValidationService.payload_or_empty (RecognitionBatch.request_payload b)).

(** What a call appended to the log of the session. *)
Definition logged (s s' : State) (events : list event) : Prop :=
  log s' = log s ++ events.

(** Unfolding of the monad and of the statements, for goals that run a
    coroutine on a symbolic state. *)
Ltac unfold_monad :=
  cbv [SessionLocal transaction mbind M_bind mret M_ret emit read write raise lift
       commit now uuid4 enqueue_job
       ValidationTable.select_for_update ValidationTable.get
       ValidationTable.first_item_id ValidationTable.set_status
       ValidationTable.delete_items ValidationTable.delete
       RecognitionTable.get RecognitionTable.set_status RecognitionTable.delete_items
       open_state close_state commit_state rollback_state emit_state with_db];
  cbn [durable db seed clock queue log].

Ltac proj :=
  cbn [fst snd durable db seed clock queue log
       validation_batches validation_items recognition_batches recognition_items].

(** The database after [batch_record.status = st] has been flushed. *)
Definition validation_marked (st : string) (batch_id : uuid) (d : Database) : Database :=
  mkDatabase (alter (ValidationBatch.with_status st) batch_id (validation_batches d))
    (validation_items d) (recognition_batches d) (recognition_items d).

Definition recognition_marked (st : string) (batch_id : uuid) (d : Database) : Database :=
  mkDatabase (validation_batches d) (validation_items d)
    (alter (RecognitionBatch.with_status st) batch_id (recognition_batches d))
    (recognition_items d).

(** ** Sample data

    A store built by the routes themselves, from the empty database:
    validation batch 1 is [completed] with one item, validation batch 3 is
    [queued], recognition batch 4 is [completed] with one item, recognition
    batch 6 is [queued]; validation batch 7 and recognition batch 8 come
    from synchronous requests with no record, validation batch 9 and
    recognition batch 10 from asynchronous ones. *)

Definition initial : State := mkState empty_database empty_database 1 0 [] [].

Definition main_street : AddressInputSchema.t :=
  AddressInputSchema.mk None None None None "1 main st" None None
    "springfield" "il" VNone "us" "unknown".

Definition elm_street : RecognitionRequestSchema.t :=
  RecognitionRequestSchema.mk "12 elm street, salem"
    (Some (RecognitionInputAddressSchema.mk None (Some "12 elm street") None None
             (Some "salem") None VNone (Some "us") None)).

Definition after {A} (m : M A) (s : State) : State := (m s).2.

Definition sample : State :=
  after (RecognitionService.create_queued_recognition_batch [])
  (after (ValidationService.create_queued_batch [])
  (after (AddressEndpoints.recognize_addresses_endpoint [] false)
  (after (AddressEndpoints.validate_addresses_endpoint [] false)
  (after (RecognitionService.create_queued_recognition_batch [elm_street])
  (after (AddressEndpoints.recognize_addresses_endpoint [elm_street] false)
  (after (ValidationService.create_queued_batch [main_street])
  (after (AddressEndpoints.validate_addresses_endpoint [main_street] false)
     initial))))))).

(** The same store with validation batch 3 marked [processing]. *)
Definition sample_in_flight : State :=
  mkState (validation_marked "processing" 3 (durable sample))
    (validation_marked "processing" 3 (durable sample))
    (seed sample) (clock sample) (queue sample) (log sample).

(** ** The guards and the foreign key *)

(** The guard of [process_batch_validation] lets the call through. *)
Definition passes_validation_guard (s : State) (batch_id : uuid) : Prop :=
  validation_status s batch_id ≠ Some "completed" ∨
  validation_items_of (durable s) batch_id = [].

(** The guard of [process_recognition_batch] lets the call through. *)
Definition passes_recognition_guard (s : State) (batch_id : uuid) : Prop :=
  recognition_status s batch_id ≠ Some "processing" ∧
  recognition_status s batch_id ≠ Some "completed".

(** The foreign key of [address_validation_items.batch_id]. *)
Definition foreign_keys_hold (d : Database) : Prop :=
  ∀ it, it ∈ validation_items d →
        is_Some (validation_batches d !! ValidationItem.batch_id it).

(** ** The tables after a pass *)

(** The identifiers handed out by [n] calls of [uuid4] from [seed] on. *)
Fixpoint advance (n : nat) (seed : uuid) : uuid :=
  match n with
  | O => seed
  | S n => advance n (Pos.succ seed)
  end.

(** The item row the validation worker writes for one record. *)
Definition validation_item (id batch_id : uuid) (created_at : nat)
    (address_input : AddressInputSchema.t) : ValidationItem.t :=
  let original_data := AddressInputSchema.model_dump address_input in
  ValidationItem.mk id batch_id
    (ValidationService._determine_validation_status address_input).1
    original_data
    (ValidationService._normalize_address_data original_data)
    (ValidationService._determine_validation_status address_input).2
    created_at.

(** The session after the body of the validation loop has run once. *)
Definition validation_item_added (batch_id : uuid) (address_input : AddressInputSchema.t)
    (s : State) : State :=
  mkState (durable s)
    (mkDatabase (validation_batches (db s))
       (validation_items (db s) ++ [validation_item (seed s) batch_id (clock s) address_input])
       (recognition_batches (db s)) (recognition_items (db s)))
    (Pos.succ (seed s)) (clock s) (queue s)
    (log s ++ [AddItem Validation batch_id]).

(** The rows written by the loop, in the order of the records. *)
Fixpoint validation_rows (seed batch_id : uuid) (created_at : nat)
    (l : list AddressInputSchema.t) : list ValidationItem.t :=
  match l with
  | [] => []
  | a :: l =>
      validation_item seed batch_id created_at a
      :: validation_rows (Pos.succ seed) batch_id created_at l
  end.

(** The validation tables after a full pass over the records [addresses]:
    the status has gone through [processing] to [completed], the old items
    of the batch are gone and one row per record has been written. *)
Definition validation_processed (batch_id seed : uuid) (created_at : nat)
    (addresses : list AddressInputSchema.t) (d : Database) : Database :=
  mkDatabase
    (alter (ValidationBatch.with_status "completed") batch_id
       (alter (ValidationBatch.with_status "processing") batch_id (validation_batches d)))
    (filter (λ it, ValidationItem.batch_id it ≠ batch_id) (validation_items d)
       ++ validation_rows seed batch_id created_at addresses)
    (recognition_batches d) (recognition_items d).

(** The result the synchronous validation path builds for one record. *)
Definition validation_result (address_input : AddressInputSchema.t)
  : result ValidationResultSchema.t :=
  let original_data := AddressInputSchema.model_dump address_input in
  let normalized_data := ValidationService._normalize_address_data original_data in
  original_address ←
    AddressOutputSchema.model_validate (ValidationService.original_output_of original_data);
  matched_address ← AddressOutputSchema.model_validate normalized_data;
  ValidationResultSchema.new
    (ValidationService._determine_validation_status address_input).1
    original_address matched_address
    (ValidationService._determine_validation_status address_input).2.

(** The validation tables after the synchronous path has stored a batch. *)
Definition validation_stored (new_batch : uuid) (created_at : nat)
    (addresses : list AddressInputSchema.t) (d : Database) : Database :=
  mkDatabase
    (<[new_batch := ValidationBatch.mk "completed" created_at
                      (Some (AddressInputSchema.model_dump <$> addresses))]>
       (validation_batches d))
    (validation_items d ++ validation_rows (Pos.succ new_batch) new_batch created_at addresses)
    (recognition_batches d) (recognition_items d).

(** The item row the recognition worker writes for one request. *)
Definition recognition_item (id batch_id : uuid) (created_at : nat)
    (recognition_request : RecognitionRequestSchema.t) : RecognitionItem.t :=
  let original_data := RecognitionService.original_data_of recognition_request in
  RecognitionItem.mk id batch_id "completed" original_data
    (RecognitionService._process_address_recognition original_data) created_at.

(** The result the synchronous recognition path builds for one request. *)
Definition recognition_result (recognition_request : RecognitionRequestSchema.t)
  : result RecognitionResultSchema.t :=
  let original_data := RecognitionService.original_data_of recognition_request in
  let recognized_data := RecognitionService._process_address_recognition original_data in
  original_address ← PartialAddressSchema.model_validate original_data;
  recognized_address ← PartialAddressSchema.model_validate recognized_data;
  mret (RecognitionResultSchema.new original_address recognized_address).

Definition recognition_item_added (batch_id : uuid)
    (recognition_request : RecognitionRequestSchema.t) (s : State) : State :=
  mkState (durable s)
    (mkDatabase (validation_batches (db s)) (validation_items (db s))
       (recognition_batches (db s))
       (recognition_items (db s)
          ++ [recognition_item (seed s) batch_id (clock s) recognition_request]))
    (Pos.succ (seed s)) (clock s) (queue s)
    (log s ++ [AddItem Recognition batch_id]).

Fixpoint recognition_rows (seed batch_id : uuid) (created_at : nat)
    (l : list RecognitionRequestSchema.t) : list RecognitionItem.t :=
  match l with
  | [] => []
  | r :: l =>
      recognition_item seed batch_id created_at r
      :: recognition_rows (Pos.succ seed) batch_id created_at l
  end.

(** The recognition tables after the synchronous path has stored a batch. *)
Definition recognition_stored (new_batch : uuid) (created_at : nat)
    (requests : list RecognitionRequestSchema.t) (d : Database) : Database :=
  mkDatabase (validation_batches d) (validation_items d)
    (<[new_batch := RecognitionBatch.mk "completed" created_at
                      (Some (RecognitionRequestSchema.model_dump <$> requests))]>
       (recognition_batches d))
    (recognition_items d ++ recognition_rows (Pos.succ new_batch) new_batch created_at requests).

(** The recognition tables after a full pass over [requests]. *)
Definition recognition_processed (batch_id seed : uuid) (created_at : nat)
    (requests : list RecognitionRequestSchema.t) (d : Database) : Database :=
  mkDatabase (validation_batches d) (validation_items d)
    (alter (RecognitionBatch.with_status "completed") batch_id
       (alter (RecognitionBatch.with_status "processing") batch_id (recognition_batches d)))
    (filter (λ it, RecognitionItem.batch_id it ≠ batch_id) (recognition_items d)
       ++ recognition_rows seed batch_id created_at requests).

(** The rows of the batch tables that a session sees and that are
    committed, without the items. *)
Definition batch_rows (s : State)
  : (gmap uuid ValidationBatch.t * gmap uuid RecognitionBatch.t)
    * (gmap uuid ValidationBatch.t * gmap uuid RecognitionBatch.t) :=
  ((validation_batches (durable s), recognition_batches (durable s)),
   (validation_batches (db s), recognition_batches (db s))).

(** ** Transactions and locks in a log *)

(** The events that open or close a transaction. *)
Definition is_boundary (e : event) : bool :=
  match e with
  | Begin | Commit | Rollback => true
  | _ => false
  end.

(** The events that take a row lock. *)
Definition is_lock (e : event) : bool :=
  match e with
  | SelectForUpdate _ _ => true
  | _ => false
  end.

(** A run that takes the lock on [batch_id] as the first statement of its
    transaction and ends that transaction with its last event: the lock
    is held over everything in between. *)
Definition locked_throughout (k : kind) (batch_id : uuid) (events : list event) : Prop :=
  ∃ middle last,
    events = [Begin; SelectForUpdate k batch_id] ++ middle ++ [last] ∧
    (last = Commit ∨ last = Rollback) ∧
    Forall (λ e, is_boundary e = false) middle.

(** The number of passes over the items of a batch that a log records. *)
Definition passes (k : kind) (batch_id : uuid) (events : list event) : nat :=
  length (filter (λ e, e = DeleteItems k batch_id) events).

(** ** Two recognition workers

    [process_recognition_batch] gives the control back to the event loop
    and to the other workers at each [await].  It is cut here at the two
    places that matter: after the read of the batch, and after the commit
    of [processing].  Between two cuts a worker runs alone. *)

Inductive recognition_pc : Type :=
| AtGet                                                   (* line 112 *)
| AtGuard (batch_record : option RecognitionBatch.t)      (* lines 113-126 *)
| AtReplace (request_payload : list RecognitionRequestSchema.payload)  (* lines 128-157 *)
| Returned.

Definition recognition_step (batch_id : uuid) (pc : recognition_pc) : M recognition_pc :=
  match pc with
  | AtGet =>
      batch_record ← RecognitionTable.get batch_id;
      mret (AtGuard batch_record)
  | AtGuard None => mret Returned
  | AtGuard (Some batch_record) =>
      if is_literal ["processing"; "completed"] (RecognitionBatch.status batch_record)
      then mret Returned
      else
        let request_payload :=
          ValidationService.payload_or_empty (RecognitionBatch.request_payload batch_record) in
        if ValidationService.is_empty request_payload then
          RecognitionTable.set_status batch_id "failed";;
          commit;;
          mret Returned
        else
          RecognitionTable.set_status batch_id "processing";;
          commit;;
          mret (AtReplace request_payload)
  | AtReplace request_payload =>
      RecognitionTable.delete_items batch_id;;
      recognition_requests ←
        lift (traverse RecognitionRequestSchema.model_validate request_payload);
      for_each recognition_requests (λ recognition_request,
        let original_data := RecognitionService.original_data_of recognition_request in
        let recognized_data := RecognitionService._process_address_recognition original_data in
        RecognitionTable.add_item batch_id "completed" original_data recognized_data);;
      updated_batch ← RecognitionTable.get batch_id;
      match updated_batch with
      | Some _ => RecognitionTable.set_status batch_id "completed"
      | None => mret tt
      end;;
      commit;;
      mret Returned
  | Returned => mret Returned
  end.

(** One worker running its three pieces one after the other. *)
Definition recognition_steps (batch_id : uuid) : M unit :=
  pc ← recognition_step batch_id AtGet;
  pc ← recognition_step batch_id pc;
  recognition_step batch_id pc;;
  mret tt.

(** Two workers on the same batch, each with its own session: the one
    named by the schedule runs its next piece on the committed database
    and its session keeps nothing uncommitted; a worker that raises is
    done. *)
Definition workers_step (batch_id : uuid) (second : bool)
    (w : recognition_pc * recognition_pc * State) : recognition_pc * recognition_pc * State :=
  let '(pc1, pc2, s) := w in
  let '(r, s') := SessionLocal (recognition_step batch_id (if second then pc2 else pc1)) s in
  let pc' := match r with Ok pc' => pc' | Raise _ => Returned end in
  if second then (pc1, pc', s') else (pc', pc2, s').

Definition workers_run (batch_id : uuid) (schedule : list bool) (s : State)
  : recognition_pc * recognition_pc * State :=
  foldl (λ w second, workers_step batch_id second w) (AtGet, AtGet, s) schedule.

(** ** More sample data *)

(** The sample store after the workers have taken the two queued batches
    that have no record: both are [failed]. *)
Definition sample_failed : State :=
  after (recognize_addresses_batch 10) (after (validate_addresses_batch 9) sample).

(** A record the input schema accepts: its first address line is one
    space, which is a string of length 1. *)
Definition blank_line : AddressInputSchema.t :=
  AddressInputSchema.mk None None None None " " None None
    "springfield" "il" VNone "us" "unknown".

(** The record of the example, as the specification writes it, and the
    record it is said to become. *)
Definition example_record : dict :=
  list_to_map [("address_line1", VStr "1 main st"); ("country_code", VStr "us");
               ("address_residential_indicator", VNone)].

Definition example_claimed : dict :=
  list_to_map [("ADDRESS_LINE1", VStr "1 MAIN ST"); ("COUNTRY_CODE", VStr "US");
               ("address_residential_indicator", VStr "unknown")].

(** The same record with the two other fields the input schema requires;
    the schema makes [main_street] of it. *)
Definition example_request : dict :=
  list_to_map [("address_line1", VStr "1 main st"); ("city_locality", VStr "springfield");
               ("state_province", VStr "il"); ("country_code", VStr "us");
               ("address_residential_indicator", VNone)].

(** ** The tables after a requeue, a delete, a creation *)

(** The validation tables after [reset_batch_for_processing] has put a
    batch back to [queued]: its items are gone. *)
Definition validation_requeued (batch_id : uuid) (d : Database) : Database :=
  mkDatabase (alter (ValidationBatch.with_status "queued") batch_id (validation_batches d))
    (filter (λ it, ValidationItem.batch_id it ≠ batch_id) (validation_items d))
    (recognition_batches d) (recognition_items d).

(** The validation tables after [remove_batch] has deleted a batch. *)
Definition validation_removed (batch_id : uuid) (d : Database) : Database :=
  mkDatabase (base.delete batch_id (validation_batches d))
    (filter (λ it, ValidationItem.batch_id it ≠ batch_id) (validation_items d))
    (recognition_batches d) (recognition_items d).

(** The tables after a batch has been created [queued]. *)
Definition validation_queued (new_batch : uuid) (created_at : nat)
    (addresses : list AddressInputSchema.t) (d : Database) : Database :=
  mkDatabase
    (<[new_batch := ValidationBatch.mk "queued" created_at
                      (Some (AddressInputSchema.model_dump <$> addresses))]>
       (validation_batches d))
    (validation_items d) (recognition_batches d) (recognition_items d).

Definition recognition_queued (new_batch : uuid) (created_at : nat)
    (requests : list RecognitionRequestSchema.t) (d : Database) : Database :=
  mkDatabase (validation_batches d) (validation_items d)
    (<[new_batch := RecognitionBatch.mk "queued" created_at
                      (Some (RecognitionRequestSchema.model_dump <$> requests))]>
       (recognition_batches d))
    (recognition_items d).

(** ** Valid instances of the schemas *)

(** The constraints of [AddressInputSchema]: what FastAPI has checked of a
    record before a route receives it. *)
Definition valid_address (a : AddressInputSchema.t) : Prop :=
  (1 ≤ Str.len (AddressInputSchema.address_line1 a))%nat ∧
  (1 ≤ Str.len (AddressInputSchema.city_locality a))%nat ∧
  (1 ≤ Str.len (AddressInputSchema.state_province a))%nat ∧
  Str.len (AddressInputSchema.country_code a) = 2%nat ∧
  AddressInputSchema.address_residential_indicator a ∈ ResidentialIndicatorType.

(** ** The residential indicator *)

(** The indicator the two transforms compute from a string. *)
Definition coerced (s : string) : string :=
  let c := Str.lower (Str.strip s) in
  if is_literal ResidentialIndicatorType c then c else "unknown".

(** A chain of binds in the exception monad raises what one of its steps
    raises: [tac] closes the goal from the step that raised. *)
Ltac bind_raises tac :=
  unfold mbind, result_bind, mret, result_ret;
  repeat match goal with
         | |- match ?r with Ok _ => _ | Raise _ => _ end = Raise _ → _ =>
             let H := fresh in
             destruct r eqn:H; [|intros [= <-]; tac H]
         end;
  try done.

(** ** Requests, one at a time *)

(** A request to one of the routes that [_setup_routes] registers, or a
    job of one of the two functions of [ARQWorkerConfig]. *)
Inductive request : Type :=
| ValidateAddresses (addresses : list AddressInputSchema.t) (async_mode : bool)
| GetValidationResults (batch_id : uuid)
| ListValidationBatches (limit offset : nat) (status_filter : option string)
| GetValidationBatch (batch_id : uuid)
| DeleteValidationBatch (batch_id : uuid)
| RequeueValidationBatch (batch_id : uuid)
| RecognizeAddresses (payload : list RecognitionRequestSchema.t) (async_mode : bool)
| GetRecognitionResults (recognition_id : uuid)
| ValidateAddressesBatch (batch_id : uuid)
| RecognizeAddressesBatch (batch_id : uuid).

(** The state after a request has been served, whatever it answered: an
    exception of a route is its answer, and the session is closed. *)
Definition serve (r : request) : State → State :=
  match r with
  | ValidateAddresses addresses async_mode =>
      after (AddressEndpoints.validate_addresses_endpoint addresses async_mode)
  | GetValidationResults batch_id =>
      after (AddressEndpoints.get_validation_results_endpoint batch_id)
  | ListValidationBatches limit offset status_filter =>
      after (AddressEndpoints.list_validation_batches_endpoint limit offset status_filter)
  | GetValidationBatch batch_id =>
      after (AddressEndpoints.get_validation_batch_endpoint batch_id)
  | DeleteValidationBatch batch_id =>
      after (AddressEndpoints.delete_validation_batch_endpoint batch_id)
  | RequeueValidationBatch batch_id =>
      after (AddressEndpoints.requeue_validation_batch_endpoint batch_id)
  | RecognizeAddresses payload async_mode =>
      after (AddressEndpoints.recognize_addresses_endpoint payload async_mode)
  | GetRecognitionResults recognition_id =>
      after (AddressEndpoints.get_recognition_results_endpoint recognition_id)
  | ValidateAddressesBatch batch_id => after (validate_addresses_batch batch_id)
  | RecognizeAddressesBatch batch_id => after (recognize_addresses_batch batch_id)
  end.

(** Requests served one after the other, none overlapping another. *)
Definition serve_all (requests : list request) (s : State) : State :=
  foldl (λ s r, serve r s) s requests.

(** The statuses a validation batch is committed with. *)
Definition stored_statuses : list string := ["queued"; "completed"; "failed"].

(** A committed validation batch: its status is one of the three, it is
    [failed] only with an empty payload, and it has one item per record
    of its payload when it is [completed] and no item otherwise. *)
Definition batch_consistent (d : Database) (batch_id : uuid) (b : ValidationBatch.t)
  : Prop :=
  ValidationBatch.status b ∈ stored_statuses ∧
  (ValidationBatch.status b = "failed" →
   ValidationService.payload_or_empty (ValidationBatch.request_payload b) = []) ∧
  length (validation_items_of d batch_id)
  = if decide (ValidationBatch.status b = "completed")
    then length (ValidationService.payload_or_empty (ValidationBatch.request_payload b))
    else 0%nat.

Definition consistent (d : Database) : Prop :=
  foreign_keys_hold d ∧
  (∀ batch_id b, validation_batches d !! batch_id = Some b →
     batch_consistent d batch_id b) ∧
  (∀ batch_id b, recognition_batches d !! batch_id = Some b →
     RecognitionBatch.status b ∈ BatchStatusType).

(** * Proofs *)

(** ** Unknown identifiers *)

Lemma process_batch_validation_unknown (s : State) (batch_id : uuid) :
  validation_batches (durable s) !! batch_id = None →
  validate_addresses_batch batch_id s =
    (Ok tt,
     mkState (durable s) (durable s) (seed s) (clock s) (queue s)
       (log s ++ [Begin; SelectForUpdate Validation batch_id; Commit])).
Proof.
  intros Hnone. unfold validate_addresses_batch, ValidationService.process_batch_validation.
  unfold_monad. rewrite Hnone. proj. by rewrite <- !app_assoc.
Qed.

Lemma process_recognition_batch_unknown (s : State) (batch_id : uuid) :
  recognition_batches (durable s) !! batch_id = None →
  recognize_addresses_batch batch_id s =
    (Ok tt,
     mkState (durable s) (durable s) (seed s) (clock s) (queue s)
       (log s ++ [Get Recognition batch_id])).
Proof.
  intros Hnone. unfold recognize_addresses_batch, RecognitionService.process_recognition_batch.
  unfold_monad. by rewrite Hnone.
Qed.

(** ** The idempotency guard *)

Lemma validation_status_lookup (s : State) (batch_id : uuid) (st : string) :
  validation_status s batch_id = Some st →
  ∃ b, validation_batches (durable s) !! batch_id = Some b ∧ ValidationBatch.status b = st.
Proof.
  unfold validation_status. destruct (validation_batches (durable s) !! batch_id) as [b|];
    [|discriminate].
  intros [= <-]. by exists b.
Qed.

Lemma recognition_status_lookup (s : State) (batch_id : uuid) (st : string) :
  recognition_status s batch_id = Some st →
  ∃ b, recognition_batches (durable s) !! batch_id = Some b ∧ RecognitionBatch.status b = st.
Proof.
  unfold recognition_status. destruct (recognition_batches (durable s) !! batch_id) as [b|];
    [|discriminate].
  intros [= <-]. by exists b.
Qed.

Lemma head_is_Some {A} (l : list A) : l ≠ [] → is_Some (head l).
Proof. destruct l; [done|]. intros _. by eexists. Qed.

Lemma process_batch_validation_guard (s : State) (batch_id : uuid) :
  validation_status s batch_id = Some "completed" →
  validation_items_of (durable s) batch_id ≠ [] →
  validate_addresses_batch batch_id s =
    (Ok tt,
     mkState (durable s) (durable s) (seed s) (clock s) (queue s)
       (log s ++ [Begin; SelectForUpdate Validation batch_id;
                  SelectItems Validation batch_id; Commit])).
Proof.
  intros (b & Hb & Hst)%validation_status_lookup Hitems%head_is_Some.
  unfold validate_addresses_batch, ValidationService.process_batch_validation.
  unfold_monad. rewrite Hb. proj. rewrite Hst. cbn [String.eqb andb].
  destruct Hitems as [it ->]. cbn [fmap option_fmap option_map].
  rewrite bool_decide_eq_true_2 by (by eexists).
  cbn [Ascii.eqb Bool.eqb String.eqb andb]. proj. by rewrite <- !app_assoc.
Qed.

Lemma process_recognition_batch_guard (s : State) (batch_id : uuid) (st : string) :
  recognition_status s batch_id = Some st →
  st = "processing" ∨ st = "completed" →
  recognize_addresses_batch batch_id s =
    (Ok tt,
     mkState (durable s) (durable s) (seed s) (clock s) (queue s)
       (log s ++ [Get Recognition batch_id])).
Proof.
  intros (b & Hb & Hst)%recognition_status_lookup Hor.
  unfold recognize_addresses_batch, RecognitionService.process_recognition_batch.
  unfold_monad. rewrite Hb. proj. rewrite Hst.
  by destruct Hor as [-> | ->].
Qed.

(** C1.  A batch that is [completed] and has at least one item is left as
    it is by the worker, for both kinds of batch: the job returns without
    an error, the committed database (the status of the batch, every item
    row) is the one before the call, and this is again so when the job is
    delivered a second time; the two calls only read. *)
Theorem completed_batch_with_items_is_noop (s : State) (batch_id : uuid) :
  (validation_status s batch_id = Some "completed" →
   validation_items_of (durable s) batch_id ≠ [] →
   ∃ s1 s2,
     validate_addresses_batch batch_id s = (Ok tt, s1) ∧
     validate_addresses_batch batch_id s1 = (Ok tt, s2) ∧
     durable s1 = durable s ∧ durable s2 = durable s ∧
     logged s s2 [Begin; SelectForUpdate Validation batch_id;
                  SelectItems Validation batch_id; Commit;
                  Begin; SelectForUpdate Validation batch_id;
                  SelectItems Validation batch_id; Commit]) ∧
  (recognition_status s batch_id = Some "completed" →
   recognition_items_of (durable s) batch_id ≠ [] →
   ∃ s1 s2,
     recognize_addresses_batch batch_id s = (Ok tt, s1) ∧
     recognize_addresses_batch batch_id s1 = (Ok tt, s2) ∧
     durable s1 = durable s ∧ durable s2 = durable s ∧
     logged s s2 [Get Recognition batch_id; Get Recognition batch_id]).
Proof.
  split; intros Hst Hitems.
  - pose proof (process_batch_validation_guard s batch_id Hst Hitems) as H1.
    eexists _, _. split; [exact H1|]. split.
    + by apply process_batch_validation_guard.
    + unfold logged. proj. repeat split. by rewrite <- app_assoc.
  - pose proof (process_recognition_batch_guard s batch_id _ Hst (or_intror eq_refl)) as H1.
    eexists _, _. split; [exact H1|]. split.
    + by apply (process_recognition_batch_guard _ _ "completed"); [|right].
    + unfold logged. proj. repeat split. by rewrite <- app_assoc.
Qed.

Lemma completed_batch_with_items_is_noop_witness :
  (∃ s1 s2,
     validate_addresses_batch 1 sample = (Ok tt, s1) ∧
     validate_addresses_batch 1 s1 = (Ok tt, s2) ∧
     durable s1 = durable sample ∧ durable s2 = durable sample ∧
     logged sample s2 [Begin; SelectForUpdate Validation 1; SelectItems Validation 1; Commit;
                       Begin; SelectForUpdate Validation 1; SelectItems Validation 1; Commit]) ∧
  (∃ s1 s2,
     recognize_addresses_batch 4 sample = (Ok tt, s1) ∧
     recognize_addresses_batch 4 s1 = (Ok tt, s2) ∧
     durable s1 = durable sample ∧ durable s2 = durable sample ∧
     logged sample s2 [Get Recognition 4; Get Recognition 4]).
Proof.
  split.
  - apply (proj1 (completed_batch_with_items_is_noop sample 1)).
    + vm_compute. reflexivity.
    + vm_compute. discriminate.
  - apply (proj2 (completed_batch_with_items_is_noop sample 4)).
    + vm_compute. reflexivity.
    + vm_compute. discriminate.
Defined.

(** C10.  For an identifier that no stored batch has, the worker returns
    without raising, for both kinds of batch, and the committed database,
    the job queue and the identifier supply are the ones before the call. *)
Theorem unknown_batch_is_silent (s : State) (batch_id : uuid) :
  (validation_batches (durable s) !! batch_id = None →
   ∃ s', validate_addresses_batch batch_id s = (Ok tt, s') ∧
         durable s' = durable s ∧ queue s' = queue s ∧ seed s' = seed s ∧
         logged s s' [Begin; SelectForUpdate Validation batch_id; Commit]) ∧
  (recognition_batches (durable s) !! batch_id = None →
   ∃ s', recognize_addresses_batch batch_id s = (Ok tt, s') ∧
         durable s' = durable s ∧ queue s' = queue s ∧ seed s' = seed s ∧
         logged s s' [Get Recognition batch_id]).
Proof.
  split; intros Hnone; eexists.
  - split; [by apply process_batch_validation_unknown | done].
  - split; [by apply process_recognition_batch_unknown | done].
Qed.

Lemma unknown_batch_is_silent_witness :
  (∃ s', validate_addresses_batch 2 sample = (Ok tt, s') ∧
         durable s' = durable sample ∧ queue s' = queue sample ∧ seed s' = seed sample ∧
         logged sample s' [Begin; SelectForUpdate Validation 2; Commit]) ∧
  (∃ s', recognize_addresses_batch 2 sample = (Ok tt, s') ∧
         durable s' = durable sample ∧ queue s' = queue sample ∧ seed s' = seed sample ∧
         logged sample s' [Get Recognition 2]).
Proof.
  split.
  - apply (proj1 (unknown_batch_is_silent sample 2)). vm_compute. reflexivity.
  - apply (proj2 (unknown_batch_is_silent sample 2)). vm_compute. reflexivity.
Defined.

(** ** The empty payload *)

Lemma validation_payload_lookup (s : State) (batch_id : uuid) (p : list dict) :
  validation_payload s batch_id = Some p →
  ∃ b, validation_batches (durable s) !! batch_id = Some b ∧
       ValidationService.payload_or_empty (ValidationBatch.request_payload b) = p.
Proof.
  unfold validation_payload.
  destruct (validation_batches (durable s) !! batch_id) as [b|]; [|discriminate].
  intros [= <-]. by exists b.
Qed.

Lemma recognition_payload_lookup (s : State) (batch_id : uuid)
    (p : list RecognitionRequestSchema.payload) :
  recognition_payload s batch_id = Some p →
  ∃ b, recognition_batches (durable s) !! batch_id = Some b ∧
       ValidationService.payload_or_empty (RecognitionBatch.request_payload b) = p.
Proof.
  unfold recognition_payload.
  destruct (recognition_batches (durable s) !! batch_id) as [b|]; [|discriminate].
  intros [= <-]. by exists b.
Qed.

Lemma validation_marked_status (st : string) (batch_id : uuid) (d : Database) :
  is_Some (validation_batches d !! batch_id) →
  ValidationBatch.status <$> validation_batches (validation_marked st batch_id d) !! batch_id
  = Some st.
Proof.
  intros [b Hb]. unfold validation_marked. proj.
  by rewrite lookup_alter_eq, Hb.
Qed.

Lemma recognition_marked_status (st : string) (batch_id : uuid) (d : Database) :
  is_Some (recognition_batches d !! batch_id) →
  RecognitionBatch.status <$> recognition_batches (recognition_marked st batch_id d) !! batch_id
  = Some st.
Proof.
  intros [b Hb]. unfold recognition_marked. proj.
  by rewrite lookup_alter_eq, Hb.
Qed.

Lemma validation_guard_false (s : State) (batch_id : uuid) (b : ValidationBatch.t) :
  validation_batches (durable s) !! batch_id = Some b →
  passes_validation_guard s batch_id →
  String.eqb (ValidationBatch.status b) "completed"
  && bool_decide (is_Some (ValidationItem.id <$> head (validation_items_of (durable s) batch_id)))
  = false.
Proof.
  intros Hb [Hst | Hitems].
  - destruct (String.eqb_spec (ValidationBatch.status b) "completed") as [Heq|]; [|done].
    exfalso. apply Hst. unfold validation_status. by rewrite Hb, <- Heq.
  - rewrite Hitems. cbn. by rewrite andb_false_r.
Qed.

Lemma recognition_guard_false (s : State) (batch_id : uuid) (b : RecognitionBatch.t) :
  recognition_batches (durable s) !! batch_id = Some b →
  passes_recognition_guard s batch_id →
  is_literal ["processing"; "completed"] (RecognitionBatch.status b) = false.
Proof.
  intros Hb (Hp & Hc). unfold recognition_status in *. rewrite Hb in *.
  apply bool_decide_eq_false_2. rewrite !elem_of_cons, elem_of_nil.
  intros [Heq | [Heq | []]]; [apply Hp | apply Hc]; cbn; by f_equal.
Qed.

Lemma process_batch_validation_empty (s : State) (batch_id : uuid) :
  validation_payload s batch_id = Some [] →
  passes_validation_guard s batch_id →
  validate_addresses_batch batch_id s =
    (Ok tt,
     mkState (validation_marked "failed" batch_id (durable s))
       (validation_marked "failed" batch_id (durable s))
       (seed s) (clock s) (queue s)
       (log s ++ [Begin; SelectForUpdate Validation batch_id;
                  SelectItems Validation batch_id;
                  SetStatus Validation batch_id "failed"; Commit])).
Proof.
  intros (b & Hb & Hp)%validation_payload_lookup Hguard.
  unfold validate_addresses_batch, ValidationService.process_batch_validation.
  unfold_monad. rewrite Hb. proj. rewrite (validation_guard_false s batch_id b Hb Hguard).
  rewrite Hp. cbn [ValidationService.is_empty]. proj.
  by rewrite <- !app_assoc.
Qed.

Lemma process_recognition_batch_empty (s : State) (batch_id : uuid) :
  recognition_payload s batch_id = Some [] →
  passes_recognition_guard s batch_id →
  recognize_addresses_batch batch_id s =
    (Ok tt,
     mkState (recognition_marked "failed" batch_id (durable s))
       (recognition_marked "failed" batch_id (durable s))
       (seed s) (clock s) (queue s)
       (log s ++ [Get Recognition batch_id;
                  SetStatus Recognition batch_id "failed"; Commit])).
Proof.
  intros (b & Hb & Hp)%recognition_payload_lookup Hguard.
  unfold recognize_addresses_batch, RecognitionService.process_recognition_batch.
  unfold_monad. rewrite Hb. proj. rewrite (recognition_guard_false s batch_id b Hb Hguard).
  rewrite Hp. cbn [ValidationService.is_empty]. proj.
  by rewrite <- !app_assoc.
Qed.

(** C6.  When the stored payload of a batch is empty and the call passes
    the idempotency guard, the worker sets the batch to [failed] and stops:
    the status [processing] is never written, no item row is written or
    removed, and the transaction is committed.  This holds for both kinds
    of batch. *)
Theorem empty_payload_fails_batch (s : State) (batch_id : uuid) :
  (validation_payload s batch_id = Some [] →
   passes_validation_guard s batch_id →
   ∃ s', validate_addresses_batch batch_id s = (Ok tt, s') ∧
         validation_status s' batch_id = Some "failed" ∧
         validation_items (durable s') = validation_items (durable s) ∧
         logged s s' [Begin; SelectForUpdate Validation batch_id;
                      SelectItems Validation batch_id;
                      SetStatus Validation batch_id "failed"; Commit]) ∧
  (recognition_payload s batch_id = Some [] →
   passes_recognition_guard s batch_id →
   ∃ s', recognize_addresses_batch batch_id s = (Ok tt, s') ∧
         recognition_status s' batch_id = Some "failed" ∧
         recognition_items (durable s') = recognition_items (durable s) ∧
         logged s s' [Get Recognition batch_id;
                      SetStatus Recognition batch_id "failed"; Commit]).
Proof.
  split; intros Hp Hguard; eexists.
  - split; [by apply process_batch_validation_empty|].
    split; [|done]. unfold validation_status. proj.
    apply validation_marked_status.
    apply validation_payload_lookup in Hp as (b & -> & _). by eexists.
  - split; [by apply process_recognition_batch_empty|].
    split; [|done]. unfold recognition_status. proj.
    apply recognition_marked_status.
    apply recognition_payload_lookup in Hp as (b & -> & _). by eexists.
Qed.

Lemma empty_payload_fails_batch_witness :
  (∃ s', validate_addresses_batch 9 sample = (Ok tt, s') ∧
         validation_status s' 9 = Some "failed" ∧
         validation_items (durable s') = validation_items (durable sample) ∧
         logged sample s' [Begin; SelectForUpdate Validation 9; SelectItems Validation 9;
                           SetStatus Validation 9 "failed"; Commit]) ∧
  (∃ s', recognize_addresses_batch 10 sample = (Ok tt, s') ∧
         recognition_status s' 10 = Some "failed" ∧
         recognition_items (durable s') = recognition_items (durable sample) ∧
         logged sample s' [Get Recognition 10; SetStatus Recognition 10 "failed"; Commit]).
Proof.
  split.
  - apply (proj1 (empty_payload_fails_batch sample 9)).
    + vm_compute. reflexivity.
    + left. vm_compute. discriminate.
  - apply (proj2 (empty_payload_fails_batch sample 10)).
    + vm_compute. reflexivity.
    + split; vm_compute; discriminate.
Defined.

(** ** Requeue *)

Lemma reset_while_processing (s : State) (batch_id : uuid) :
  validation_status s batch_id = Some "processing" →
  ValidationService.reset_batch_for_processing batch_id (open_state s) =
    (Raise (RuntimeError "processing"),
     mkState (durable s) (durable s) (seed s) (clock s) (queue s)
       (log s ++ [Begin; SelectForUpdate Validation batch_id; Rollback])).
Proof.
  intros (b & Hb & Hst)%validation_status_lookup.
  unfold ValidationService.reset_batch_for_processing.
  unfold_monad. rewrite Hb. proj. rewrite Hst. cbn [String.eqb Ascii.eqb Bool.eqb].
  proj. by rewrite <- !app_assoc.
Qed.

(** C4.  A requeue of a batch that is [processing] is refused: the service
    raises [RuntimeError], the route answers 409, the transaction is rolled
    back so that the committed database (status and items) is the one
    before the call, and no job is handed to the broker. *)
Theorem requeue_while_processing_conflicts (s : State) (batch_id : uuid) :
  validation_status s batch_id = Some "processing" →
  ∃ s1 s2,
    ValidationService.reset_batch_for_processing batch_id (open_state s)
      = (Raise (RuntimeError "processing"), s1) ∧
    durable s1 = durable s ∧
    AddressEndpoints.requeue_validation_batch_endpoint batch_id s
      = (Raise (HTTPException 409 "batch is processing"), s2) ∧
    durable s2 = durable s ∧ queue s2 = queue s ∧
    logged s s2 [Begin; SelectForUpdate Validation batch_id; Rollback].
Proof.
  intros Hst. pose proof (reset_while_processing s batch_id Hst) as Hreset.
  eexists _, _. split; [exact Hreset|]. split; [done|].
  unfold AddressEndpoints.requeue_validation_batch_endpoint, SessionLocal.
  rewrite Hreset. done.
Qed.

Lemma requeue_while_processing_conflicts_witness :
  ∃ s1 s2,
    ValidationService.reset_batch_for_processing 3 (open_state sample_in_flight)
      = (Raise (RuntimeError "processing"), s1) ∧
    durable s1 = durable sample_in_flight ∧
    AddressEndpoints.requeue_validation_batch_endpoint 3 sample_in_flight
      = (Raise (HTTPException 409 "batch is processing"), s2) ∧
    durable s2 = durable sample_in_flight ∧ queue s2 = queue sample_in_flight ∧
    logged sample_in_flight s2 [Begin; SelectForUpdate Validation 3; Rollback].
Proof.
  apply (requeue_while_processing_conflicts sample_in_flight 3).
  vm_compute. reflexivity.
Defined.

Lemma reset_with_empty_payload (s : State) (batch_id : uuid) :
  validation_payload s batch_id = Some [] →
  validation_status s batch_id ≠ Some "processing" →
  ValidationService.reset_batch_for_processing batch_id (open_state s) =
    (Ok false,
     mkState (validation_marked "failed" batch_id (durable s))
       (validation_marked "failed" batch_id (durable s))
       (seed s) (clock s) (queue s)
       (log s ++ [Begin; SelectForUpdate Validation batch_id;
                  SetStatus Validation batch_id "failed"; Commit])).
Proof.
  intros (b & Hb & Hp)%validation_payload_lookup Hst.
  unfold ValidationService.reset_batch_for_processing.
  unfold_monad. rewrite Hb. proj.
  destruct (String.eqb_spec (ValidationBatch.status b) "processing") as [Heq|_].
  { exfalso. apply Hst. unfold validation_status. by rewrite Hb, <- Heq. }
  rewrite Hp. cbn [ValidationService.is_empty]. proj.
  by rewrite <- !app_assoc.
Qed.

(** C5.  A requeue of a batch whose stored payload is empty, and which is
    not [processing], commits the status [failed] and returns [False]; the
    route answers 404 and hands no job to the broker.  The status [queued]
    is never written and the items are left as they are. *)
Theorem requeue_empty_payload_fails (s : State) (batch_id : uuid) :
  validation_payload s batch_id = Some [] →
  validation_status s batch_id ≠ Some "processing" →
  ∃ s1 s2,
    ValidationService.reset_batch_for_processing batch_id (open_state s)
      = (Ok false, s1) ∧
    validation_status s1 batch_id = Some "failed" ∧
    AddressEndpoints.requeue_validation_batch_endpoint batch_id s
      = (Raise (HTTPException 404 "batch_id not found"), s2) ∧
    validation_status s2 batch_id = Some "failed" ∧
    validation_items (durable s2) = validation_items (durable s) ∧
    queue s2 = queue s ∧
    logged s s2 [Begin; SelectForUpdate Validation batch_id;
                 SetStatus Validation batch_id "failed"; Commit].
Proof.
  intros Hp Hst. pose proof (reset_with_empty_payload s batch_id Hp Hst) as Hreset.
  assert (validation_status
            (mkState (validation_marked "failed" batch_id (durable s))
               (validation_marked "failed" batch_id (durable s))
               (seed s) (clock s) (queue s)
               (log s ++ [Begin; SelectForUpdate Validation batch_id;
                          SetStatus Validation batch_id "failed"; Commit])) batch_id
          = Some "failed") as Hfailed.
  { unfold validation_status. proj. apply validation_marked_status.
    apply validation_payload_lookup in Hp as (b & -> & _). by eexists. }
  eexists _, _. split; [exact Hreset|]. split; [exact Hfailed|].
  unfold AddressEndpoints.requeue_validation_batch_endpoint, SessionLocal.
  rewrite Hreset. cbn [close_state]. proj. split; [reflexivity|].
  split; [exact Hfailed|]. done.
Qed.

Lemma requeue_empty_payload_fails_witness :
  ∃ s1 s2,
    ValidationService.reset_batch_for_processing 7 (open_state sample)
      = (Ok false, s1) ∧
    validation_status s1 7 = Some "failed" ∧
    AddressEndpoints.requeue_validation_batch_endpoint 7 sample
      = (Raise (HTTPException 404 "batch_id not found"), s2) ∧
    validation_status s2 7 = Some "failed" ∧
    validation_items (durable s2) = validation_items (durable sample) ∧
    queue s2 = queue sample ∧
    logged sample s2 [Begin; SelectForUpdate Validation 7;
                      SetStatus Validation 7 "failed"; Commit].
Proof.
  apply (requeue_empty_payload_fails sample 7).
  - vm_compute. reflexivity.
  - vm_compute. discriminate.
Defined.

(** ** The processing pass *)

(** A loop whose body neither raises nor returns anything is the fold of
    its effect on the session. *)
Lemma for_each_fold {A} (body : A → M unit) (step : A → State → State) (l : list A) :
  (∀ a s, body a s = (Ok tt, step a s)) →
  ∀ s, for_each l body s = (Ok (replicate (length l) tt), foldl (λ s a, step a s) s l).
Proof.
  intros Hbody. induction l as [|a l IH]; intros s; [done|].
  cbn [for_each foldl length replicate]. unfold mbind, M_bind at 1.
  rewrite Hbody. unfold mbind, M_bind at 1. by rewrite IH.
Qed.

Lemma validation_items_added_eq (batch_id : uuid) (l : list AddressInputSchema.t) (s : State) :
  foldl (λ s a, validation_item_added batch_id a s) s l =
    mkState (durable s)
      (mkDatabase (validation_batches (db s))
         (validation_items (db s) ++ validation_rows (seed s) batch_id (clock s) l)
         (recognition_batches (db s)) (recognition_items (db s)))
      (advance (length l) (seed s)) (clock s) (queue s)
      (log s ++ replicate (length l) (AddItem Validation batch_id)).
Proof.
  revert s. induction l as [|a l IH]; intros s.
  - cbn. rewrite !app_nil_r. by destruct s as [? []].
  - cbn [foldl]. rewrite IH. unfold validation_item_added. proj.
    cbn [length advance validation_rows replicate].
    by rewrite <- !app_assoc.
Qed.

Lemma validation_loop_body (batch_id : uuid) (a : AddressInputSchema.t) (s : State) :
  (let original_data := AddressInputSchema.model_dump a in
   let normalized_data := ValidationService._normalize_address_data original_data in
   let '(validation_status, validation_messages) :=
     ValidationService._determine_validation_status a in
   ValidationTable.add_item batch_id validation_status original_data normalized_data
     validation_messages) s
  = (Ok tt, validation_item_added batch_id a s).
Proof. reflexivity. Qed.

Lemma is_empty_false {A} (l : list A) : l ≠ [] → ValidationService.is_empty l = false.
Proof. by destruct l. Qed.

Lemma process_batch_validation_pass (s : State) (batch_id : uuid)
    (p : list dict) (addresses : list AddressInputSchema.t) :
  validation_payload s batch_id = Some p →
  p ≠ [] →
  passes_validation_guard s batch_id →
  traverse AddressInputSchema.model_validate p = Ok addresses →
  validate_addresses_batch batch_id s =
    (Ok tt,
     mkState (validation_processed batch_id (seed s) (clock s) addresses (durable s))
       (validation_processed batch_id (seed s) (clock s) addresses (durable s))
       (advance (length addresses) (seed s)) (clock s) (queue s)
       (log s ++ [Begin; SelectForUpdate Validation batch_id;
                  SelectItems Validation batch_id;
                  SetStatus Validation batch_id "processing";
                  DeleteItems Validation batch_id]
              ++ replicate (length addresses) (AddItem Validation batch_id)
              ++ [SetStatus Validation batch_id "completed"; Commit])).
Proof.
  intros (b & Hb & Hp)%validation_payload_lookup Hne Hguard Hvalid.
  unfold validate_addresses_batch, ValidationService.process_batch_validation.
  unfold_monad. rewrite Hb. proj. rewrite (validation_guard_false s batch_id b Hb Hguard).
  rewrite Hp, (is_empty_false p Hne). proj. rewrite Hvalid.
  rewrite (for_each_fold _ (validation_item_added batch_id))
    by apply validation_loop_body.
  rewrite validation_items_added_eq. proj.
  unfold validation_processed. by rewrite <- !app_assoc.
Qed.

Lemma process_batch_validation_invalid (s : State) (batch_id : uuid)
    (p : list dict) (e : exn) :
  validation_payload s batch_id = Some p →
  p ≠ [] →
  passes_validation_guard s batch_id →
  traverse AddressInputSchema.model_validate p = Raise e →
  validate_addresses_batch batch_id s =
    (Raise e,
     mkState (durable s) (durable s) (seed s) (clock s) (queue s)
       (log s ++ [Begin; SelectForUpdate Validation batch_id;
                  SelectItems Validation batch_id;
                  SetStatus Validation batch_id "processing";
                  DeleteItems Validation batch_id; Rollback])).
Proof.
  intros (b & Hb & Hp)%validation_payload_lookup Hne Hguard Hvalid.
  unfold validate_addresses_batch, ValidationService.process_batch_validation.
  unfold_monad. rewrite Hb. proj. rewrite (validation_guard_false s batch_id b Hb Hguard).
  rewrite Hp, (is_empty_false p Hne). proj. rewrite Hvalid. proj.
  by rewrite <- !app_assoc.
Qed.

(** ** Terminal states *)

Lemma validation_processed_status (batch_id seed : uuid) (created_at : nat)
    (addresses : list AddressInputSchema.t) (d : Database) :
  is_Some (validation_batches d !! batch_id) →
  ValidationBatch.status <$>
    validation_batches (validation_processed batch_id seed created_at addresses d) !! batch_id
  = Some "completed".
Proof.
  intros [b Hb]. unfold validation_processed. proj.
  by rewrite !lookup_alter_eq, Hb.
Qed.

(** The validation worker keeps a [completed] batch [completed] as soon as
    the batch has an item or a record to process. *)
Lemma process_batch_validation_keeps_completed (s : State) (batch_id : uuid) :
  validation_status s batch_id = Some "completed" →
  validation_items_of (durable s) batch_id ≠ [] ∨ validation_payload s batch_id ≠ Some [] →
  validation_status (after (validate_addresses_batch batch_id) s) batch_id = Some "completed".
Proof.
  intros Hst Hor. unfold after.
  destruct (decide (validation_items_of (durable s) batch_id = [])) as [Hnil|Hitems].
  - destruct Hor as [|Hp]; [done|].
    destruct (validation_status_lookup _ _ _ Hst) as (b & Hb & Hb').
    assert (validation_payload s batch_id
            = Some (ValidationService.payload_or_empty (ValidationBatch.request_payload b))) as Hpay.
    { unfold validation_payload. by rewrite Hb. }
    rewrite Hpay in Hp.
    assert (ValidationService.payload_or_empty (ValidationBatch.request_payload b) ≠ []) as Hne
      by congruence.
    assert (passes_validation_guard s batch_id) as Hguard by (by right).
    destruct (traverse AddressInputSchema.model_validate
                (ValidationService.payload_or_empty (ValidationBatch.request_payload b)))
      as [addresses|e] eqn:Hvalid.
    + rewrite (process_batch_validation_pass s batch_id _ addresses Hpay Hne Hguard Hvalid).
      unfold validation_status. cbn [snd]. proj.
      apply validation_processed_status. by eexists.
    + by rewrite (process_batch_validation_invalid s batch_id _ e Hpay Hne Hguard Hvalid).
  - by rewrite (process_batch_validation_guard s batch_id Hst Hitems).
Qed.

(** A loop keeps whatever each run of its body keeps, also when a body
    raises and ends the loop. *)
Lemma for_each_preserves {A B} (P : State → Prop) (body : A → M B) (l : list A) :
  (∀ a s, P s → P (body a s).2) →
  ∀ s, P s → P (for_each l body s).2.
Proof.
  intros Hbody. induction l as [|a l IH]; intros s Hs; [done|].
  cbn [for_each]. unfold mbind, M_bind at 1.
  specialize (Hbody a s Hs). destruct (body a s) as [[y|e] s1]; [|done].
  unfold mbind, M_bind at 1. specialize (IH s1 Hbody).
  by destruct (for_each l body s1) as [[ys|e] s2].
Qed.

Lemma validation_add_item_run (batch_id : uuid) (status : string)
    (original_address matched_address : dict) (messages : list ValidationMessageSchema.t)
    (s : State) :
  ValidationTable.add_item batch_id status original_address matched_address messages s =
    (Ok tt,
     mkState (durable s)
       (mkDatabase (validation_batches (db s))
          (validation_items (db s) ++
             [ValidationItem.mk (seed s) batch_id status original_address
                matched_address messages (clock s)])
          (recognition_batches (db s)) (recognition_items (db s)))
       (Pos.succ (seed s)) (clock s) (queue s)
       (log s ++ [AddItem Validation batch_id])).
Proof. reflexivity. Qed.

Lemma validation_store_loop_keeps_batches (new_batch : uuid)
    (addresses : list AddressInputSchema.t) (s : State) :
  batch_rows
    (for_each addresses (λ address_input,
       let original_data := AddressInputSchema.model_dump address_input in
       let normalized_data := ValidationService._normalize_address_data original_data in
       let '(validation_status, validation_messages) :=
         ValidationService._determine_validation_status address_input in
       ValidationTable.add_item new_batch validation_status original_data
         normalized_data validation_messages;;
       let original_output := ValidationService.original_output_of original_data in
       original_address ← lift (AddressOutputSchema.model_validate original_output);
       matched_address ← lift (AddressOutputSchema.model_validate normalized_data);
       lift (ValidationResultSchema.new validation_status original_address
               matched_address validation_messages)) s).2
  = batch_rows s.
Proof.
  apply (for_each_preserves (λ s', batch_rows s' = batch_rows s)); [|done].
  intros a s' <-. cbn zeta. unfold ValidationService._determine_validation_status.
  unfold mbind, M_bind, lift. rewrite validation_add_item_run.
  repeat (match goal with
          | |- context [match ?r with Ok _ => _ | Raise _ => _ end] => destruct r
          end; try done).
Qed.

Lemma validation_add_run (status : string) (request_payload : option (list dict)) (s : State) :
  ValidationTable.add status request_payload s =
    if bool_decide (is_Some (validation_batches (db s) !! seed s)) then
      (Raise IntegrityError,
       mkState (durable s) (db s) (Pos.succ (seed s)) (clock s) (queue s)
         (log s ++ [AddBatch Validation (seed s)]))
    else
      (Ok (seed s),
       mkState (durable s)
         (mkDatabase
            (<[seed s := ValidationBatch.mk status (clock s) request_payload]>
               (validation_batches (db s)))
            (validation_items (db s)) (recognition_batches (db s)) (recognition_items (db s)))
         (Pos.succ (seed s)) (clock s) (queue s)
         (log s ++ [AddBatch Validation (seed s)])).
Proof.
  unfold ValidationTable.add. unfold_monad.
  by destruct (bool_decide (is_Some (validation_batches (db s) !! seed s))).
Qed.

Lemma recognition_add_run (status : string)
    (request_payload : option (list RecognitionRequestSchema.payload)) (s : State) :
  RecognitionTable.add status request_payload s =
    if bool_decide (is_Some (recognition_batches (db s) !! seed s)) then
      (Raise IntegrityError,
       mkState (durable s) (db s) (Pos.succ (seed s)) (clock s) (queue s)
         (log s ++ [AddBatch Recognition (seed s)]))
    else
      (Ok (seed s),
       mkState (durable s)
         (mkDatabase (validation_batches (db s)) (validation_items (db s))
            (<[seed s := RecognitionBatch.mk status (clock s) request_payload]>
               (recognition_batches (db s)))
            (recognition_items (db s)))
         (Pos.succ (seed s)) (clock s) (queue s)
         (log s ++ [AddBatch Recognition (seed s)])).
Proof.
  unfold RecognitionTable.add. unfold_monad.
  by destruct (bool_decide (is_Some (recognition_batches (db s) !! seed s))).
Qed.

(** A request that creates a validation batch leaves the status of every
    batch that exists as it is. *)
Lemma validate_addresses_endpoint_keeps_status (addresses : list AddressInputSchema.t)
    (async_mode : bool) (s : State) (batch_id : uuid) :
  let s' := after (AddressEndpoints.validate_addresses_endpoint addresses async_mode) s in
  (is_Some (validation_batches (durable s) !! batch_id) →
   validation_status s' batch_id = validation_status s batch_id) ∧
  recognition_status s' batch_id = recognition_status s batch_id.
Proof.
  cbn zeta. unfold after, AddressEndpoints.validate_addresses_endpoint.
  destruct async_mode.
  - unfold ValidationService.create_queued_batch. unfold_monad.
    rewrite validation_add_run. proj.
    case_bool_decide as Htaken; proj; [done|].
    unfold validation_status, recognition_status. proj.
    split; [|done]. intros Hsome.
    rewrite lookup_insert_ne; [done|]. by intros <-.
  - unfold ValidationService.validate_and_store_addresses. unfold_monad.
    rewrite validation_add_run. proj.
    case_bool_decide as Htaken; proj; [done|].
    match goal with
    | |- context [for_each addresses ?body ?s0] =>
        assert (batch_rows (for_each addresses body s0).2 = batch_rows s0) as Hloop
          by apply validation_store_loop_keeps_batches;
        destruct (for_each addresses body s0) as [[results|e] s1]
    end; unfold batch_rows in Hloop; cbn [fst snd durable db] in Hloop;
      injection Hloop as Hdv Hdr Hv Hr; proj;
      unfold validation_status, recognition_status; proj.
    + rewrite Hv, Hr. cbn [validation_batches recognition_batches].
      split; [|done]. intros Hsome.
      rewrite lookup_insert_ne; [done|]. by intros <-.
    + by rewrite Hdv, Hdr.
Qed.

Lemma recognition_add_item_run (batch_id : uuid) (status : string)
    (original_address recognized_address : dict) (s : State) :
  RecognitionTable.add_item batch_id status original_address recognized_address s =
    (Ok tt,
     mkState (durable s)
       (mkDatabase (validation_batches (db s)) (validation_items (db s))
          (recognition_batches (db s))
          (recognition_items (db s) ++
             [RecognitionItem.mk (seed s) batch_id status original_address
                recognized_address (clock s)]))
       (Pos.succ (seed s)) (clock s) (queue s)
       (log s ++ [AddItem Recognition batch_id])).
Proof. reflexivity. Qed.

Lemma recognition_store_loop_keeps_batches (new_batch : uuid)
    (requests : list RecognitionRequestSchema.t) (s : State) :
  batch_rows
    (for_each requests (λ recognition_request,
       let original_data := RecognitionService.original_data_of recognition_request in
       let recognized_data := RecognitionService._process_address_recognition original_data in
       RecognitionTable.add_item new_batch "completed" original_data recognized_data;;
       original_address ← lift (PartialAddressSchema.model_validate original_data);
       recognized_address ← lift (PartialAddressSchema.model_validate recognized_data);
       mret (RecognitionResultSchema.new original_address recognized_address)) s).2
  = batch_rows s.
Proof.
  apply (for_each_preserves (λ s', batch_rows s' = batch_rows s)); [|done].
  intros a s' <-. cbn zeta.
  unfold mbind, M_bind, lift. rewrite recognition_add_item_run.
  repeat (match goal with
          | |- context [match ?r with Ok _ => _ | Raise _ => _ end] => destruct r
          end; try done).
Qed.

(** A request that creates a recognition batch leaves the status of every
    batch that exists as it is. *)
Lemma recognize_addresses_endpoint_keeps_status (payload : list RecognitionRequestSchema.t)
    (async_mode : bool) (s : State) (batch_id : uuid) :
  let s' := after (AddressEndpoints.recognize_addresses_endpoint payload async_mode) s in
  (is_Some (recognition_batches (durable s) !! batch_id) →
   recognition_status s' batch_id = recognition_status s batch_id) ∧
  validation_status s' batch_id = validation_status s batch_id.
Proof.
  cbn zeta. unfold after, AddressEndpoints.recognize_addresses_endpoint.
  destruct async_mode.
  - unfold RecognitionService.create_queued_recognition_batch. unfold_monad.
    rewrite recognition_add_run. proj.
    case_bool_decide as Htaken; proj; [done|].
    unfold validation_status, recognition_status. proj.
    split; [|done]. intros Hsome.
    rewrite lookup_insert_ne; [done|]. by intros <-.
  - unfold RecognitionService.recognize_and_store_addresses. unfold_monad.
    rewrite recognition_add_run. proj.
    case_bool_decide as Htaken; proj; [done|].
    match goal with
    | |- context [for_each payload ?body ?s0] =>
        assert (batch_rows (for_each payload body s0).2 = batch_rows s0) as Hloop
          by apply recognition_store_loop_keeps_batches;
        destruct (for_each payload body s0) as [[results|e] s1]
    end; unfold batch_rows in Hloop; cbn [fst snd durable db] in Hloop;
      injection Hloop as Hdv Hdr Hv Hr; proj;
      unfold validation_status, recognition_status; proj.
    + rewrite Hv, Hr. cbn [validation_batches recognition_batches].
      split; [|done]. intros Hsome.
      rewrite lookup_insert_ne; [done|]. by intros <-.
    + by rewrite Hdv, Hdr.
Qed.

(** The read queries commit nothing. *)
Lemma readers_keep_database (s : State) (batch_id : uuid) :
  durable (after (AddressEndpoints.get_validation_results_endpoint batch_id) s) = durable s ∧
  durable (after (AddressEndpoints.get_validation_batch_endpoint batch_id) s) = durable s ∧
  durable (after (AddressEndpoints.get_recognition_results_endpoint batch_id) s) = durable s.
Proof.
  unfold after. split; [|split].
  - unfold AddressEndpoints.get_validation_results_endpoint,
      ValidationService.retrieve_batch_results.
    unfold_monad.
    destruct (traverse _ _) as [[|r results]|e]; done.
  - unfold AddressEndpoints.get_validation_batch_endpoint, ValidationService.get_batch_info.
    unfold_monad.
    destruct (validation_batches (durable s) !! batch_id) as [b|]; [|done].
    cbn [fmap option_fmap option_map].
    by destruct (BatchInfoSchema.new _ _ _ _ _).
  - unfold AddressEndpoints.get_recognition_results_endpoint.
    unfold_monad.
    destruct (RecognitionService.result_rows (durable s) batch_id); [done|].
    cbn [ValidationService.is_empty].
    by destruct (traverse _ _).
Qed.

(** C3, as stated, fails: validation batch 7 of the sample store was
    written [completed] by the synchronous route for a request with no
    record; it has no item and an empty payload, and the validation worker
    sets it to [failed]. *)
Lemma completed_is_not_terminal_counterexample :
  validation_status sample 7 = Some "completed" ∧
  validation_items_of (durable sample) 7 = [] ∧
  validation_payload sample 7 = Some [] ∧
  validation_status (after (validate_addresses_batch 7) sample) 7 = Some "failed".
Proof. vm_compute. repeat split. Qed.

(** C3, amended.  Under the worker a [completed] batch keeps its status
    whenever the guard or the payload allows it: the validation worker
    leaves a [completed] batch [completed] when the batch has an item or a
    non-empty payload, the recognition worker leaves the database as it is
    for every [completed] batch, and a [failed] batch whose payload is
    empty stays [failed] under both workers.  The routes that create
    batches and the read queries change the status of no existing batch. *)
Theorem terminal_states_under_worker (s : State) (batch_id : uuid) :
  (validation_status s batch_id = Some "completed" →
   validation_items_of (durable s) batch_id ≠ [] ∨ validation_payload s batch_id ≠ Some [] →
   validation_status (after (validate_addresses_batch batch_id) s) batch_id
   = Some "completed") ∧
  (recognition_status s batch_id = Some "completed" →
   durable (after (recognize_addresses_batch batch_id) s) = durable s) ∧
  (validation_status s batch_id = Some "failed" →
   validation_payload s batch_id = Some [] →
   validation_status (after (validate_addresses_batch batch_id) s) batch_id
   = Some "failed") ∧
  (recognition_status s batch_id = Some "failed" →
   recognition_payload s batch_id = Some [] →
   recognition_status (after (recognize_addresses_batch batch_id) s) batch_id
   = Some "failed") ∧
  (∀ addresses async_mode,
     is_Some (validation_batches (durable s) !! batch_id) →
     validation_status
       (after (AddressEndpoints.validate_addresses_endpoint addresses async_mode) s) batch_id
     = validation_status s batch_id) ∧
  (∀ payload async_mode,
     is_Some (recognition_batches (durable s) !! batch_id) →
     recognition_status
       (after (AddressEndpoints.recognize_addresses_endpoint payload async_mode) s) batch_id
     = recognition_status s batch_id) ∧
  durable (after (AddressEndpoints.get_validation_results_endpoint batch_id) s) = durable s ∧
  durable (after (AddressEndpoints.get_validation_batch_endpoint batch_id) s) = durable s ∧
  durable (after (AddressEndpoints.get_recognition_results_endpoint batch_id) s) = durable s.
Proof.
  split; [apply process_batch_validation_keeps_completed|].
  split.
  { intros Hst. unfold after.
    by rewrite (process_recognition_batch_guard s batch_id _ Hst (or_intror eq_refl)). }
  split.
  { intros Hst Hp. unfold after.
    rewrite (process_batch_validation_empty s batch_id Hp).
    - unfold validation_status. proj. apply validation_marked_status.
      apply validation_payload_lookup in Hp as (b & -> & _). by eexists.
    - left. by rewrite Hst. }
  split.
  { intros Hst Hp. unfold after.
    rewrite (process_recognition_batch_empty s batch_id Hp).
    - unfold recognition_status. proj. apply recognition_marked_status.
      apply recognition_payload_lookup in Hp as (b & -> & _). by eexists.
    - split; by rewrite Hst. }
  split.
  { intros addresses async_mode.
    apply (validate_addresses_endpoint_keeps_status addresses async_mode s batch_id). }
  split.
  { intros payload async_mode.
    apply (recognize_addresses_endpoint_keeps_status payload async_mode s batch_id). }
  apply readers_keep_database.
Qed.

Lemma terminal_states_under_worker_witness :
  validation_status (after (validate_addresses_batch 1) sample) 1 = Some "completed" ∧
  durable (after (recognize_addresses_batch 4) sample) = durable sample ∧
  validation_status (after (validate_addresses_batch 9) sample_failed) 9 = Some "failed" ∧
  recognition_status (after (recognize_addresses_batch 10) sample_failed) 10 = Some "failed".
Proof.
  destruct (terminal_states_under_worker sample 1) as (Hv & _).
  destruct (terminal_states_under_worker sample 4) as (_ & Hr & _).
  destruct (terminal_states_under_worker sample_failed 9) as (_ & _ & Hvf & _).
  destruct (terminal_states_under_worker sample_failed 10) as (_ & _ & _ & Hrf & _).
  split; [|split; [|split]].
  - apply Hv.
    + vm_compute. reflexivity.
    + left. vm_compute. discriminate.
  - apply Hr. vm_compute. reflexivity.
  - apply Hvf; vm_compute; reflexivity.
  - apply Hrf; vm_compute; reflexivity.
Defined.

(** ** The result reader *)

Lemma unknown_batch_has_no_items (d : Database) (batch_id : uuid) :
  foreign_keys_hold d →
  validation_batches d !! batch_id = None →
  validation_items_of d batch_id = [].
Proof.
  intros Hfk Hnone. unfold validation_items_of.
  destruct (filter _ (validation_items d)) as [|it rest] eqn:Hfilter; [done|].
  assert (it ∈ filter (λ it, ValidationItem.batch_id it = batch_id) (validation_items d))
    as [Heq Hin]%list_elem_of_filter by (rewrite Hfilter; left).
  specialize (Hfk it Hin). rewrite Heq, Hnone in Hfk. by destruct Hfk.
Qed.

#[global] Instance by_created_at_total : Total ValidationService.by_created_at.
Proof. intros a b. unfold ValidationService.by_created_at. lia. Qed.

#[global] Instance by_created_at_trans : Transitive ValidationService.by_created_at.
Proof. intros a b c. unfold ValidationService.by_created_at. lia. Qed.

Lemma get_items_empty (s : State) (batch_id : uuid) :
  validation_items_of (durable s) batch_id = [] →
  AddressEndpoints.get_validation_results_endpoint batch_id s =
    (Raise (HTTPException 404 "batch_id not found or empty"),
     mkState (durable s) (durable s) (seed s) (clock s) (queue s)
       (log s ++ [SelectItems Validation batch_id])).
Proof.
  intros Hnil.
  unfold AddressEndpoints.get_validation_results_endpoint,
    ValidationService.retrieve_batch_results, ValidationService.result_rows.
  unfold_monad. by rewrite Hnil.
Qed.

Lemma get_items_ok (s s' : State) (batch_id : uuid) (results : list ValidationResultSchema.t) :
  AddressEndpoints.get_validation_results_endpoint batch_id s = (Ok results, s') →
  traverse ValidationService.result_of_item
    (ValidationService.result_rows (durable s) batch_id) = Ok results ∧
  results ≠ [].
Proof.
  unfold AddressEndpoints.get_validation_results_endpoint,
    ValidationService.retrieve_batch_results.
  unfold_monad.
  destruct (traverse _ _) as [[|r rs]|e]; cbn [ValidationService.is_empty]; [done| |done].
  by intros [= <- _].
Qed.

Lemma traverse_length {A B} (f : A → result B) (l : list A) (l' : list B) :
  traverse f l = Ok l' → length l' = length l.
Proof.
  revert l'. induction l as [|x l IH]; intros l'; cbn [traverse].
  - by intros [= <-].
  - destruct (f x) as [y|]; [|done].
    destruct (traverse f l) as [ys|]; [|done].
    intros [= <-]. cbn. f_equal. by apply IH.
Qed.

(** C9.  The items-only query answers 404 both for an unknown identifier
    and for a batch that exists and has no item; the batch-info query
    answers 404 exactly when no batch has the identifier, and for a batch
    that exists without items it answers the batch with the count 0.  When
    the items-only query answers, it answers one result per item row of the
    batch, the rows taken in the order of their creation time. *)
Theorem reader_distinguishes_empty_from_unknown (s : State) (batch_id : uuid) :
  (validation_items_of (durable s) batch_id = [] →
   ∃ s', AddressEndpoints.get_validation_results_endpoint batch_id s
         = (Raise (HTTPException 404 "batch_id not found or empty"), s')) ∧
  (foreign_keys_hold (durable s) →
   validation_batches (durable s) !! batch_id = None →
   ∃ s', AddressEndpoints.get_validation_results_endpoint batch_id s
         = (Raise (HTTPException 404 "batch_id not found or empty"), s')) ∧
  (validation_batches (durable s) !! batch_id = None ↔
   ∃ s', AddressEndpoints.get_validation_batch_endpoint batch_id s
         = (Raise (HTTPException 404 "batch_id not found"), s')) ∧
  (∀ b, validation_batches (durable s) !! batch_id = Some b →
        validation_items_of (durable s) batch_id = [] →
        ValidationBatch.status b ∈ BatchStatusType →
        ∃ s', AddressEndpoints.get_validation_batch_endpoint batch_id s
              = (Ok (BatchInfoSchema.mk batch_id (ValidationBatch.status b)
                       (ValidationBatch.created_at b) 0
                       (ValidationBatch.request_payload b)), s')) ∧
  (∀ results s',
     AddressEndpoints.get_validation_results_endpoint batch_id s = (Ok results, s') →
     ∃ rows,
       rows ≡ₚ validation_items_of (durable s) batch_id ∧
       StronglySorted (λ a b, ValidationItem.created_at a ≤ ValidationItem.created_at b)%nat
         rows ∧
       traverse ValidationService.result_of_item rows = Ok results ∧
       length results = length (validation_items_of (durable s) batch_id)).
Proof.
  split; [|split; [|split; [|split]]].
  - intros Hnil. eexists. by apply get_items_empty.
  - intros Hfk Hnone. eexists. apply get_items_empty.
    by apply unknown_batch_has_no_items.
  - unfold AddressEndpoints.get_validation_batch_endpoint, ValidationService.get_batch_info.
    unfold_monad. split.
    + intros ->. by eexists.
    + intros [s' Hrun].
      destruct (validation_batches (durable s) !! batch_id) as [b|]; [|done].
      cbn [fmap option_fmap option_map] in Hrun.
      unfold BatchInfoSchema.new in Hrun.
      by destruct (is_literal BatchStatusType (ValidationBatch.status b)).
  - intros b Hb Hnil Hst.
    unfold AddressEndpoints.get_validation_batch_endpoint, ValidationService.get_batch_info.
    unfold_monad. rewrite Hb, Hnil. cbn [fmap option_fmap option_map length].
    unfold BatchInfoSchema.new, is_literal. rewrite bool_decide_eq_true_2 by done.
    by eexists.
  - intros results s' Hrun. apply get_items_ok in Hrun as [Hrun _].
    exists (ValidationService.result_rows (durable s) batch_id).
    unfold ValidationService.result_rows in *.
    split; [apply merge_sort_Permutation|].
    split; [apply (StronglySorted_merge_sort ValidationService.by_created_at)|].
    split; [done|].
    rewrite (traverse_length _ _ _ Hrun).
    by rewrite merge_sort_Permutation.
Qed.

Lemma sample_foreign_keys : foreign_keys_hold (durable sample).
Proof.
  intros it Hin.
  assert (ValidationItem.batch_id it = 1%positive) as ->.
  { vm_compute in Hin. by apply list_elem_of_singleton in Hin as ->. }
  vm_compute. by eexists.
Qed.

Lemma reader_distinguishes_empty_from_unknown_witness :
  (∃ s', AddressEndpoints.get_validation_results_endpoint 3 sample
         = (Raise (HTTPException 404 "batch_id not found or empty"), s')) ∧
  (∃ s', AddressEndpoints.get_validation_results_endpoint 2 sample
         = (Raise (HTTPException 404 "batch_id not found or empty"), s')) ∧
  (∃ s', AddressEndpoints.get_validation_batch_endpoint 2 sample
         = (Raise (HTTPException 404 "batch_id not found"), s')) ∧
  (∃ s', AddressEndpoints.get_validation_batch_endpoint 3 sample
         = (Ok (BatchInfoSchema.mk 3 "queued" 0 0
                  (Some [AddressInputSchema.model_dump main_street])), s')) ∧
  (∃ results rows,
     (AddressEndpoints.get_validation_results_endpoint 1 sample).1 = Ok results ∧
     rows ≡ₚ validation_items_of (durable sample) 1 ∧
     StronglySorted (λ a b, ValidationItem.created_at a ≤ ValidationItem.created_at b)%nat
       rows ∧
     traverse ValidationService.result_of_item rows = Ok results ∧
     length results = length (validation_items_of (durable sample) 1)).
Proof.
  destruct (reader_distinguishes_empty_from_unknown sample 3) as (Hempty & _ & _ & Hinfo & _).
  destruct (reader_distinguishes_empty_from_unknown sample 2) as (_ & Hunknown & Hmissing & _).
  destruct (reader_distinguishes_empty_from_unknown sample 1) as (_ & _ & _ & _ & Hrows).
  split; [|split; [|split; [|split]]].
  - apply Hempty. vm_compute. reflexivity.
  - apply Hunknown; [apply sample_foreign_keys | vm_compute; reflexivity].
  - apply Hmissing. vm_compute. reflexivity.
  - apply (Hinfo (ValidationBatch.mk "queued" 0
                    (Some [AddressInputSchema.model_dump main_street]))).
    + vm_compute. reflexivity.
    + vm_compute. reflexivity.
    + cbn [ValidationBatch.status]. unfold BatchStatusType.
      apply list_elem_of_In. cbn [In]. tauto.
  - destruct (AddressEndpoints.get_validation_results_endpoint 1 sample)
      as [[results|e] s'] eqn:Hrun.
    + destruct (Hrows results s' eq_refl) as (rows & Hperm & Hsorted & Htraverse & Hlen).
      exists results, rows. repeat split; assumption.
    + vm_compute in Hrun. discriminate.
Defined.

(** ** The validation transform *)

(** The normalizer writes every value under the key it read it from. *)
Lemma normalize_keeps_keys (d : dict) (k : string) :
  k ≠ "address_residential_indicator" →
  ValidationService._normalize_address_data d !! k
  = ValidationService.normalize_entry k <$> d !! k.
Proof.
  intros Hk. unfold ValidationService._normalize_address_data.
  destruct (map_imap _ d !! "address_residential_indicator").
  - rewrite map_lookup_imap. by destruct (d !! k).
  - rewrite lookup_insert_ne by done. rewrite map_lookup_imap. by destruct (d !! k).
Qed.

(** C7, as stated, fails: the normalizer keeps the field names, so the
    result has no key [ADDRESS_LINE1]; applied to the record of the example
    it also leaves the null indicator as it is, and the input schema
    refuses that record, which lacks two required fields. *)
Lemma transform_example_counterexample :
  ValidationService._normalize_address_data example_record ≠ example_claimed ∧
  ValidationService._normalize_address_data example_record
  = list_to_map [("address_line1", VStr "1 MAIN ST"); ("country_code", VStr "US");
                 ("address_residential_indicator", VNone)] ∧
  AddressInputSchema.model_validate example_record = Raise ValidationError.
Proof.
  split; [|split].
  - intros Heq. apply (f_equal (λ m : dict, m !! "ADDRESS_LINE1")) in Heq.
    vm_compute in Heq. discriminate.
  - vm_compute. reflexivity.
  - vm_compute. reflexivity.
Qed.

(** C7, amended.  The validation transform keeps the field names and
    folds the case of the values.  With the indicator absent or already
    ["unknown"], the record of the example becomes
    [{address_line1: "1 MAIN ST", country_code: "US",
      address_residential_indicator: "unknown"}]; the input schema turns the
    null indicator of a request into ["unknown"] before the normalizer
    runs.  For the validated record there is exactly one diagnostic,
    [missing_postal_code] at level [warning], and the status is [verified],
    as it is for every record. *)
Theorem transform_example (a : AddressInputSchema.t) (d : dict) (k : string) :
  (ValidationService._determine_validation_status a).1 = "verified" ∧
  (d !! k = None → k ≠ "address_residential_indicator" →
   ValidationService._normalize_address_data d !! k = None) ∧
  ValidationService._normalize_address_data
    (list_to_map [("address_line1", VStr "1 main st"); ("country_code", VStr "us")])
  = list_to_map [("address_line1", VStr "1 MAIN ST"); ("country_code", VStr "US");
                 ("address_residential_indicator", VStr "unknown")] ∧
  ValidationService._normalize_address_data
    (list_to_map [("address_line1", VStr "1 main st"); ("country_code", VStr "us");
                  ("address_residential_indicator", VStr "unknown")])
  = list_to_map [("address_line1", VStr "1 MAIN ST"); ("country_code", VStr "US");
                 ("address_residential_indicator", VStr "unknown")] ∧
  AddressInputSchema.model_validate example_request = Ok main_street ∧
  (let matched :=
     ValidationService._normalize_address_data (AddressInputSchema.model_dump main_street) in
   matched !! "address_line1" = Some (VStr "1 MAIN ST") ∧
   matched !! "country_code" = Some (VStr "US") ∧
   matched !! "address_residential_indicator" = Some (VStr "unknown") ∧
   matched !! "ADDRESS_LINE1" = None ∧ matched !! "COUNTRY_CODE" = None) ∧
  ValidationService._determine_validation_status main_street
  = ("verified",
     [ValidationMessageSchema.mk "missing_postal_code" "postal_code is recommended for US"
        "warning"]).
Proof.
  split; [done|]. split.
  { intros Hnone Hk. by rewrite normalize_keeps_keys, Hnone. }
  repeat split; vm_compute; reflexivity.
Qed.

Lemma transform_example_witness :
  ValidationService._normalize_address_data example_record !! "ADDRESS_LINE1" = None.
Proof.
  destruct (transform_example main_street example_record "ADDRESS_LINE1") as (_ & Hkeys & _).
  apply Hkeys; [vm_compute; reflexivity | discriminate].
Defined.

(** ** The synchronous path *)

Lemma validation_store_body (new_batch : uuid) (a : AddressInputSchema.t) (s : State) :
  (let original_data := AddressInputSchema.model_dump a in
   let normalized_data := ValidationService._normalize_address_data original_data in
   let '(validation_status, validation_messages) :=
     ValidationService._determine_validation_status a in
   ValidationTable.add_item new_batch validation_status original_data
     normalized_data validation_messages;;
   let original_output := ValidationService.original_output_of original_data in
   original_address ← lift (AddressOutputSchema.model_validate original_output);
   matched_address ← lift (AddressOutputSchema.model_validate normalized_data);
   lift (ValidationResultSchema.new validation_status original_address
           matched_address validation_messages)) s
  = (validation_result a, validation_item_added new_batch a s).
Proof.
  cbn zeta. unfold ValidationService._determine_validation_status, validation_result.
  unfold mbind, M_bind, result_bind, lift. rewrite validation_add_item_run.
  cbn [fst snd].
  destruct (AddressOutputSchema.model_validate (ValidationService.original_output_of _));
    [|done].
  by destruct (AddressOutputSchema.model_validate (ValidationService._normalize_address_data _)).
Qed.

(** A loop whose body adds a row and then computes a result that may
    raise: it returns the results in the order of the list, or stops at
    the first exception, having committed nothing. *)
Lemma for_each_traverse {A B} (body : A → M B) (f : A → result B)
    (step : A → State → State) (l : list A) :
  (∀ a s, body a s = (f a, step a s)) →
  (∀ a s, durable (step a s) = durable s) →
  ∀ s, match traverse f l with
       | Ok ys => for_each l body s = (Ok ys, foldl (λ s a, step a s) s l)
       | Raise e => ∃ s', for_each l body s = (Raise e, s') ∧ durable s' = durable s
       end.
Proof.
  intros Hbody Hdurable. induction l as [|a l IH]; intros s; [done|].
  assert (for_each (a :: l) body s =
          match f a with
          | Ok y =>
              match for_each l body (step a s) with
              | (Ok ys, s') => (Ok (y :: ys), s')
              | (Raise e, s') => (Raise e, s')
              end
          | Raise e => (Raise e, step a s)
          end) as Hstep.
  { cbn [for_each]. unfold mbind, M_bind, mret, M_ret. rewrite Hbody.
    destruct (f a); [|done]. by destruct (for_each l body (step a s)) as [[]]. }
  cbn [traverse foldl]. rewrite Hstep.
  destruct (f a) as [y|e]; [|by eexists].
  specialize (IH (step a s)).
  destruct (traverse f l) as [ys|e].
  - by rewrite IH.
  - destruct IH as (s' & -> & Hs'). exists s'. by rewrite Hs', Hdurable.
Qed.

(** When every record yields its result, the synchronous path returns the
    results in the order of the records and commits the batch, [completed],
    with one item per record. *)
Lemma validate_now_returns (addresses : list AddressInputSchema.t)
    (results : list ValidationResultSchema.t) (s : State) :
  validation_batches (durable s) !! seed s = None →
  traverse validation_result addresses = Ok results →
  AddressEndpoints.validate_addresses_endpoint addresses false s =
    (Ok (AddressEndpoints.mk_response 200 (Some (seed s)) results),
     mkState (validation_stored (seed s) (clock s) addresses (durable s))
       (validation_stored (seed s) (clock s) addresses (durable s))
       (advance (length addresses) (Pos.succ (seed s))) (clock s) (queue s)
       (log s ++ [Begin; AddBatch Validation (seed s)]
              ++ replicate (length addresses) (AddItem Validation (seed s))
              ++ [Commit])).
Proof.
  intros Hfresh Hresults.
  unfold AddressEndpoints.validate_addresses_endpoint,
    ValidationService.validate_and_store_addresses.
  unfold_monad. rewrite validation_add_run. proj.
  rewrite bool_decide_eq_false_2 by (rewrite Hfresh; by intros []). proj.
  match goal with
  | |- context [for_each addresses ?body ?s0] =>
      pose proof (for_each_traverse body validation_result
                    (validation_item_added (seed s)) addresses
                    (validation_store_body (seed s)) (λ _ _, eq_refl) s0) as Hloop
  end.
  rewrite Hresults in Hloop. rewrite Hloop, validation_items_added_eq. proj.
  unfold validation_stored. by rewrite <- !app_assoc.
Qed.

(** When a record does not yield its result, the synchronous path raises
    and the transaction is rolled back: nothing is stored. *)
Lemma validate_now_raises (addresses : list AddressInputSchema.t) (e : exn) (s : State) :
  validation_batches (durable s) !! seed s = None →
  traverse validation_result addresses = Raise e →
  ∃ s', AddressEndpoints.validate_addresses_endpoint addresses false s = (Raise e, s') ∧
        durable s' = durable s.
Proof.
  intros Hfresh Hresults.
  unfold AddressEndpoints.validate_addresses_endpoint,
    ValidationService.validate_and_store_addresses.
  unfold_monad. rewrite validation_add_run. proj.
  rewrite bool_decide_eq_false_2 by (rewrite Hfresh; by intros []). proj.
  match goal with
  | |- context [for_each addresses ?body ?s0] =>
      pose proof (for_each_traverse body validation_result
                    (validation_item_added (seed s)) addresses
                    (validation_store_body (seed s)) (λ _ _, eq_refl) s0) as Hloop
  end.
  rewrite Hresults in Hloop. destruct Hloop as (s' & -> & Hs'). proj. by eexists.
Qed.

(** The request with no record: the batch is stored [completed] and has
    no item. *)
Lemma validate_now_empty (s : State) :
  foreign_keys_hold (durable s) →
  validation_batches (durable s) !! seed s = None →
  ∃ s', AddressEndpoints.validate_addresses_endpoint [] false s
        = (Ok (AddressEndpoints.mk_response 200 (Some (seed s)) []), s') ∧
        validation_status s' (seed s) = Some "completed" ∧
        validation_items_of (durable s') (seed s) = [].
Proof.
  intros Hfk Hfresh. eexists. split; [by apply validate_now_returns|].
  unfold validation_status, validation_stored, validation_items_of. proj.
  rewrite lookup_insert_eq. split; [done|].
  cbn [validation_rows]. rewrite app_nil_r.
  by apply (unknown_batch_has_no_items (durable s)).
Qed.

(** C8, at the failing input.  The record [blank_line] passes the input
    schema as it is.  The normalizer strips its address line to the empty
    string, the output schema (the input schema, [min_length=1]) refuses
    the normalized record, and the synchronous path raises
    [ValidationError]: no result is returned and the transaction, with the
    batch and the item already added, is rolled back. *)
Theorem validate_now_raises_on_blank_line :
  AddressInputSchema.model_validate (AddressInputSchema.model_dump blank_line)
  = Ok blank_line ∧
  ValidationService._normalize_address_data (AddressInputSchema.model_dump blank_line)
    !! "address_line1" = Some (VStr "") ∧
  validation_result blank_line = Raise ValidationError ∧
  ∃ s', AddressEndpoints.validate_addresses_endpoint [blank_line] false initial
        = (Raise ValidationError, s') ∧
        durable s' = durable initial ∧
        logged initial s' [Begin; AddBatch Validation 1; AddItem Validation 1; Rollback].
Proof.
  split; [vm_compute; reflexivity|].
  split; [vm_compute; reflexivity|].
  split; [vm_compute; reflexivity|].
  eexists. split; [vm_compute; reflexivity|]. split; vm_compute; reflexivity.
Qed.

(** ** The row lock *)

Lemma validation_guard_cases (s : State) (batch_id : uuid) :
  (validation_status s batch_id = Some "completed" ∧
   validation_items_of (durable s) batch_id ≠ []) ∨
  passes_validation_guard s batch_id.
Proof.
  unfold passes_validation_guard.
  destruct (decide (validation_status s batch_id = Some "completed")); [|by right; left].
  destruct (decide (validation_items_of (durable s) batch_id = [])); [by right; right|].
  by left.
Qed.

(** The validation worker takes the row lock first and keeps its
    transaction open until it returns or raises. *)
Lemma process_batch_validation_locks (s : State) (batch_id : uuid) :
  ∃ events,
    logged s (after (validate_addresses_batch batch_id) s) events ∧
    locked_throughout Validation batch_id events.
Proof.
  unfold after, logged, locked_throughout.
  destruct (validation_batches (durable s) !! batch_id) as [b|] eqn:Hb.
  2:{ rewrite (process_batch_validation_unknown s batch_id Hb). proj.
      eexists. split; [done|]. exists [], Commit. auto. }
  destruct (validation_guard_cases s batch_id) as [[Hst Hitems]|Hguard].
  { rewrite (process_batch_validation_guard s batch_id Hst Hitems). proj.
    eexists. split; [done|]. exists [SelectItems Validation batch_id], Commit.
    repeat split; auto. }
  assert (validation_payload s batch_id
          = Some (ValidationService.payload_or_empty (ValidationBatch.request_payload b)))
    as Hpay by (unfold validation_payload; by rewrite Hb).
  destruct (ValidationService.payload_or_empty (ValidationBatch.request_payload b))
    as [|r p] eqn:Hp.
  { rewrite (process_batch_validation_empty s batch_id Hpay Hguard). proj.
    eexists. split; [done|].
    exists [SelectItems Validation batch_id; SetStatus Validation batch_id "failed"], Commit.
    repeat split; auto. }
  destruct (traverse AddressInputSchema.model_validate (r :: p)) as [addresses|e] eqn:Hvalid.
  - rewrite (process_batch_validation_pass s batch_id _ addresses Hpay ltac:(done) Hguard Hvalid).
    proj. eexists. split; [done|].
    exists ([SelectItems Validation batch_id; SetStatus Validation batch_id "processing";
             DeleteItems Validation batch_id]
            ++ replicate (length addresses) (AddItem Validation batch_id)
            ++ [SetStatus Validation batch_id "completed"]), Commit.
    split; [by rewrite <- !app_assoc|]. split; [by left|].
    repeat (apply Forall_app; split); auto.
    by apply Forall_replicate.
  - rewrite (process_batch_validation_invalid s batch_id _ e Hpay ltac:(done) Hguard Hvalid).
    proj. eexists. split; [done|].
    exists [SelectItems Validation batch_id; SetStatus Validation batch_id "processing";
            DeleteItems Validation batch_id], Rollback.
    repeat split; auto.
Qed.

Lemma recognition_items_added_eq (batch_id : uuid) (l : list RecognitionRequestSchema.t)
    (s : State) :
  foldl (λ s r, recognition_item_added batch_id r s) s l =
    mkState (durable s)
      (mkDatabase (validation_batches (db s)) (validation_items (db s))
         (recognition_batches (db s))
         (recognition_items (db s) ++ recognition_rows (seed s) batch_id (clock s) l))
      (advance (length l) (seed s)) (clock s) (queue s)
      (log s ++ replicate (length l) (AddItem Recognition batch_id)).
Proof.
  revert s. induction l as [|r l IH]; intros s.
  - cbn. rewrite !app_nil_r. by destruct s as [? []].
  - cbn [foldl]. rewrite IH. unfold recognition_item_added. proj.
    cbn [length advance recognition_rows replicate].
    by rewrite <- !app_assoc.
Qed.

Lemma recognition_loop_body (batch_id : uuid) (r : RecognitionRequestSchema.t) (s : State) :
  (let original_data := RecognitionService.original_data_of r in
   let recognized_data := RecognitionService._process_address_recognition original_data in
   RecognitionTable.add_item batch_id "completed" original_data recognized_data) s
  = (Ok tt, recognition_item_added batch_id r s).
Proof. reflexivity. Qed.

Lemma process_recognition_batch_pass (s : State) (batch_id : uuid)
    (p : list RecognitionRequestSchema.payload) (requests : list RecognitionRequestSchema.t) :
  recognition_payload s batch_id = Some p →
  p ≠ [] →
  passes_recognition_guard s batch_id →
  traverse RecognitionRequestSchema.model_validate p = Ok requests →
  recognize_addresses_batch batch_id s =
    (Ok tt,
     mkState (recognition_processed batch_id (seed s) (clock s) requests (durable s))
       (recognition_processed batch_id (seed s) (clock s) requests (durable s))
       (advance (length requests) (seed s)) (clock s) (queue s)
       (log s ++ [Get Recognition batch_id;
                  SetStatus Recognition batch_id "processing"; Commit;
                  DeleteItems Recognition batch_id]
              ++ replicate (length requests) (AddItem Recognition batch_id)
              ++ [Get Recognition batch_id;
                  SetStatus Recognition batch_id "completed"; Commit])).
Proof.
  intros (b & Hb & Hp)%recognition_payload_lookup Hne Hguard Hvalid.
  unfold recognize_addresses_batch, RecognitionService.process_recognition_batch.
  unfold_monad. rewrite Hb. proj. rewrite (recognition_guard_false s batch_id b Hb Hguard).
  rewrite Hp, (is_empty_false p Hne). proj. rewrite Hvalid.
  rewrite (for_each_fold _ (recognition_item_added batch_id))
    by apply recognition_loop_body.
  rewrite recognition_items_added_eq. proj.
  rewrite lookup_alter_eq, Hb. cbn [fmap option_fmap option_map]. proj.
  unfold recognition_processed. by rewrite <- !app_assoc.
Qed.

(** When a stored request does not validate, the recognition worker
    raises after it has committed [processing]: the batch stays there. *)
Lemma process_recognition_batch_invalid (s : State) (batch_id : uuid)
    (p : list RecognitionRequestSchema.payload) (e : exn) :
  recognition_payload s batch_id = Some p →
  p ≠ [] →
  passes_recognition_guard s batch_id →
  traverse RecognitionRequestSchema.model_validate p = Raise e →
  recognize_addresses_batch batch_id s =
    (Raise e,
     mkState (recognition_marked "processing" batch_id (durable s))
       (recognition_marked "processing" batch_id (durable s))
       (seed s) (clock s) (queue s)
       (log s ++ [Get Recognition batch_id;
                  SetStatus Recognition batch_id "processing"; Commit;
                  DeleteItems Recognition batch_id])).
Proof.
  intros (b & Hb & Hp)%recognition_payload_lookup Hne Hguard Hvalid.
  unfold recognize_addresses_batch, RecognitionService.process_recognition_batch.
  unfold_monad. rewrite Hb. proj. rewrite (recognition_guard_false s batch_id b Hb Hguard).
  rewrite Hp, (is_empty_false p Hne). proj. rewrite Hvalid. proj.
  by rewrite <- !app_assoc.
Qed.

Lemma recognition_guard_cases (s : State) (batch_id : uuid) :
  recognition_status s batch_id = Some "processing" ∨
  recognition_status s batch_id = Some "completed" ∨
  passes_recognition_guard s batch_id.
Proof.
  unfold passes_recognition_guard.
  destruct (decide (recognition_status s batch_id = Some "processing")); [by left|].
  destruct (decide (recognition_status s batch_id = Some "completed")); [by right; left|].
  by right; right.
Qed.

(** The recognition worker never asks for a row lock. *)
Lemma process_recognition_batch_takes_no_lock (s : State) (batch_id : uuid) :
  ∃ events,
    logged s (after (recognize_addresses_batch batch_id) s) events ∧
    Forall (λ e, is_lock e = false) events.
Proof.
  unfold after, logged.
  destruct (recognition_batches (durable s) !! batch_id) as [b|] eqn:Hb.
  2:{ rewrite (process_recognition_batch_unknown s batch_id Hb). proj.
      eexists. split; [done|]. auto. }
  destruct (recognition_guard_cases s batch_id) as [Hst|[Hst|Hguard]].
  { rewrite (process_recognition_batch_guard s batch_id _ Hst (or_introl eq_refl)). proj.
    eexists. split; [done|]. auto. }
  { rewrite (process_recognition_batch_guard s batch_id _ Hst (or_intror eq_refl)). proj.
    eexists. split; [done|]. auto. }
  assert (recognition_payload s batch_id
          = Some (ValidationService.payload_or_empty (RecognitionBatch.request_payload b)))
    as Hpay by (unfold recognition_payload; by rewrite Hb).
  destruct (ValidationService.payload_or_empty (RecognitionBatch.request_payload b))
    as [|r p] eqn:Hp.
  { rewrite (process_recognition_batch_empty s batch_id Hpay Hguard). proj.
    eexists. split; [done|]. auto. }
  destruct (traverse RecognitionRequestSchema.model_validate (r :: p))
    as [requests|e] eqn:Hvalid.
  - rewrite (process_recognition_batch_pass s batch_id _ requests Hpay ltac:(done) Hguard Hvalid).
    proj. eexists. split; [done|].
    repeat (apply Forall_app; split); auto.
    by apply Forall_replicate.
  - rewrite (process_recognition_batch_invalid s batch_id _ e Hpay ltac:(done) Hguard Hvalid).
    proj. eexists. split; [done|]. auto.
Qed.

(** ** The synchronous recognition path *)

Lemma recognition_store_body (new_batch : uuid) (r : RecognitionRequestSchema.t) (s : State) :
  (let original_data := RecognitionService.original_data_of r in
   let recognized_data := RecognitionService._process_address_recognition original_data in
   RecognitionTable.add_item new_batch "completed" original_data recognized_data;;
   original_address ← lift (PartialAddressSchema.model_validate original_data);
   recognized_address ← lift (PartialAddressSchema.model_validate recognized_data);
   mret (RecognitionResultSchema.new original_address recognized_address)) s
  = (recognition_result r, recognition_item_added new_batch r s).
Proof.
  cbn zeta. unfold recognition_result.
  unfold mbind, M_bind, result_bind, lift, mret, M_ret, result_ret.
  rewrite recognition_add_item_run.
  destruct (PartialAddressSchema.model_validate (RecognitionService.original_data_of r));
    [|done].
  by destruct (PartialAddressSchema.model_validate
                 (RecognitionService._process_address_recognition _)).
Qed.

(** The synchronous recognition path, likewise. *)
Lemma recognize_now_returns (requests : list RecognitionRequestSchema.t)
    (results : list RecognitionResultSchema.t) (s : State) :
  recognition_batches (durable s) !! seed s = None →
  traverse recognition_result requests = Ok results →
  AddressEndpoints.recognize_addresses_endpoint requests false s =
    (Ok (AddressEndpoints.mk_response 200 (Some (seed s)) results),
     mkState (recognition_stored (seed s) (clock s) requests (durable s))
       (recognition_stored (seed s) (clock s) requests (durable s))
       (advance (length requests) (Pos.succ (seed s))) (clock s) (queue s)
       (log s ++ [AddBatch Recognition (seed s)]
              ++ replicate (length requests) (AddItem Recognition (seed s))
              ++ [Commit])).
Proof.
  intros Hfresh Hresults.
  unfold AddressEndpoints.recognize_addresses_endpoint,
    RecognitionService.recognize_and_store_addresses.
  unfold_monad. rewrite recognition_add_run. proj.
  rewrite bool_decide_eq_false_2 by (rewrite Hfresh; by intros []). proj.
  match goal with
  | |- context [for_each requests ?body ?s0] =>
      pose proof (for_each_traverse body recognition_result
                    (recognition_item_added (seed s)) requests
                    (recognition_store_body (seed s)) (λ _ _, eq_refl) s0) as Hloop
  end.
  rewrite Hresults in Hloop. rewrite Hloop, recognition_items_added_eq. proj.
  unfold recognition_stored. by rewrite <- !app_assoc.
Qed.

(** The recognition request with no record. *)
Lemma recognize_now_empty (s : State) :
  recognition_batches (durable s) !! seed s = None →
  (∀ it, it ∈ recognition_items (durable s) → RecognitionItem.batch_id it ≠ seed s) →
  ∃ s', AddressEndpoints.recognize_addresses_endpoint [] false s
        = (Ok (AddressEndpoints.mk_response 200 (Some (seed s)) []), s') ∧
        recognition_status s' (seed s) = Some "completed" ∧
        recognition_items_of (durable s') (seed s) = [].
Proof.
  intros Hfresh Hitems. eexists. split; [by apply recognize_now_returns|].
  unfold recognition_status, recognition_stored, recognition_items_of. proj.
  rewrite lookup_insert_eq. split; [done|].
  cbn [recognition_rows]. rewrite app_nil_r.
  destruct (filter _ (recognition_items (durable s))) as [|it rest] eqn:Hfilter; [done|].
  assert (it ∈ filter (λ it, RecognitionItem.batch_id it = seed s)
                 (recognition_items (durable s)))
    as [Heq Hin]%list_elem_of_filter by (rewrite Hfilter; left).
  by destruct (Hitems it Hin).
Qed.

(** ** Two recognition workers on one batch *)

(** The pieces make up the coroutine. *)
Lemma recognition_steps_agree (batch_id : uuid) (s : State) :
  recognition_steps batch_id s = RecognitionService.process_recognition_batch batch_id s.
Proof.
  unfold recognition_steps, RecognitionService.process_recognition_batch, recognition_step.
  unfold_monad.
  destruct (recognition_batches (db s) !! batch_id) as [b|]; [|done]. proj.
  destruct (is_literal _ (RecognitionBatch.status b)); [done|].
  destruct (ValidationService.is_empty _); [done|]. proj.
  destruct (traverse RecognitionRequestSchema.model_validate _) as [requests|e]; [|done].
  destruct (for_each requests _ _) as [[units|e] s1]; [|done]. proj.
  destruct (recognition_batches (db s1) !! batch_id); done.
Qed.

(** A worker that is alone, scheduled three times, is the job. *)
Lemma single_worker_agrees (batch_id : uuid) (s : State) :
  (workers_run batch_id [false; false; false] s).2
  = after (recognize_addresses_batch batch_id) s.
Proof.
  unfold workers_run, after, recognize_addresses_batch,
    RecognitionService.process_recognition_batch.
  cbn [foldl]. unfold workers_step at 3. cbn [recognition_step]. unfold_monad.
  destruct (recognition_batches (durable s) !! batch_id) as [b|];
    unfold workers_step at 2; cbn [recognition_step]; unfold_monad;
    [|unfold workers_step; cbn [recognition_step]; unfold_monad; done].
  destruct (is_literal _ (RecognitionBatch.status b));
    [unfold workers_step; cbn [recognition_step]; unfold_monad; done|].
  destruct (ValidationService.is_empty _); proj;
    unfold workers_step; cbn [recognition_step]; unfold_monad; [done|].
  destruct (traverse RecognitionRequestSchema.model_validate _) as [requests|e]; [|done].
  destruct (for_each requests _ _) as [[units|e] s1]; [|done]. proj.
  destruct (recognition_batches (db s1) !! batch_id); done.
Qed.

(** C2, at the failing input.  The validation worker takes the row lock
    as the first statement of its transaction and holds it to the end.
    The recognition worker never takes a lock, and commits [processing]
    before it replaces the items.  On the queued recognition batch 6 of
    the sample store, two workers that both read the batch before either
    commits both make a full pass; and a worker that read the batch while
    it was queued makes its pass even after the other has committed
    [completed]. *)
Theorem recognition_worker_is_not_exclusive (s : State) (batch_id : uuid) :
  (∃ events,
     logged s (after (validate_addresses_batch batch_id) s) events ∧
     locked_throughout Validation batch_id events) ∧
  (∃ events,
     logged s (after (recognize_addresses_batch batch_id) s) events ∧
     Forall (λ e, is_lock e = false) events) ∧
  (workers_run batch_id [false; false; false] s).2
  = after (recognize_addresses_batch batch_id) s ∧
  recognition_status sample 6 = Some "queued" ∧
  logged sample (after (recognize_addresses_batch 6) sample)
    [Get Recognition 6; SetStatus Recognition 6 "processing"; Commit;
     DeleteItems Recognition 6; AddItem Recognition 6;
     Get Recognition 6; SetStatus Recognition 6 "completed"; Commit] ∧
  (let '(pc1, pc2, s') := workers_run 6 [false; true; false; true; false; true] sample in
   pc1 = Returned ∧ pc2 = Returned ∧
   logged sample s'
     [Get Recognition 6; Get Recognition 6;
      SetStatus Recognition 6 "processing"; Commit;
      SetStatus Recognition 6 "processing"; Commit;
      DeleteItems Recognition 6; AddItem Recognition 6;
      Get Recognition 6; SetStatus Recognition 6 "completed"; Commit;
      DeleteItems Recognition 6; AddItem Recognition 6;
      Get Recognition 6; SetStatus Recognition 6 "completed"; Commit] ∧
   passes Recognition 6 (drop (length (log sample)) (log s')) = 2%nat) ∧
  (let '(pc1, pc2, s') := workers_run 6 [false; true; false; false; true; true] sample in
   pc1 = Returned ∧ pc2 = Returned ∧
   logged sample s'
     [Get Recognition 6; Get Recognition 6;
      SetStatus Recognition 6 "processing"; Commit;
      DeleteItems Recognition 6; AddItem Recognition 6;
      Get Recognition 6; SetStatus Recognition 6 "completed"; Commit;
      SetStatus Recognition 6 "processing"; Commit;
      DeleteItems Recognition 6; AddItem Recognition 6;
      Get Recognition 6; SetStatus Recognition 6 "completed"; Commit] ∧
   passes Recognition 6 (drop (length (log sample)) (log s')) = 2%nat).
Proof.
  split; [apply process_batch_validation_locks|].
  split; [apply process_recognition_batch_takes_no_lock|].
  split; [apply single_worker_agrees|].
  split; [vm_compute; reflexivity|].
  split; [vm_compute; reflexivity|].
  split; vm_compute; repeat split.
Qed.

(** * Further properties of the code *)

(** ** Requeue, the other outcomes *)

Lemma reset_unknown (s : State) (batch_id : uuid) :
  validation_batches (durable s) !! batch_id = None →
  ValidationService.reset_batch_for_processing batch_id (open_state s) =
    (Ok false,
     mkState (durable s) (durable s) (seed s) (clock s) (queue s)
       (log s ++ [Begin; SelectForUpdate Validation batch_id; Commit])).
Proof.
  intros Hnone. unfold ValidationService.reset_batch_for_processing.
  unfold_monad. rewrite Hnone. proj. by rewrite <- !app_assoc.
Qed.

Lemma reset_requeues (s : State) (batch_id : uuid) (p : list dict) :
  validation_payload s batch_id = Some p →
  p ≠ [] →
  validation_status s batch_id ≠ Some "processing" →
  ValidationService.reset_batch_for_processing batch_id (open_state s) =
    (Ok true,
     mkState (validation_requeued batch_id (durable s))
       (validation_requeued batch_id (durable s))
       (seed s) (clock s) (queue s)
       (log s ++ [Begin; SelectForUpdate Validation batch_id;
                  SetStatus Validation batch_id "queued";
                  DeleteItems Validation batch_id; Commit])).
Proof.
  intros (b & Hb & Hp)%validation_payload_lookup Hne Hst.
  unfold ValidationService.reset_batch_for_processing.
  unfold_monad. rewrite Hb. proj.
  destruct (String.eqb_spec (ValidationBatch.status b) "processing") as [Heq|_].
  { exfalso. apply Hst. unfold validation_status. by rewrite Hb, <- Heq. }
  rewrite Hp, (is_empty_false p Hne). proj.
  by rewrite <- !app_assoc.
Qed.

Lemma filter_other_batch (batch_id other : uuid) (l : list ValidationItem.t) :
  other ≠ batch_id →
  filter (λ it, ValidationItem.batch_id it = other)
    (filter (λ it, ValidationItem.batch_id it ≠ batch_id) l)
  = filter (λ it, ValidationItem.batch_id it = other) l.
Proof.
  intros Hne. induction l as [|it l IH]; [done|].
  rewrite !filter_cons. destruct (decide (ValidationItem.batch_id it ≠ batch_id)) as [Hit|Hit].
  - rewrite filter_cons. destruct (decide (ValidationItem.batch_id it = other)); by rewrite IH.
  - rewrite IH. destruct (decide (ValidationItem.batch_id it = other)) as [Heq|]; [|done].
    exfalso. apply Hit. by rewrite Heq.
Qed.

Lemma filter_same_batch (batch_id : uuid) (l : list ValidationItem.t) :
  filter (λ it, ValidationItem.batch_id it = batch_id)
    (filter (λ it, ValidationItem.batch_id it ≠ batch_id) l) = [].
Proof.
  induction l as [|it l IH]; [done|].
  rewrite filter_cons. destruct (decide (ValidationItem.batch_id it ≠ batch_id)) as [Hit|Hit];
    [|done].
  rewrite filter_cons. by destruct (decide (ValidationItem.batch_id it = batch_id)).
Qed.

(** X1.  A requeue of a batch that has a payload and is not [processing]
    succeeds: the batch is [queued] with the payload it had, its items are
    deleted, the items and the rows of the other batches are as before,
    and the route hands exactly one job for the batch to the broker. *)
Theorem requeue_succeeds (s : State) (batch_id : uuid) (p : list dict) :
  validation_payload s batch_id = Some p →
  p ≠ [] →
  validation_status s batch_id ≠ Some "processing" →
  ∃ s',
    AddressEndpoints.requeue_validation_batch_endpoint batch_id s = (Ok tt, s') ∧
    validation_status s' batch_id = Some "queued" ∧
    validation_payload s' batch_id = Some p ∧
    validation_items_of (durable s') batch_id = [] ∧
    (∀ other, other ≠ batch_id →
       validation_batches (durable s') !! other = validation_batches (durable s) !! other ∧
       validation_items_of (durable s') other = validation_items_of (durable s) other) ∧
    queue s' = queue s ++ [("validate_addresses_batch", batch_id)].
Proof.
  intros Hp Hne Hst. pose proof (reset_requeues s batch_id p Hp Hne Hst) as Hreset.
  apply validation_payload_lookup in Hp as (b & Hb & Hp).
  eexists. split.
  { unfold AddressEndpoints.requeue_validation_batch_endpoint, SessionLocal.
    rewrite Hreset. unfold enqueue_job, close_state. proj. reflexivity. }
  unfold validation_status, validation_payload, validation_items_of, validation_requeued.
  proj. rewrite lookup_alter_eq, Hb. cbn.
  split; [done|]. split; [by rewrite Hp|]. split; [apply filter_same_batch|].
  split; [|done]. intros other Hother.
  split; [by apply lookup_alter_ne | by apply filter_other_batch].
Qed.

Lemma requeue_succeeds_witness :
  ∃ s',
    AddressEndpoints.requeue_validation_batch_endpoint 1 sample = (Ok tt, s') ∧
    validation_status s' 1 = Some "queued" ∧
    validation_payload s' 1 = Some [AddressInputSchema.model_dump main_street] ∧
    validation_items_of (durable s') 1 = [] ∧
    (∀ other, other ≠ 1%positive →
       validation_batches (durable s') !! other = validation_batches (durable sample) !! other ∧
       validation_items_of (durable s') other = validation_items_of (durable sample) other) ∧
    queue s' = queue sample ++ [("validate_addresses_batch", 1%positive)].
Proof.
  apply (requeue_succeeds sample 1 [AddressInputSchema.model_dump main_street]).
  - vm_compute. reflexivity.
  - discriminate.
  - vm_compute. discriminate.
Defined.

(** X2.  A requeue of an identifier that no batch has answers 404: the
    service returns [False], nothing is stored and no job is queued. *)
Theorem requeue_unknown_is_not_found (s : State) (batch_id : uuid) :
  validation_batches (durable s) !! batch_id = None →
  ∃ s',
    AddressEndpoints.requeue_validation_batch_endpoint batch_id s
      = (Raise (HTTPException 404 "batch_id not found"), s') ∧
    durable s' = durable s ∧ queue s' = queue s.
Proof.
  intros Hnone. eexists. split.
  { unfold AddressEndpoints.requeue_validation_batch_endpoint, SessionLocal.
    rewrite (reset_unknown s batch_id Hnone). reflexivity. }
  done.
Qed.

Lemma requeue_unknown_is_not_found_witness :
  ∃ s',
    AddressEndpoints.requeue_validation_batch_endpoint 2 sample
      = (Raise (HTTPException 404 "batch_id not found"), s') ∧
    durable s' = durable sample ∧ queue s' = queue sample.
Proof. apply (requeue_unknown_is_not_found sample 2). vm_compute. reflexivity. Defined.

(** ** Delete *)

Lemma remove_batch_removes (s : State) (batch_id : uuid) :
  is_Some (validation_batches (durable s) !! batch_id) →
  ValidationService.remove_batch batch_id (open_state s) =
    (Ok true,
     mkState (validation_removed batch_id (durable s))
       (validation_removed batch_id (durable s))
       (seed s) (clock s) (queue s)
       (log s ++ [Begin; Get Validation batch_id; DeleteItems Validation batch_id;
                  DeleteBatch Validation batch_id; Commit])).
Proof.
  intros [b Hb]. unfold ValidationService.remove_batch.
  unfold_monad. rewrite Hb. proj. unfold validation_removed.
  rewrite <- !app_assoc. by rewrite !list_filter_filter_l.
Qed.

Lemma remove_batch_unknown (s : State) (batch_id : uuid) :
  validation_batches (durable s) !! batch_id = None →
  ValidationService.remove_batch batch_id (open_state s) =
    (Ok false,
     mkState (durable s) (durable s) (seed s) (clock s) (queue s)
       (log s ++ [Begin; Get Validation batch_id; Commit])).
Proof.
  intros Hnone. unfold ValidationService.remove_batch.
  unfold_monad. rewrite Hnone. proj. by rewrite <- !app_assoc.
Qed.

(** X3.  Deleting a batch that exists removes its row and every item of
    it, and nothing else: the other batches, their items and the
    recognition tables are as before.  Deleting an identifier that no batch
    has answers 404 and changes nothing. *)
Theorem delete_removes_batch_and_items (s : State) (batch_id : uuid) :
  (is_Some (validation_batches (durable s) !! batch_id) →
   ∃ s',
     AddressEndpoints.delete_validation_batch_endpoint batch_id s = (Ok tt, s') ∧
     validation_batches (durable s') !! batch_id = None ∧
     validation_items_of (durable s') batch_id = [] ∧
     (∀ other, other ≠ batch_id →
        validation_batches (durable s') !! other = validation_batches (durable s) !! other ∧
        validation_items_of (durable s') other = validation_items_of (durable s) other) ∧
     recognition_batches (durable s') = recognition_batches (durable s) ∧
     recognition_items (durable s') = recognition_items (durable s)) ∧
  (validation_batches (durable s) !! batch_id = None →
   ∃ s',
     AddressEndpoints.delete_validation_batch_endpoint batch_id s
       = (Raise (HTTPException 404 "batch_id not found"), s') ∧
     durable s' = durable s).
Proof.
  split.
  - intros Hsome. eexists. split.
    { unfold AddressEndpoints.delete_validation_batch_endpoint.
      unfold SessionLocal, mbind, M_bind.
      rewrite (remove_batch_removes s batch_id Hsome). reflexivity. }
    unfold validation_items_of, validation_removed, close_state. proj.
    split; [apply lookup_delete_eq|]. split; [apply filter_same_batch|].
    split; [|done]. intros other Hother.
    split; [by apply lookup_delete_ne | by apply filter_other_batch].
  - intros Hnone. eexists. split.
    { unfold AddressEndpoints.delete_validation_batch_endpoint.
      unfold SessionLocal, mbind, M_bind.
      rewrite (remove_batch_unknown s batch_id Hnone). reflexivity. }
    done.
Qed.

Lemma delete_removes_batch_and_items_witness :
  (∃ s',
     AddressEndpoints.delete_validation_batch_endpoint 1 sample = (Ok tt, s') ∧
     validation_batches (durable s') !! 1%positive = None ∧
     validation_items_of (durable s') 1 = [] ∧
     (∀ other, other ≠ 1%positive →
        validation_batches (durable s') !! other = validation_batches (durable sample) !! other ∧
        validation_items_of (durable s') other = validation_items_of (durable sample) other) ∧
     recognition_batches (durable s') = recognition_batches (durable sample) ∧
     recognition_items (durable s') = recognition_items (durable sample)) ∧
  (∃ s',
     AddressEndpoints.delete_validation_batch_endpoint 2 sample
       = (Raise (HTTPException 404 "batch_id not found"), s') ∧
     durable s' = durable sample).
Proof.
  split.
  - apply (proj1 (delete_removes_batch_and_items sample 1)). vm_compute. by eexists.
  - apply (proj2 (delete_removes_batch_and_items sample 2)). vm_compute. reflexivity.
Defined.

(** ** Asynchronous creation *)

Lemma payload_or_empty_Some {A} (l : list A) :
  ValidationService.payload_or_empty (Some l) = l.
Proof. by destruct l. Qed.

Lemma validation_async_queues (s : State) (addresses : list AddressInputSchema.t) :
  validation_batches (durable s) !! seed s = None →
  ∃ s',
    AddressEndpoints.validate_addresses_endpoint addresses true s
      = (Ok (AddressEndpoints.mk_response 202 (Some (seed s)) []), s') ∧
    durable s' = validation_queued (seed s) (clock s) addresses (durable s) ∧
    validation_status s' (seed s) = Some "queued" ∧
    validation_payload s' (seed s) = Some (AddressInputSchema.model_dump <$> addresses) ∧
    queue s' = queue s ++ [("validate_addresses_batch", seed s)].
Proof.
  intros Hfresh. eexists. split.
  { unfold AddressEndpoints.validate_addresses_endpoint,
      ValidationService.create_queued_batch.
    unfold_monad. rewrite validation_add_run. proj.
    rewrite bool_decide_eq_false_2 by (rewrite Hfresh; by intros []). proj.
    reflexivity. }
  unfold validation_status, validation_payload, validation_queued. proj.
  rewrite lookup_insert_eq.
  cbn [mbind option_bind fmap option_fmap option_map
       ValidationBatch.request_payload ValidationBatch.status
       RecognitionBatch.request_payload RecognitionBatch.status].
  by rewrite payload_or_empty_Some.
Qed.

Lemma recognition_async_queues (s : State) (requests : list RecognitionRequestSchema.t) :
  recognition_batches (durable s) !! seed s = None →
  ∃ s',
    AddressEndpoints.recognize_addresses_endpoint requests true s
      = (Ok (AddressEndpoints.mk_response 202 (Some (seed s)) []), s') ∧
    durable s' = recognition_queued (seed s) (clock s) requests (durable s) ∧
    recognition_status s' (seed s) = Some "queued" ∧
    recognition_payload s' (seed s)
    = Some (RecognitionRequestSchema.model_dump <$> requests) ∧
    queue s' = queue s ++ [("recognize_addresses_batch", seed s)].
Proof.
  intros Hfresh. eexists. split.
  { unfold AddressEndpoints.recognize_addresses_endpoint,
      RecognitionService.create_queued_recognition_batch.
    unfold_monad. rewrite recognition_add_run. proj.
    rewrite bool_decide_eq_false_2 by (rewrite Hfresh; by intros []). proj.
    reflexivity. }
  unfold recognition_status, recognition_payload, recognition_queued. proj.
  rewrite lookup_insert_eq.
  cbn [mbind option_bind fmap option_fmap option_map
       ValidationBatch.request_payload ValidationBatch.status
       RecognitionBatch.request_payload RecognitionBatch.status].
  by rewrite payload_or_empty_Some.
Qed.

(** X4.  The asynchronous routes store the batch [queued] with the dumped
    records as its payload and no item, answer 202 with an empty body and
    the identifier of the batch, and hand one job with that identifier to
    the broker; every other table is as before.  When the identifier drawn
    for the batch is taken, the route raises, stores nothing and queues
    nothing. *)
Theorem async_creation_queues_batch (s : State) :
  (∀ addresses,
     validation_batches (durable s) !! seed s = None →
     ∃ s',
       AddressEndpoints.validate_addresses_endpoint addresses true s
         = (Ok (AddressEndpoints.mk_response 202 (Some (seed s)) []), s') ∧
       durable s' = validation_queued (seed s) (clock s) addresses (durable s) ∧
       validation_status s' (seed s) = Some "queued" ∧
       validation_payload s' (seed s) = Some (AddressInputSchema.model_dump <$> addresses) ∧
       queue s' = queue s ++ [("validate_addresses_batch", seed s)]) ∧
  (∀ requests,
     recognition_batches (durable s) !! seed s = None →
     ∃ s',
       AddressEndpoints.recognize_addresses_endpoint requests true s
         = (Ok (AddressEndpoints.mk_response 202 (Some (seed s)) []), s') ∧
       durable s' = recognition_queued (seed s) (clock s) requests (durable s) ∧
       recognition_status s' (seed s) = Some "queued" ∧
       recognition_payload s' (seed s)
       = Some (RecognitionRequestSchema.model_dump <$> requests) ∧
       queue s' = queue s ++ [("recognize_addresses_batch", seed s)]) ∧
  (∀ addresses,
     is_Some (validation_batches (durable s) !! seed s) →
     ∃ s',
       AddressEndpoints.validate_addresses_endpoint addresses true s
         = (Raise IntegrityError, s') ∧
       durable s' = durable s ∧ queue s' = queue s) ∧
  (∀ requests,
     is_Some (recognition_batches (durable s) !! seed s) →
     ∃ s',
       AddressEndpoints.recognize_addresses_endpoint requests true s
         = (Raise IntegrityError, s') ∧
       durable s' = durable s ∧ queue s' = queue s).
Proof.
  split; [|split; [|split]].
  - intros addresses Hfresh. by apply validation_async_queues.
  - intros requests Hfresh. by apply recognition_async_queues.
  - intros addresses Htaken. eexists. split.
    { unfold AddressEndpoints.validate_addresses_endpoint,
        ValidationService.create_queued_batch.
      unfold_monad. rewrite validation_add_run. proj.
      rewrite bool_decide_eq_true_2 by done. proj. reflexivity. }
    done.
  - intros requests Htaken. eexists. split.
    { unfold AddressEndpoints.recognize_addresses_endpoint,
        RecognitionService.create_queued_recognition_batch.
      unfold_monad. rewrite recognition_add_run. proj.
      rewrite bool_decide_eq_true_2 by done. proj. reflexivity. }
    done.
Qed.

Lemma async_creation_queues_batch_witness :
  (∃ s',
     AddressEndpoints.validate_addresses_endpoint [main_street] true sample
       = (Ok (AddressEndpoints.mk_response 202 (Some (seed sample)) []), s') ∧
     durable s' = validation_queued (seed sample) (clock sample) [main_street] (durable sample) ∧
     validation_status s' (seed sample) = Some "queued" ∧
     validation_payload s' (seed sample)
     = Some (AddressInputSchema.model_dump <$> [main_street]) ∧
     queue s' = queue sample ++ [("validate_addresses_batch", seed sample)]) ∧
  (∃ s',
     AddressEndpoints.recognize_addresses_endpoint [elm_street] true sample
       = (Ok (AddressEndpoints.mk_response 202 (Some (seed sample)) []), s') ∧
     durable s' = recognition_queued (seed sample) (clock sample) [elm_street] (durable sample) ∧
     recognition_status s' (seed sample) = Some "queued" ∧
     recognition_payload s' (seed sample)
     = Some (RecognitionRequestSchema.model_dump <$> [elm_street]) ∧
     queue s' = queue sample ++ [("recognize_addresses_batch", seed sample)]).
Proof.
  destruct (async_creation_queues_batch sample) as (Hv & Hr & _).
  split.
  - apply Hv. vm_compute. reflexivity.
  - apply Hr. vm_compute. reflexivity.
Defined.

(** ** The schemas *)

Lemma dump_lookups (a : AddressInputSchema.t) :
  let d := AddressInputSchema.model_dump a in
  d !! "name" = Some (Field.dump_opt (AddressInputSchema.name a)) ∧
  d !! "phone" = Some (Field.dump_opt (AddressInputSchema.phone a)) ∧
  d !! "email" = Some (Field.dump_opt (AddressInputSchema.email a)) ∧
  d !! "company_name" = Some (Field.dump_opt (AddressInputSchema.company_name a)) ∧
  d !! "address_line1" = Some (VStr (AddressInputSchema.address_line1 a)) ∧
  d !! "address_line2" = Some (Field.dump_opt (AddressInputSchema.address_line2 a)) ∧
  d !! "address_line3" = Some (Field.dump_opt (AddressInputSchema.address_line3 a)) ∧
  d !! "city_locality" = Some (VStr (AddressInputSchema.city_locality a)) ∧
  d !! "state_province" = Some (VStr (AddressInputSchema.state_province a)) ∧
  d !! "postal_code" = Some (AddressInputSchema.postal_code a) ∧
  d !! "country_code" = Some (VStr (AddressInputSchema.country_code a)) ∧
  d !! "address_residential_indicator"
  = Some (VStr (AddressInputSchema.address_residential_indicator a)).
Proof. destruct a. repeat split; vm_compute; reflexivity. Qed.

Lemma opt_str_dump (d : dict) (k : string) (o : option string) :
  d !! k = Some (Field.dump_opt o) → Field.opt_str d k = Ok o.
Proof. intros Hk. unfold Field.opt_str. rewrite Hk. by destruct o. Qed.

Lemma req_str_ok (lo : nat) (hi : option nat) (d : dict) (k s : string) :
  d !! k = Some (VStr s) →
  (lo ≤ Str.len s)%nat →
  match hi with Some h => (Str.len s ≤ h)%nat | None => True end →
  Field.req_str lo hi d k = Ok s.
Proof.
  intros Hk Hlo Hhi. unfold Field.req_str. rewrite Hk.
  apply Nat.leb_le in Hlo. rewrite Hlo.
  destruct hi as [h|]; [|done]. apply Nat.leb_le in Hhi. by rewrite Hhi.
Qed.

Lemma req_str_inv (lo : nat) (hi : option nat) (d : dict) (k s : string) :
  Field.req_str lo hi d k = Ok s →
  d !! k = Some (VStr s) ∧ (lo ≤ Str.len s)%nat ∧
  match hi with Some h => (Str.len s ≤ h)%nat | None => True end.
Proof.
  unfold Field.req_str. destruct (d !! k) as [[| s' |]|]; try done.
  destruct (lo <=? Str.len s')%nat eqn:Hlo; [|done].
  destruct hi as [h|].
  - destruct (Str.len s' <=? h)%nat eqn:Hhi; [|done].
    intros [= <-]. apply Nat.leb_le in Hlo, Hhi. done.
  - intros [= <-]. apply Nat.leb_le in Hlo. done.
Qed.

(** The before-validator answers one of the three literals, whatever it
    is given. *)
Lemma validate_residential_indicator_literal (v : value) :
  AddressInputSchema.validate_residential_indicator v ∈ ResidentialIndicatorType.
Proof.
  unfold AddressInputSchema.validate_residential_indicator, is_literal.
  destruct v as [|s|z]; try (unfold ResidentialIndicatorType; set_solver).
  case_bool_decide; [done|]. unfold ResidentialIndicatorType. set_solver.
Qed.

Lemma validate_residential_indicator_fixes (s : string) :
  s ∈ ResidentialIndicatorType →
  AddressInputSchema.validate_residential_indicator (VStr s) = s.
Proof.
  unfold ResidentialIndicatorType. rewrite !elem_of_cons, elem_of_nil.
  intros [->|[->|[->|[]]]]; reflexivity.
Qed.

Lemma model_validate_dump (a : AddressInputSchema.t) :
  valid_address a →
  AddressInputSchema.model_validate (AddressInputSchema.model_dump a) = Ok a.
Proof.
  intros (H1 & Hc & Hs & Hcc & Hind).
  pose proof (dump_lookups a) as
    (Hname & Hphone & Hemail & Hcompany & Hl1 & Hl2 & Hl3 & Hcity & Hstate
     & Hpostal & Hcountry & Hindicator).
  unfold AddressInputSchema.model_validate.
  rewrite (opt_str_dump _ _ _ Hname), (opt_str_dump _ _ _ Hphone),
    (opt_str_dump _ _ _ Hemail), (opt_str_dump _ _ _ Hcompany),
    (opt_str_dump _ _ _ Hl2), (opt_str_dump _ _ _ Hl3).
  rewrite (req_str_ok 1 None _ _ _ Hl1 H1 I), (req_str_ok 1 None _ _ _ Hcity Hc I),
    (req_str_ok 1 None _ _ _ Hstate Hs I).
  rewrite (req_str_ok 2 (Some 2%nat) _ _ _ Hcountry) by (cbn; lia).
  unfold Field.str_int_none. rewrite Hpostal, Hindicator.
  rewrite (validate_residential_indicator_fixes _ Hind).
  by destruct a.
Qed.

Lemma model_validate_valid (d : dict) (a : AddressInputSchema.t) :
  AddressInputSchema.model_validate d = Ok a → valid_address a.
Proof.
  unfold AddressInputSchema.model_validate, mbind, result_bind, mret, result_ret.
  repeat match goal with
         | |- match ?r with Ok _ => _ | Raise _ => _ end = _ → _ =>
             destruct r eqn:?; [|intros; discriminate]
         end.
  intros [= <-]. unfold valid_address. cbn.
  repeat match goal with
         | H : Field.req_str _ _ _ _ = Ok _ |- _ => apply req_str_inv in H as (_ & ? & ?)
         end.
  unfold Str.len in *. split; [done|]. split; [done|]. split; [done|]. split; [lia|].
  destruct (d !! "address_residential_indicator") as [v|].
  - apply validate_residential_indicator_literal.
  - unfold ResidentialIndicatorType. set_solver.
Qed.

(** X5.  A record that satisfies the input schema is read back unchanged
    from its dump, and whatever the schema accepts satisfies it: the
    required fields are not empty, the country code has two characters and
    the residential indicator is one of [unknown], [yes], [no]. *)
Theorem address_schema_round_trip (a : AddressInputSchema.t) (d : dict) :
  (valid_address a →
   AddressInputSchema.model_validate (AddressInputSchema.model_dump a) = Ok a) ∧
  (AddressInputSchema.model_validate d = Ok a → valid_address a).
Proof. split; [apply model_validate_dump | apply model_validate_valid]. Qed.

Lemma main_street_valid : valid_address main_street.
Proof.
  unfold valid_address. cbn. repeat split; try lia.
  unfold ResidentialIndicatorType. apply list_elem_of_In. cbn. tauto.
Qed.

Lemma address_schema_round_trip_witness :
  AddressInputSchema.model_validate (AddressInputSchema.model_dump main_street)
  = Ok main_street.
Proof.
  apply (proj1 (address_schema_round_trip main_street ∅)). apply main_street_valid.
Defined.

(** A stored payload made of valid records validates back to the records. *)
Lemma payload_round_trip (addresses : list AddressInputSchema.t) :
  Forall valid_address addresses →
  traverse AddressInputSchema.model_validate (AddressInputSchema.model_dump <$> addresses)
  = Ok addresses.
Proof.
  induction 1 as [|a l Ha _ IH]; [done|].
  cbn [fmap list_fmap traverse].
  rewrite (model_validate_dump a Ha).
  change (list_fmap _ _ AddressInputSchema.model_dump l)
    with (AddressInputSchema.model_dump <$> l).
  by rewrite IH.
Qed.

(** ** What a pass writes *)

Lemma validation_rows_same_batch (seed batch_id : uuid) (created_at : nat)
    (l : list AddressInputSchema.t) :
  filter (λ it, ValidationItem.batch_id it = batch_id)
    (validation_rows seed batch_id created_at l)
  = validation_rows seed batch_id created_at l.
Proof.
  revert seed. induction l as [|a l IH]; intros seed; [done|].
  cbn [validation_rows]. rewrite filter_cons_True by done. by rewrite IH.
Qed.

Lemma validation_rows_other_batch (seed batch_id other : uuid) (created_at : nat)
    (l : list AddressInputSchema.t) :
  other ≠ batch_id →
  filter (λ it, ValidationItem.batch_id it = other)
    (validation_rows seed batch_id created_at l) = [].
Proof.
  intros Hne. revert seed. induction l as [|a l IH]; intros seed; [done|].
  cbn [validation_rows]. rewrite filter_cons_False; [apply IH|].
  cbn. by intros <-.
Qed.

Lemma validation_rows_length (seed batch_id : uuid) (created_at : nat)
    (l : list AddressInputSchema.t) :
  length (validation_rows seed batch_id created_at l) = length l.
Proof. revert seed. induction l as [|a l IH]; intros seed; cbn; [done|]. by rewrite IH. Qed.

Lemma validation_processed_items (batch_id seed : uuid) (created_at : nat)
    (addresses : list AddressInputSchema.t) (d : Database) :
  validation_items_of (validation_processed batch_id seed created_at addresses d) batch_id
  = validation_rows seed batch_id created_at addresses.
Proof.
  unfold validation_items_of, validation_processed. proj.
  by rewrite filter_app, filter_same_batch, validation_rows_same_batch.
Qed.

(** X6.  A pass of the validation worker replaces the items of its batch
    and touches nothing else: afterwards the batch is [completed], its
    items are exactly one new row per record of the payload, in the order
    of the payload, each with the status [verified], and the rows and the
    items of every other batch are as before. *)
Theorem pass_replaces_items (s : State) (batch_id : uuid)
    (p : list dict) (addresses : list AddressInputSchema.t) :
  validation_payload s batch_id = Some p →
  p ≠ [] →
  passes_validation_guard s batch_id →
  traverse AddressInputSchema.model_validate p = Ok addresses →
  ∃ s',
    validate_addresses_batch batch_id s = (Ok tt, s') ∧
    validation_status s' batch_id = Some "completed" ∧
    validation_payload s' batch_id = Some p ∧
    validation_items_of (durable s') batch_id
    = validation_rows (seed s) batch_id (clock s) addresses ∧
    length (validation_items_of (durable s') batch_id) = length p ∧
    Forall (λ it, ValidationItem.status it = "verified")
      (validation_items_of (durable s') batch_id) ∧
    (∀ other, other ≠ batch_id →
       validation_batches (durable s') !! other = validation_batches (durable s) !! other ∧
       validation_items_of (durable s') other = validation_items_of (durable s) other).
Proof.
  intros Hp Hne Hguard Hvalid.
  eexists. split; [by apply (process_batch_validation_pass s batch_id p addresses)|].
  apply validation_payload_lookup in Hp as (b & Hb & Hp).
  pose proof (validation_processed_items batch_id (seed s) (clock s) addresses (durable s))
    as Hitems.
  proj. split; [apply validation_processed_status; by eexists|].
  split.
  { unfold validation_payload, validation_processed. proj.
    rewrite !lookup_alter_eq, Hb. cbn. by rewrite Hp. }
  split; [exact Hitems|]. rewrite Hitems.
  split.
  { rewrite validation_rows_length. by apply (traverse_length _ _ _ Hvalid). }
  split.
  { generalize (seed s). clear. induction addresses as [|a l IH]; intros seed; [done|].
    cbn [validation_rows]. constructor; [done|apply IH]. }
  intros other Hother. unfold validation_items_of, validation_processed. proj.
  split.
  - by rewrite !lookup_alter_ne.
  - rewrite filter_app, filter_other_batch, validation_rows_other_batch by done.
    by rewrite app_nil_r.
Qed.

Lemma pass_replaces_items_witness :
  ∃ s',
    validate_addresses_batch 3 sample = (Ok tt, s') ∧
    validation_status s' 3 = Some "completed" ∧
    validation_payload s' 3 = Some [AddressInputSchema.model_dump main_street] ∧
    validation_items_of (durable s') 3
    = validation_rows (seed sample) 3 (clock sample) [main_street] ∧
    length (validation_items_of (durable s') 3)
    = length [AddressInputSchema.model_dump main_street] ∧
    Forall (λ it, ValidationItem.status it = "verified")
      (validation_items_of (durable s') 3) ∧
    (∀ other, other ≠ 3%positive →
       validation_batches (durable s') !! other = validation_batches (durable sample) !! other ∧
       validation_items_of (durable s') other = validation_items_of (durable sample) other).
Proof.
  apply (pass_replaces_items sample 3 [AddressInputSchema.model_dump main_street]
           [main_street]).
  - vm_compute. reflexivity.
  - discriminate.
  - left. vm_compute. discriminate.
  - vm_compute. reflexivity.
Defined.

(** ** From the asynchronous request to the result *)

(** X7.  An asynchronous validation request followed by its job: when the
    request has records, all valid, the job completes the batch with one
    item per record, in the order of the request; when the request has no
    record, the job sets the batch to [failed] and writes no item.  In
    both cases the job does not raise. *)
Theorem async_request_then_job (s : State) (addresses : list AddressInputSchema.t) :
  foreign_keys_hold (durable s) →
  validation_batches (durable s) !! seed s = None →
  Forall valid_address addresses →
  let batch_id := seed s in
  let s1 := after (AddressEndpoints.validate_addresses_endpoint addresses true) s in
  ∃ s2,
    validate_addresses_batch batch_id s1 = (Ok tt, s2) ∧
    (addresses ≠ [] →
     validation_status s2 batch_id = Some "completed" ∧
     validation_items_of (durable s2) batch_id
     = validation_rows (Pos.succ batch_id) batch_id (clock s) addresses ∧
     length (validation_items_of (durable s2) batch_id) = length addresses) ∧
    (addresses = [] →
     validation_status s2 batch_id = Some "failed" ∧
     validation_items_of (durable s2) batch_id = []).
Proof.
  intros Hfk Hfresh Hvalid batch_id s1. subst batch_id.
  destruct (validation_async_queues s addresses Hfresh)
    as (s1' & Hrun & Hdurable & Hstatus & Hpayload & Hqueue).
  assert (s1 = s1') as Hs1 by (unfold s1, after; by rewrite Hrun).
  assert (seed s1 = Pos.succ (seed s) ∧ clock s1 = clock s) as [Hseed Hclock].
  { unfold s1, after, AddressEndpoints.validate_addresses_endpoint,
      ValidationService.create_queued_batch.
    unfold_monad. rewrite validation_add_run. proj.
    by rewrite bool_decide_eq_false_2 by (rewrite Hfresh; by intros []). }
  rewrite <- Hs1 in *. clear s1' Hs1 Hrun.
  assert (validation_items_of (durable s1) (seed s) = []) as Hnoitems.
  { rewrite Hdurable. unfold validation_items_of, validation_queued. proj.
    by apply (unknown_batch_has_no_items (durable s)). }
  assert (passes_validation_guard s1 (seed s)) as Hguard by (by right).
  destruct addresses as [|a l].
  - pose proof (process_batch_validation_empty s1 (seed s) Hpayload Hguard) as Hjob.
    eexists. split; [exact Hjob|]. split; [done|]. intros _.
    unfold validation_status, validation_items_of. proj. split.
    + apply validation_marked_status.
      apply validation_payload_lookup in Hpayload as (b & -> & _). by eexists.
    + exact Hnoitems.
  - pose proof (process_batch_validation_pass s1 (seed s) _ (a :: l) Hpayload ltac:(done)
                  Hguard (payload_round_trip _ Hvalid)) as Hjob.
    eexists. split; [exact Hjob|]. split; [|done]. intros _.
    unfold validation_status. proj. rewrite validation_processed_items, Hseed, Hclock.
    split; [|split; [done|apply validation_rows_length]].
    apply validation_processed_status.
    apply validation_payload_lookup in Hpayload as (b & Hb & _). by eexists.
Qed.

Lemma async_request_then_job_witness :
  let batch_id := seed sample in
  let s1 := after (AddressEndpoints.validate_addresses_endpoint [main_street] true) sample in
  ∃ s2,
    validate_addresses_batch batch_id s1 = (Ok tt, s2) ∧
    ([main_street] ≠ [] →
     validation_status s2 batch_id = Some "completed" ∧
     validation_items_of (durable s2) batch_id
     = validation_rows (Pos.succ batch_id) batch_id (clock sample) [main_street] ∧
     length (validation_items_of (durable s2) batch_id) = length [main_street]) ∧
    ([main_street] = [] →
     validation_status s2 batch_id = Some "failed" ∧
     validation_items_of (durable s2) batch_id = []).
Proof.
  apply (async_request_then_job sample [main_street]).
  - apply sample_foreign_keys.
  - vm_compute. reflexivity.
  - constructor; [|constructor]. apply main_street_valid.
Defined.

(** ** Strings *)

Lemma upper_char_idem (c : ascii) : Str.upper_char (Str.upper_char c) = Str.upper_char c.
Proof. destruct c as [[] [] [] [] [] [] [] []]; reflexivity. Qed.

Lemma lower_char_idem (c : ascii) : Str.lower_char (Str.lower_char c) = Str.lower_char c.
Proof. destruct c as [[] [] [] [] [] [] [] []]; reflexivity. Qed.

Lemma is_space_upper_char (c : ascii) : Str.is_space (Str.upper_char c) = Str.is_space c.
Proof. destruct c as [[] [] [] [] [] [] [] []]; reflexivity. Qed.

Lemma is_space_lower_char (c : ascii) : Str.is_space (Str.lower_char c) = Str.is_space c.
Proof. destruct c as [[] [] [] [] [] [] [] []]; reflexivity. Qed.

Lemma map_chars_idem (f : ascii → ascii) (s : string) :
  (∀ c, f (f c) = f c) → Str.map_chars f (Str.map_chars f s) = Str.map_chars f s.
Proof. intros Hf. induction s as [|c s IH]; cbn; [done|]. by rewrite Hf, IH. Qed.

Lemma lstrip_map_chars (f : ascii → ascii) (s : string) :
  (∀ c, Str.is_space (f c) = Str.is_space c) →
  Str.lstrip (Str.map_chars f s) = Str.map_chars f (Str.lstrip s).
Proof.
  intros Hf. induction s as [|c s IH]; cbn; [done|].
  rewrite Hf. by destruct (Str.is_space c).
Qed.

Lemma rstrip_map_chars (f : ascii → ascii) (s : string) :
  (∀ c, Str.is_space (f c) = Str.is_space c) →
  Str.rstrip (Str.map_chars f s) = Str.map_chars f (Str.rstrip s).
Proof.
  intros Hf. induction s as [|c s IH]; cbn; [done|].
  rewrite IH, Hf. destruct (Str.rstrip s); cbn; [|done].
  by destruct (Str.is_space c).
Qed.

Lemma strip_map_chars (f : ascii → ascii) (s : string) :
  (∀ c, Str.is_space (f c) = Str.is_space c) →
  Str.strip (Str.map_chars f s) = Str.map_chars f (Str.strip s).
Proof.
  intros Hf. unfold Str.strip. by rewrite lstrip_map_chars, rstrip_map_chars.
Qed.

Lemma rstrip_idem (s : string) : Str.rstrip (Str.rstrip s) = Str.rstrip s.
Proof.
  induction s as [|c s IH]; cbn; [done|].
  destruct (Str.rstrip s) as [|c' s'] eqn:Hs.
  - destruct (Str.is_space c) eqn:Hc; cbn; [done|]. by rewrite Hc.
  - cbn [Str.rstrip]. cbn [Str.rstrip] in IH. rewrite IH. 
    by destruct (match Str.rstrip s' with
                 | "" => if Str.is_space c' then "" else String c' ""
                 | String a s0 => String c' (String a s0)
                 end).
Qed.

(** A string that does not start with a blank still does not after its
    right end has been stripped. *)
Lemma lstrip_rstrip (s : string) :
  Str.lstrip s = s → Str.lstrip (Str.rstrip s) = Str.rstrip s.
Proof.
  destruct s as [|c s]; [done|]. cbn [Str.lstrip].
  destruct (Str.is_space c) eqn:Hc.
  - intros Heq. exfalso.
    assert (String.length (Str.lstrip s) ≤ String.length s)%nat as Hle.
    { clear. induction s as [|c s IH]; cbn; [done|].
      destruct (Str.is_space c); cbn; lia. }
    rewrite Heq in Hle. cbn in Hle. lia.
  - intros _. cbn [Str.rstrip].
    destruct (Str.rstrip s); rewrite ?Hc; cbn [Str.lstrip]; by rewrite Hc.
Qed.

Lemma lstrip_idem (s : string) : Str.lstrip (Str.lstrip s) = Str.lstrip s.
Proof.
  induction s as [|c s IH]; cbn; [done|].
  destruct (Str.is_space c) eqn:Hc; [done|]. cbn. by rewrite Hc.
Qed.

Lemma strip_idem (s : string) : Str.strip (Str.strip s) = Str.strip s.
Proof.
  unfold Str.strip.
  rewrite (lstrip_rstrip (Str.lstrip s)) by apply lstrip_idem.
  apply rstrip_idem.
Qed.

Lemma strip_upper_idem (s : string) :
  Str.upper (Str.strip (Str.upper (Str.strip s))) = Str.upper (Str.strip s).
Proof.
  unfold Str.upper. rewrite strip_map_chars by apply is_space_upper_char.
  rewrite strip_idem. apply map_chars_idem, upper_char_idem.
Qed.

Lemma strip_lower_idem (s : string) :
  Str.lower (Str.strip (Str.lower (Str.strip s))) = Str.lower (Str.strip s).
Proof.
  unfold Str.lower. rewrite strip_map_chars by apply is_space_lower_char.
  rewrite strip_idem. apply map_chars_idem, lower_char_idem.
Qed.

(** ** The transforms *)

Lemma literal_is_normal (c : string) :
  c ∈ ResidentialIndicatorType → Str.lower (Str.strip c) = c.
Proof.
  unfold ResidentialIndicatorType. rewrite !elem_of_cons, elem_of_nil.
  intros [->|[->|[->|[]]]]; reflexivity.
Qed.

Lemma coerced_literal (s : string) : coerced s ∈ ResidentialIndicatorType.
Proof.
  unfold coerced, is_literal. case_bool_decide; [done|].
  unfold ResidentialIndicatorType. apply list_elem_of_In. cbn. tauto.
Qed.

Lemma coerced_idem (s : string) : coerced (coerced s) = coerced s.
Proof.
  pose proof (coerced_literal s) as Hlit. unfold coerced at 1.
  rewrite (literal_is_normal _ Hlit). unfold is_literal.
  by rewrite bool_decide_eq_true_2.
Qed.

Lemma normalize_entry_indicator (s : string) :
  ValidationService.normalize_entry "address_residential_indicator" (VStr s)
  = VStr (coerced s).
Proof.
  unfold ValidationService.normalize_entry, coerced.
  rewrite decide_True by done.
  by destruct (is_literal _ _).
Qed.

Lemma normalize_entry_idem (k : string) (v : value) :
  ValidationService.normalize_entry k (ValidationService.normalize_entry k v)
  = ValidationService.normalize_entry k v.
Proof.
  destruct v as [|s|z]; [done| |done].
  destruct (decide (k = "address_residential_indicator")) as [->|Hind].
  { by rewrite !normalize_entry_indicator, coerced_idem. }
  unfold ValidationService.normalize_entry.
  rewrite !decide_False by done.
  destruct (decide (k = "country_code")); [by rewrite decide_False, strip_upper_idem|].
  destruct (decide (k = "email")); [by rewrite decide_False, strip_lower_idem|].
  by rewrite decide_False, strip_upper_idem.
Qed.

Lemma normalize_lookup_indicator (d : dict) :
  ValidationService._normalize_address_data d !! "address_residential_indicator"
  = Some (match d !! "address_residential_indicator" with
          | Some v => ValidationService.normalize_entry "address_residential_indicator" v
          | None => VStr "unknown"
          end).
Proof.
  unfold ValidationService._normalize_address_data.
  rewrite map_lookup_imap.
  destruct (d !! "address_residential_indicator") as [v|] eqn:Hd; cbn.
  - by rewrite map_lookup_imap, Hd.
  - by rewrite lookup_insert_eq.
Qed.

(** X8.  Normalizing a record that is already normalized changes nothing:
    a record can be processed again, as a requeue does, with the same
    result. *)
Theorem normalize_is_idempotent (d : dict) :
  ValidationService._normalize_address_data (ValidationService._normalize_address_data d)
  = ValidationService._normalize_address_data d.
Proof.
  apply map_eq. intros k.
  destruct (decide (k = "address_residential_indicator")) as [->|Hk].
  - rewrite normalize_lookup_indicator, normalize_lookup_indicator.
    f_equal. destruct (d !! "address_residential_indicator"); [|done].
    apply normalize_entry_idem.
  - rewrite !normalize_keeps_keys by done.
    destruct (d !! k); cbn; [|done]. by rewrite normalize_entry_idem.
Qed.

Lemma process_entry_indicator (s : string) :
  RecognitionService.process_entry "address_residential_indicator" (VStr s)
  = VStr (coerced s).
Proof.
  unfold RecognitionService.process_entry, coerced.
  rewrite decide_False by done. rewrite decide_False by done.
  rewrite decide_True by done. rewrite strip_idem.
  by destruct (is_literal _ _).
Qed.

Lemma process_entry_idem (k : string) (v : value) :
  RecognitionService.process_entry k (RecognitionService.process_entry k v)
  = RecognitionService.process_entry k v.
Proof.
  destruct v as [|s|z]; [done| |done].
  destruct (decide (k = "address_residential_indicator")) as [->|Hind].
  { by rewrite !process_entry_indicator, coerced_idem. }
  unfold RecognitionService.process_entry.
  destruct (decide (k = "country_code")); [by rewrite strip_upper_idem|].
  destruct (decide (k = "email")); [by rewrite strip_lower_idem|].
  rewrite !decide_False by done.
  by rewrite strip_upper_idem.
Qed.

Lemma process_lookup (d : dict) (k : string) :
  k ≠ "address_residential_indicator" →
  RecognitionService._process_address_recognition d !! k
  = RecognitionService.process_entry k <$> d !! k.
Proof.
  intros Hk. unfold RecognitionService._process_address_recognition.
  destruct (map_imap _ d !! "address_residential_indicator") as [[| |]|];
    rewrite ?lookup_insert_ne by done; rewrite map_lookup_imap; by destruct (d !! k).
Qed.

Lemma process_lookup_indicator (d : dict) :
  RecognitionService._process_address_recognition d !! "address_residential_indicator"
  = Some (match d !! "address_residential_indicator" with
          | Some (VStr s) => VStr (coerced s)
          | Some (VInt z) => VInt z
          | Some VNone | None => VStr "unknown"
          end).
Proof.
  unfold RecognitionService._process_address_recognition.
  rewrite map_lookup_imap.
  destruct (d !! "address_residential_indicator") as [[|s|z]|] eqn:Hd;
    cbn [mbind option_bind].
  - cbn [RecognitionService.process_entry]. by rewrite lookup_insert_eq.
  - rewrite process_entry_indicator, map_lookup_imap, Hd. cbn [mbind option_bind].
    by rewrite process_entry_indicator.
  - cbn [RecognitionService.process_entry]. by rewrite map_lookup_imap, Hd.
  - by rewrite lookup_insert_eq.
Qed.

(** X9.  So is the recognition transform. *)
Theorem recognition_is_idempotent (d : dict) :
  RecognitionService._process_address_recognition
    (RecognitionService._process_address_recognition d)
  = RecognitionService._process_address_recognition d.
Proof.
  apply map_eq. intros k.
  destruct (decide (k = "address_residential_indicator")) as [->|Hk].
  - rewrite process_lookup_indicator, process_lookup_indicator.
    f_equal. destruct (d !! "address_residential_indicator") as [[|s|z]|]; try done.
    by rewrite coerced_idem.
  - rewrite !process_lookup by done.
    destruct (d !! k); cbn; [|done]. by rewrite process_entry_idem.
Qed.

(** X10.  Every record the workers and the synchronous paths store has a
    residential indicator among [unknown], [yes], [no]: the matched record
    of every address, and the recognized record of every request, also of
    a request without address and of one whose indicator is null. *)
Theorem stored_indicator_is_literal (a : AddressInputSchema.t)
    (r : RecognitionRequestSchema.t) :
  (∃ c, ValidationService._normalize_address_data (AddressInputSchema.model_dump a)
          !! "address_residential_indicator" = Some (VStr c) ∧
        c ∈ ResidentialIndicatorType) ∧
  (∃ c, RecognitionService._process_address_recognition
          (RecognitionService.original_data_of r)
          !! "address_residential_indicator" = Some (VStr c) ∧
        c ∈ ResidentialIndicatorType).
Proof.
  split.
  - rewrite normalize_lookup_indicator.
    destruct (dump_lookups a) as (_ & _ & _ & _ & _ & _ & _ & _ & _ & _ & _ & ->).
    rewrite normalize_entry_indicator. eexists. split; [done|apply coerced_literal].
  - rewrite process_lookup_indicator.
    assert (∃ o : option (option string),
              RecognitionService.original_data_of r !! "address_residential_indicator"
              = Field.dump_opt <$> o) as [o ->].
    { destruct r as [text [[]|]]; [|by exists None].
      eexists (Some _). vm_compute. reflexivity. }
    destruct o as [[s|]|]; cbn; eexists; (split; [done|]);
      try apply coerced_literal;
      unfold ResidentialIndicatorType; apply list_elem_of_In; cbn; tauto.
Qed.

(** ** The listing *)

Lemma traverse_Forall2 {A B} (f : A → result B) (l : list A) (l' : list B) :
  traverse f l = Ok l' → Forall2 (λ x y, f x = Ok y) l l'.
Proof.
  revert l'. induction l as [|x l IH]; intros l'; cbn [traverse].
  - intros [= <-]. constructor.
  - destruct (f x) as [y|] eqn:Hx; [|done].
    destruct (traverse f l) as [ys|]; [|done].
    intros [= <-]. constructor; [done|by apply IH].
Qed.

Lemma listed_rows_spec (d : Database) (limit offset : nat) (status : option string)
    (batch_id : uuid) (b : ValidationBatch.t) (n : nat) :
  (batch_id, b, n) ∈ ValidationService.listed_rows d limit offset status →
  validation_batches d !! batch_id = Some b ∧
  n = length (validation_items_of d batch_id) ∧
  (∀ st, status = Some st → st ≠ "" → ValidationBatch.status b = st).
Proof.
  unfold ValidationService.listed_rows.
  intros ([id b'] & [= -> -> ->] & Hin)%list_elem_of_fmap.
  apply (elem_of_sublist _ _ _ Hin) in Hin || idtac.
  assert ((id, b') ∈ merge_sort ValidationService.newest_first
            match status with
            | Some st =>
                if String.eqb st "" then map_to_list (validation_batches d)
                else filter (λ r : uuid * ValidationBatch.t, ValidationBatch.status r.2 = st)
                       (map_to_list (validation_batches d))
            | None => map_to_list (validation_batches d)
            end) as Hin'.
  { eapply elem_of_sublist; [|apply sublist_drop]. eapply elem_of_sublist; [|apply sublist_take].
    exact Hin. }
  clear Hin. rename Hin' into Hin.
  rewrite merge_sort_Permutation in Hin.
  destruct status as [st|].
  - destruct (String.eqb_spec st "") as [->|Hne].
    + apply elem_of_map_to_list in Hin. split; [done|]. split; [done|].
      by intros st [= <-].
    + apply list_elem_of_filter in Hin as [Hst Hin].
      apply elem_of_map_to_list in Hin. split; [done|]. split; [done|].
      by intros st' [= <-].
  - apply elem_of_map_to_list in Hin. split; [done|]. split; [done|]. done.
Qed.

#[global] Instance newest_first_total : Total ValidationService.newest_first.
Proof. intros a b. unfold ValidationService.newest_first. lia. Qed.

#[global] Instance newest_first_trans : Transitive ValidationService.newest_first.
Proof. intros a b c. unfold ValidationService.newest_first. lia. Qed.

Lemma StronglySorted_take_drop {A} (R : relation A) (l : list A) (n m : nat) :
  StronglySorted R l → StronglySorted R (take n (drop m l)).
Proof.
  intros Hl.
  assert (StronglySorted R (take m l ++ drop m l)) as (_ & _ & Hdrop)%StronglySorted_app
    by (by rewrite take_drop).
  assert (StronglySorted R (take n (drop m l) ++ drop n (drop m l)))
    as (_ & Htake & _)%StronglySorted_app by (by rewrite take_drop).
  done.
Qed.

(** X11.  The listing answers at most [limit] batches, each stored under
    the identifier it is listed with and listed with its own status,
    creation time, payload and number of items; when a status is asked
    for, only batches with that status; newest first; no batch twice.
    It changes nothing in the database. *)
Theorem listing_is_filtered_counted_and_ordered (s s' : State) (limit offset : nat)
    (status : option string) (infos : list BatchInfoSchema.t) :
  AddressEndpoints.list_validation_batches_endpoint limit offset status s = (Ok infos, s') →
  (length infos ≤ limit)%nat ∧
  (status = None →
   length infos = (limit `min` (size (validation_batches (durable s)) - offset))%nat) ∧
  (∀ info, info ∈ infos →
     ∃ b, validation_batches (durable s) !! BatchInfoSchema.id info = Some b ∧
          BatchInfoSchema.status info = ValidationBatch.status b ∧
          BatchInfoSchema.created_at info = ValidationBatch.created_at b ∧
          BatchInfoSchema.request_payload info = ValidationBatch.request_payload b ∧
          BatchInfoSchema.items_count info
          = length (validation_items_of (durable s) (BatchInfoSchema.id info)) ∧
          (∀ st, status = Some st → st ≠ "" → BatchInfoSchema.status info = st)) ∧
  StronglySorted (λ x y, BatchInfoSchema.created_at y ≤ BatchInfoSchema.created_at x)%nat
    infos ∧
  NoDup (BatchInfoSchema.id <$> infos) ∧
  durable s' = durable s.
Proof.
  unfold AddressEndpoints.list_validation_batches_endpoint,
    ValidationService.list_validation_batches.
  unfold_monad.
  destruct (traverse _ _) as [infos'|] eqn:Htraverse; [|done].
  intros [= -> <-]. proj.
  pose proof (traverse_Forall2 _ _ _ Htraverse) as Hall.
  assert (∀ row info, ValidationService.info_of_row row = Ok info →
            info = BatchInfoSchema.mk row.1.1 (ValidationBatch.status row.1.2)
                     (ValidationBatch.created_at row.1.2) row.2
                     (ValidationBatch.request_payload row.1.2)) as Hinfo.
  { intros [[id b] n] info. unfold ValidationService.info_of_row, BatchInfoSchema.new.
    destruct (is_literal _ _); [|done]. by intros [= <-]. }
  split.
  { rewrite <- (Forall2_length _ _ _ Hall). unfold ValidationService.listed_rows.
    rewrite length_fmap, length_take. lia. }
  split.
  { intros ->. rewrite <- (Forall2_length _ _ _ Hall). unfold ValidationService.listed_rows.
    rewrite length_fmap, length_take, length_drop.
    by rewrite merge_sort_Permutation, length_map_to_list. }
  split.
  { intros info Hin.
    apply list_elem_of_lookup in Hin as [i Hi].
    destruct (Forall2_lookup_r _ _ _ _ _ Hall Hi) as ([[id b] n] & Hrow & Hok).
    apply list_elem_of_lookup_2 in Hrow.
    apply Hinfo in Hok as ->.
    apply listed_rows_spec in Hrow as (Hb & -> & Hst).
    exists b. cbn. repeat split; try done. }
  split.
  { assert (StronglySorted (λ x y : uuid * ValidationBatch.t * nat,
              ValidationBatch.created_at y.1.2 ≤ ValidationBatch.created_at x.1.2)%nat
              (ValidationService.listed_rows (durable s) limit offset status)) as Hsorted.
    { unfold ValidationService.listed_rows.
      apply StronglySorted_fmap with (R1 := ValidationService.newest_first);
        [by intros x y|].
      apply StronglySorted_take_drop.
      apply (StronglySorted_merge_sort ValidationService.newest_first). }
    clear Htraverse. induction Hall as [|row info rows infos Hrow Hall IH]; [constructor|].
    apply StronglySorted_inv in Hsorted as [Hsorted Hhd].
    constructor; [by apply IH|].
    apply Hinfo in Hrow as ->. cbn.
    clear IH Hsorted. induction Hall as [|row' info' rows infos Hrow' Hall IH]; [constructor|].
    apply Forall_cons in Hhd as [Hhd Htl].
    constructor; [|by apply IH].
    apply Hinfo in Hrow' as ->. done. }
  split; [|done].
  assert (BatchInfoSchema.id <$> infos
          = (λ row : uuid * ValidationBatch.t * nat, row.1.1)
              <$> ValidationService.listed_rows (durable s) limit offset status) as ->.
  { clear Htraverse. induction Hall as [|row info rows infos Hrow Hall IH]; [done|].
    cbn [fmap list_fmap]. apply Hinfo in Hrow as ->. cbn. f_equal. apply IH. }
  unfold ValidationService.listed_rows.
  rewrite <- list_fmap_compose.
  change ((λ row : uuid * ValidationBatch.t * nat, row.1.1)
          ∘ (λ r : uuid * ValidationBatch.t, (r, length (validation_items_of (durable s) r.1))))
    with (fst : uuid * ValidationBatch.t → uuid).
  eapply sublist_NoDup;
    [|apply fmap_sublist; etrans; [apply sublist_take|apply sublist_drop]].
  rewrite merge_sort_Permutation.
  eapply sublist_NoDup; [apply (NoDup_fst_map_to_list (validation_batches (durable s)))|].
  apply fmap_sublist.
  destruct status as [st|]; [|done].
  destruct (String.eqb st ""); [done|apply sublist_filter].
Qed.

Lemma listing_is_filtered_counted_and_ordered_witness :
  ∃ infos,
    (AddressEndpoints.list_validation_batches_endpoint 50 0 (Some "completed") sample).1
    = Ok infos ∧
    (length infos ≤ 50)%nat ∧
    (∀ info, info ∈ infos → BatchInfoSchema.status info = "completed") ∧
    NoDup (BatchInfoSchema.id <$> infos).
Proof.
  destruct (AddressEndpoints.list_validation_batches_endpoint 50 0 (Some "completed") sample)
    as [[infos|e] s'] eqn:Hrun.
  - destruct (listing_is_filtered_counted_and_ordered _ _ _ _ _ _ Hrun)
      as (Hlen & _ & Hinfos & _ & Hnodup & _).
    exists infos. split; [done|]. split; [done|]. split; [|done].
    intros info Hin. destruct (Hinfos info Hin) as (b & _ & _ & _ & _ & _ & Hst).
    by apply Hst.
  - vm_compute in Hrun. discriminate.
Defined.

(** ** Reading back what was stored *)

(** Reading a list in another order gives the results in that order. *)
Lemma traverse_Permutation {A B} (f : A → result B) (l l' : list A) (ys : list B) :
  l ≡ₚ l' → traverse f l = Ok ys → ∃ ys', traverse f l' = Ok ys' ∧ ys ≡ₚ ys'.
Proof.
  intros Hperm. revert ys.
  induction Hperm as [|x l l' _ IH|x y l|l l' l'' _ IH1 _ IH2]; intros ys; cbn [traverse].
  - intros [= <-]. by exists [].
  - destruct (f x) as [z|]; [|done]. destruct (traverse f l) as [zs|]; [|done].
    intros [= <-]. destruct (IH zs eq_refl) as (zs' & -> & Hzs).
    exists (z :: zs'). split; [done|]. by constructor.
  - destruct (f y) as [b|]; [|done]. destruct (f x) as [a|]; [|done].
    destruct (traverse f l) as [zs|]; [|done].
    intros [= <-]. exists (a :: b :: zs). split; [done|]. apply perm_swap.
  - intros Hl. destruct (IH1 _ Hl) as (ys' & Hl' & Hys').
    destruct (IH2 _ Hl') as (ys'' & Hl'' & Hys''). exists ys''. split; [done|].
    by etrans.
Qed.

Lemma traverse_raises {A B} (f : A → result B) (l : list A) (e e0 : exn) :
  (∀ x e, f x = Raise e → e = e0) → traverse f l = Raise e → e = e0.
Proof.
  intros Hf. induction l as [|x l IH]; cbn [traverse]; [done|].
  destruct (f x) as [y|e'] eqn:Hx.
  - destruct (traverse f l) as [ys|e']; [done|]. intros [= <-]. by apply IH.
  - intros [= <-]. by apply (Hf x).
Qed.

Lemma traverse_raise_Permutation {A B} (f : A → result B) (l l' : list A) (e e0 : exn) :
  (∀ x e, f x = Raise e → e = e0) →
  l ≡ₚ l' → traverse f l = Raise e → traverse f l' = Raise e0.
Proof.
  intros Hf Hperm Hraise. destruct (traverse f l') as [ys'|e'] eqn:Hl'.
  - symmetry in Hperm.
    destruct (traverse_Permutation f l' l ys' Hperm Hl') as (ys & Hys & _). congruence.
  - f_equal. by apply (traverse_raises f l' e' e0 Hf).
Qed.

Lemma opt_str_raises (d : dict) (k : string) (e : exn) :
  Field.opt_str d k = Raise e → e = ValidationError.
Proof. unfold Field.opt_str. destruct (d !! k) as [[]|]; congruence. Qed.

Lemma req_str_raises (lo : nat) (hi : option nat) (d : dict) (k : string) (e : exn) :
  Field.req_str lo hi d k = Raise e → e = ValidationError.
Proof.
  unfold Field.req_str. destruct (d !! k) as [[]|]; try congruence.
  destruct (_ && _); congruence.
Qed.

Lemma str_int_none_raises (d : dict) (k : string) (e : exn) :
  Field.str_int_none d k = Raise e → e = ValidationError.
Proof. unfold Field.str_int_none. destruct (d !! k); congruence. Qed.

(** The address schema raises nothing but its validation error. *)
Lemma address_validate_raises (d : dict) (e : exn) :
  AddressInputSchema.model_validate d = Raise e → e = ValidationError.
Proof. unfold AddressInputSchema.model_validate. bind_raises
    ltac:(fun H => first [ by apply opt_str_raises in H
                         | by apply req_str_raises in H
                         | by apply str_int_none_raises in H ]). Qed.

Lemma messages_validate_raises (l : list ValidationMessageSchema.t) (e : exn) :
  traverse ValidationMessageSchema.model_validate l = Raise e → e = ValidationError.
Proof.
  apply traverse_raises. intros m e'. unfold ValidationMessageSchema.model_validate.
  destruct (is_literal MessageLevelType (ValidationMessageSchema.level m)); congruence.
Qed.



Lemma validation_result_raises (a : AddressInputSchema.t) (e : exn) :
  validation_result a = Raise e → e = ValidationError.
Proof.
  unfold validation_result. bind_raises
    ltac:(fun H => first [ by apply address_validate_raises in H
                         | by apply messages_validate_raises in H ]).
Qed.

(** The reader raises nothing but the validation error of the schemas. *)
Lemma result_of_item_raises (item : ValidationItem.t) (e : exn) :
  ValidationService.result_of_item item = Raise e → e = ValidationError.
Proof.
  unfold ValidationService.result_of_item. bind_raises
    ltac:(fun H => first [ by apply address_validate_raises in H
                         | by apply messages_validate_raises in H ]).
  unfold ValidationResultSchema.new.
  match goal with |- (if ?b then _ else _) = _ → _ => destruct b end; congruence.
Qed.

(** The residential indicator that [validate_and_store_addresses] writes
    into the echoed original is the one the schema's own validator
    computes: the schema reads the stored original and the echoed one
    alike. *)
Lemma validate_original_output (d : dict) :
  AddressOutputSchema.model_validate (ValidationService.original_output_of d)
  = AddressOutputSchema.model_validate d.
Proof.
  assert (∀ v c,
            d !! "address_residential_indicator" = v →
            AddressInputSchema.validate_residential_indicator (VStr c)
            = match v with
              | None => "unknown"
              | Some v => AddressInputSchema.validate_residential_indicator v
              end →
            AddressOutputSchema.model_validate
              (<["address_residential_indicator" := VStr c]> d)
            = AddressOutputSchema.model_validate d) as Hinsert.
  { intros v c Hv Hc.
    unfold AddressOutputSchema.model_validate, Field.opt_str, Field.req_str,
      Field.str_int_none.
    repeat match goal with
           | |- context [<[?i := ?x]> ?m !! ?j] =>
               first [ rewrite (lookup_insert_ne m i j x) by done
                     | rewrite (lookup_insert_eq m i x) ]
           end.
    rewrite Hv, Hc. reflexivity. }
  unfold ValidationService.original_output_of.
  destruct (d !! "address_residential_indicator") as [[|r|z]|] eqn:Hd; [| |done|].
  - by apply (Hinsert (Some VNone)).
  - apply (Hinsert (Some (VStr r))); [done|].
    apply validate_residential_indicator_fixes.
    apply (validate_residential_indicator_literal (VStr r)).
  - by apply (Hinsert None).
Qed.

Lemma messages_validate (a : AddressInputSchema.t) :
  traverse ValidationMessageSchema.model_validate
    (ValidationService._determine_validation_status a).2
  = Ok (ValidationService._determine_validation_status a).2.
Proof.
  unfold ValidationService._determine_validation_status. cbn [snd].
  by destruct (_ && _).
Qed.

(** From the row written for a record the reader rebuilds the result that
    the synchronous path builds for the record. *)
Lemma result_of_validation_item (id batch_id : uuid) (created_at : nat)
    (a : AddressInputSchema.t) :
  ValidationService.result_of_item (validation_item id batch_id created_at a)
  = validation_result a.
Proof.
  unfold ValidationService.result_of_item, validation_item, validation_result.
  cbn [ValidationItem.messages ValidationItem.original_address
       ValidationItem.matched_address ValidationItem.status].
  rewrite messages_validate, validate_original_output. reflexivity.
Qed.

Lemma traverse_validation_rows (seed batch_id : uuid) (created_at : nat)
    (l : list AddressInputSchema.t) :
  traverse ValidationService.result_of_item (validation_rows seed batch_id created_at l)
  = traverse validation_result l.
Proof.
  revert seed. induction l as [|a l IH]; intros seed; [done|].
  cbn [validation_rows traverse]. by rewrite result_of_validation_item, IH.
Qed.

Lemma validation_stored_items (new_batch : uuid) (created_at : nat)
    (addresses : list AddressInputSchema.t) (d : Database) :
  foreign_keys_hold d →
  validation_batches d !! new_batch = None →
  validation_items_of (validation_stored new_batch created_at addresses d) new_batch
  = validation_rows (Pos.succ new_batch) new_batch created_at addresses.
Proof.
  intros Hfk Hfresh. unfold validation_items_of, validation_stored. proj.
  rewrite filter_app, validation_rows_same_batch.
  change (filter _ (validation_items d)) with (validation_items_of d new_batch).
  by rewrite (unknown_batch_has_no_items d new_batch Hfk Hfresh).
Qed.

(** What the route that reads the results answers, from the rows of the
    batch. *)
Lemma get_validation_results_run (s : State) (batch_id : uuid) :
  AddressEndpoints.get_validation_results_endpoint batch_id s
  = (match traverse ValidationService.result_of_item
             (ValidationService.result_rows (durable s) batch_id) with
     | Ok [] => Raise (HTTPException 404 "batch_id not found or empty")
     | Ok results => Ok results
     | Raise e => Raise e
     end,
     mkState (durable s) (durable s) (seed s) (clock s) (queue s)
       (log s ++ [SelectItems Validation batch_id])).
Proof.
  unfold AddressEndpoints.get_validation_results_endpoint,
    ValidationService.retrieve_batch_results.
  unfold_monad. by destruct (traverse _ _) as [[|r results]|e].
Qed.

(** The reader on a batch whose items are the rows written for
    [addresses]. *)
Lemma read_validation_rows (s : State) (batch_id seed0 : uuid) (created_at : nat)
    (addresses : list AddressInputSchema.t) :
  addresses ≠ [] →
  validation_items_of (durable s) batch_id
  = validation_rows seed0 batch_id created_at addresses →
  match traverse validation_result addresses with
  | Ok results =>
      ∃ results',
        (AddressEndpoints.get_validation_results_endpoint batch_id s).1 = Ok results' ∧
        results' ≡ₚ results
  | Raise _ =>
      (AddressEndpoints.get_validation_results_endpoint batch_id s).1
      = Raise ValidationError
  end.
Proof.
  intros Hne Hitems. rewrite get_validation_results_run. cbn [fst].
  unfold ValidationService.result_rows. rewrite Hitems.
  pose proof (traverse_validation_rows seed0 batch_id created_at addresses) as Hrows.
  pose proof (merge_sort_Permutation ValidationService.by_created_at
                (validation_rows seed0 batch_id created_at addresses)) as Hperm.
  symmetry in Hperm.
  destruct (traverse validation_result addresses) as [results|e] eqn:Hres.
  - destruct (traverse_Permutation _ _ _ _ Hperm Hrows) as (results' & -> & Hresults).
    exists results'. split; [|done].
    destruct results' as [|r results']; [|done].
    apply Permutation_nil_r in Hresults. subst results.
    apply traverse_length in Hres. by destruct addresses.
  - rewrite (traverse_raise_Permutation _ _ _ e ValidationError) with (2 := Hperm);
      [done| |exact Hrows].
    apply result_of_item_raises.
Qed.

(** X12.  What the synchronous validation route answers can be read back:
    the route that reads the results of the batch answers the same
    results, in the order the query gives to rows written at the same
    time. *)
Theorem synchronous_results_read_back (s s' : State)
    (addresses : list AddressInputSchema.t)
    (response : AddressEndpoints.response (list ValidationResultSchema.t)) :
  foreign_keys_hold (durable s) →
  validation_batches (durable s) !! seed s = None →
  addresses ≠ [] →
  AddressEndpoints.validate_addresses_endpoint addresses false s = (Ok response, s') →
  AddressEndpoints.batch_header response = Some (seed s) ∧
  ∃ results,
    (AddressEndpoints.get_validation_results_endpoint (seed s) s').1 = Ok results ∧
    results ≡ₚ AddressEndpoints.body response.
Proof.
  intros Hfk Hfresh Hne Hrun.
  destruct (traverse validation_result addresses) as [results|e] eqn:Hres.
  - rewrite (validate_now_returns addresses results s Hfresh Hres) in Hrun.
    injection Hrun as <- <-. split; [done|].
    cbn [AddressEndpoints.body].
    match goal with
    | |- context [AddressEndpoints.get_validation_results_endpoint _ ?s1] =>
        pose proof (read_validation_rows s1 (seed s) (Pos.succ (seed s)) (clock s)
                      addresses Hne) as Hread
    end.
    rewrite Hres in Hread. apply Hread. proj.
    by apply validation_stored_items.
  - destruct (validate_now_raises addresses e s Hfresh Hres) as (s1 & Hraise & _).
    congruence.
Qed.

Lemma synchronous_results_read_back_witness :
  ∃ response s',
    AddressEndpoints.validate_addresses_endpoint [main_street] false sample
    = (Ok response, s') ∧
    AddressEndpoints.batch_header response = Some (seed sample) ∧
    ∃ results,
      (AddressEndpoints.get_validation_results_endpoint (seed sample) s').1 = Ok results ∧
      results ≡ₚ AddressEndpoints.body response.
Proof.
  destruct (AddressEndpoints.validate_addresses_endpoint [main_street] false sample)
    as [[response|e] s'] eqn:Hrun.
  - exists response, s'. split; [done|].
    apply (synchronous_results_read_back sample s' [main_street] response).
    + apply sample_foreign_keys.
    + vm_compute. reflexivity.
    + discriminate.
    + exact Hrun.
  - vm_compute in Hrun. discriminate.
Defined.

Lemma blank_line_valid : valid_address blank_line.
Proof.
  unfold valid_address. cbn. repeat split; try lia.
  unfold ResidentialIndicatorType. apply list_elem_of_In. cbn. tauto.
Qed.

(** The asynchronous request followed by its job, for a request with
    records. *)
Lemma validation_async_then_job (s : State) (addresses : list AddressInputSchema.t) :
  foreign_keys_hold (durable s) →
  validation_batches (durable s) !! seed s = None →
  Forall valid_address addresses →
  addresses ≠ [] →
  ∃ s2,
    validate_addresses_batch (seed s)
      (after (AddressEndpoints.validate_addresses_endpoint addresses true) s) = (Ok tt, s2) ∧
    validation_status s2 (seed s) = Some "completed" ∧
    validation_items_of (durable s2) (seed s)
    = validation_rows (Pos.succ (seed s)) (seed s) (clock s) addresses.
Proof.
  intros Hfk Hfresh Hvalid Hne.
  set (s1 := after (AddressEndpoints.validate_addresses_endpoint addresses true) s).
  destruct (validation_async_queues s addresses Hfresh)
    as (s1' & Hrun & Hdurable & Hstatus & Hpayload & Hqueue).
  assert (s1 = s1') as Hs1 by (unfold s1, after; by rewrite Hrun).
  assert (seed s1 = Pos.succ (seed s) ∧ clock s1 = clock s) as [Hseed Hclock].
  { unfold s1, after, AddressEndpoints.validate_addresses_endpoint,
      ValidationService.create_queued_batch.
    unfold_monad. rewrite validation_add_run. proj.
    by rewrite bool_decide_eq_false_2 by (rewrite Hfresh; by intros []). }
  rewrite <- Hs1 in *. clear s1' Hs1 Hrun.
  assert (validation_items_of (durable s1) (seed s) = []) as Hnoitems.
  { rewrite Hdurable. unfold validation_items_of, validation_queued. proj.
    by apply (unknown_batch_has_no_items (durable s)). }
  assert (passes_validation_guard s1 (seed s)) as Hguard by (by right).
  assert (AddressInputSchema.model_dump <$> addresses ≠ []) as Hp by (by destruct addresses).
  pose proof (process_batch_validation_pass s1 (seed s) _ addresses Hpayload Hp
                Hguard (payload_round_trip _ Hvalid)) as Hjob.
  eexists. split; [exact Hjob|].
  unfold validation_status. proj. rewrite validation_processed_items, Hseed, Hclock.
  split; [|done].
  apply validation_processed_status.
  apply validation_payload_lookup in Hpayload as (b & Hb & _). by eexists.
Qed.

(** X13.  The asynchronous path gives what the synchronous path gives:
    when the synchronous route would answer a request with some results,
    then after the asynchronous route and the job of the batch the reader
    answers these results. *)
Theorem asynchronous_results_read_back (s : State)
    (addresses : list AddressInputSchema.t)
    (response : AddressEndpoints.response (list ValidationResultSchema.t)) :
  foreign_keys_hold (durable s) →
  validation_batches (durable s) !! seed s = None →
  Forall valid_address addresses →
  addresses ≠ [] →
  (AddressEndpoints.validate_addresses_endpoint addresses false s).1 = Ok response →
  let s1 := after (AddressEndpoints.validate_addresses_endpoint addresses true) s in
  let s2 := after (validate_addresses_batch (seed s)) s1 in
  ∃ results,
    (AddressEndpoints.get_validation_results_endpoint (seed s) s2).1 = Ok results ∧
    results ≡ₚ AddressEndpoints.body response.
Proof.
  intros Hfk Hfresh Hvalid Hne Hsync s1 s2.
  destruct (validation_async_then_job s addresses Hfk Hfresh Hvalid Hne)
    as (s2' & Hjob & _ & Hitems).
  assert (s2 = s2') as -> by (unfold s2, s1; unfold after at 1; by rewrite Hjob).
  pose proof (read_validation_rows s2' (seed s) _ _ addresses Hne Hitems) as Hread.
  destruct (traverse validation_result addresses) as [results|e] eqn:Hres.
  - rewrite (validate_now_returns addresses results s Hfresh Hres) in Hsync.
    cbn [fst] in Hsync. injection Hsync as <-. exact Hread.
  - destruct (validate_now_raises addresses e s Hfresh Hres) as (s' & Hraise & _).
    rewrite Hraise in Hsync. done.
Qed.

Lemma asynchronous_results_read_back_witness :
  let s1 := after (AddressEndpoints.validate_addresses_endpoint [main_street] true) sample in
  let s2 := after (validate_addresses_batch (seed sample)) s1 in
  ∃ response results,
    (AddressEndpoints.validate_addresses_endpoint [main_street] false sample).1
    = Ok response ∧
    (AddressEndpoints.get_validation_results_endpoint (seed sample) s2).1 = Ok results ∧
    results ≡ₚ AddressEndpoints.body response.
Proof.
  intros s1 s2.
  destruct (AddressEndpoints.validate_addresses_endpoint [main_street] false sample).1
    as [response|e] eqn:Hsync.
  - destruct (asynchronous_results_read_back sample [main_street] response)
      as (results & Hread & Hperm).
    + apply sample_foreign_keys.
    + vm_compute. reflexivity.
    + constructor; [apply main_street_valid|constructor].
    + discriminate.
    + exact Hsync.
    + exists response, results. exact (conj eq_refl (conj Hread Hperm)).
  - vm_compute in Hsync. discriminate.
Defined.

(** X14.  The worker stores what the synchronous route refuses: when the
    synchronous route would raise on a request, the asynchronous route
    accepts it and the job completes the batch with one item per record,
    and every read of the results of the batch raises the validation
    error of the output schema. *)
Theorem worker_completes_unreadable_batch (s : State)
    (addresses : list AddressInputSchema.t) (e : exn) :
  foreign_keys_hold (durable s) →
  validation_batches (durable s) !! seed s = None →
  Forall valid_address addresses →
  (AddressEndpoints.validate_addresses_endpoint addresses false s).1 = Raise e →
  let s1 := after (AddressEndpoints.validate_addresses_endpoint addresses true) s in
  let s2 := after (validate_addresses_batch (seed s)) s1 in
  (validate_addresses_batch (seed s) s1).1 = Ok tt ∧
  validation_status s2 (seed s) = Some "completed" ∧
  length (validation_items_of (durable s2) (seed s)) = length addresses ∧
  (AddressEndpoints.get_validation_results_endpoint (seed s) s2).1
  = Raise ValidationError.
Proof.
  intros Hfk Hfresh Hvalid Hsync s1 s2.
  destruct (traverse validation_result addresses) as [results|e'] eqn:Hres.
  { rewrite (validate_now_returns addresses results s Hfresh Hres) in Hsync. done. }
  assert (addresses ≠ []) as Hne by (by intros ->).
  destruct (validation_async_then_job s addresses Hfk Hfresh Hvalid Hne)
    as (s2' & Hjob & Hstatus & Hitems).
  assert (s2 = s2') as -> by (unfold s2, s1; unfold after at 1; by rewrite Hjob).
  fold s1 in Hjob. rewrite Hjob. split; [done|]. split; [done|].
  split; [by rewrite Hitems, validation_rows_length|].
  pose proof (read_validation_rows s2' (seed s) _ _ addresses Hne Hitems) as Hread.
  by rewrite Hres in Hread.
Qed.

Lemma worker_completes_unreadable_batch_witness :
  let s1 := after (AddressEndpoints.validate_addresses_endpoint [blank_line] true) sample in
  let s2 := after (validate_addresses_batch (seed sample)) s1 in
  (validate_addresses_batch (seed sample) s1).1 = Ok tt ∧
  validation_status s2 (seed sample) = Some "completed" ∧
  length (validation_items_of (durable s2) (seed sample)) = length [blank_line] ∧
  (AddressEndpoints.get_validation_results_endpoint (seed sample) s2).1
  = Raise ValidationError.
Proof.
  apply (worker_completes_unreadable_batch sample [blank_line] ValidationError).
  - apply sample_foreign_keys.
  - vm_compute. reflexivity.
  - constructor; [apply blank_line_valid|constructor].
  - vm_compute. reflexivity.
Defined.

(** ** The recognition reader *)

Lemma get_recognition_results_run (s : State) (recognition_id : uuid) :
  AddressEndpoints.get_recognition_results_endpoint recognition_id s
  = (match RecognitionService.result_rows (durable s) recognition_id with
     | [] => Raise (HTTPException 404 "recognition_id not found or empty")
     | rows => traverse RecognitionService.result_of_item rows
     end,
     mkState (durable s) (durable s) (seed s) (clock s) (queue s)
       (log s ++ [SelectItems Recognition recognition_id])).
Proof.
  unfold AddressEndpoints.get_recognition_results_endpoint.
  unfold_monad. by destruct (RecognitionService.result_rows _ _).
Qed.

Lemma traverse_recognition_rows (seed batch_id : uuid) (created_at : nat)
    (l : list RecognitionRequestSchema.t) :
  traverse RecognitionService.result_of_item (recognition_rows seed batch_id created_at l)
  = traverse recognition_result l.
Proof.
  revert seed. induction l as [|r l IH]; intros seed; [done|].
  cbn [recognition_rows traverse]. rewrite IH. reflexivity.
Qed.

Lemma recognition_rows_same_batch (seed batch_id : uuid) (created_at : nat)
    (l : list RecognitionRequestSchema.t) :
  filter (λ it, RecognitionItem.batch_id it = batch_id)
    (recognition_rows seed batch_id created_at l)
  = recognition_rows seed batch_id created_at l.
Proof.
  revert seed. induction l as [|a l IH]; intros seed; [done|].
  cbn [recognition_rows]. rewrite filter_cons_True by done. by rewrite IH.
Qed.

(** X15.  What the synchronous recognition route answers can be read
    back: the route that reads the results of the batch answers the same
    results, in the order the query gives to rows written at the same
    time. *)
Theorem recognition_results_read_back (s s' : State)
    (requests : list RecognitionRequestSchema.t)
    (response : AddressEndpoints.response (list RecognitionResultSchema.t)) :
  recognition_batches (durable s) !! seed s = None →
  recognition_items_of (durable s) (seed s) = [] →
  requests ≠ [] →
  AddressEndpoints.recognize_addresses_endpoint requests false s = (Ok response, s') →
  AddressEndpoints.batch_header response = Some (seed s) ∧
  ∃ results,
    (AddressEndpoints.get_recognition_results_endpoint (seed s) s').1 = Ok results ∧
    results ≡ₚ AddressEndpoints.body response.
Proof.
  intros Hfresh Hnoitems Hne Hrun.
  destruct (traverse recognition_result requests) as [results|e] eqn:Hres.
  - rewrite (recognize_now_returns requests results s Hfresh Hres) in Hrun.
    injection Hrun as <- <-. split; [done|].
    cbn [AddressEndpoints.body].
    rewrite get_recognition_results_run. cbn [fst durable].
    unfold RecognitionService.result_rows, recognition_items_of, recognition_stored. proj.
    rewrite filter_app, recognition_rows_same_batch.
    change (filter _ (recognition_items (durable s)))
      with (recognition_items_of (durable s) (seed s)).
    rewrite Hnoitems, app_nil_l.
    pose proof (traverse_recognition_rows (Pos.succ (seed s)) (seed s) (clock s) requests)
      as Hrows.
    rewrite Hres in Hrows.
    pose proof (merge_sort_Permutation RecognitionService.by_created_at
                  (recognition_rows (Pos.succ (seed s)) (seed s) (clock s) requests))
      as Hperm.
    symmetry in Hperm.
    destruct (traverse_Permutation _ _ _ _ Hperm Hrows) as (results' & Hread & Hresults).
    exists results'. split; [|done].
    destruct (merge_sort _ _) as [|row rows] eqn:Hsorted; [|exact Hread].
    apply Permutation_nil_r in Hperm. by destruct requests.
  - exfalso. revert Hrun.
    unfold AddressEndpoints.recognize_addresses_endpoint,
      RecognitionService.recognize_and_store_addresses.
    unfold_monad. rewrite recognition_add_run. proj.
    rewrite bool_decide_eq_false_2 by (rewrite Hfresh; by intros []). proj.
    match goal with
    | |- context [for_each requests ?body ?s0] =>
        pose proof (for_each_traverse body recognition_result
                      (recognition_item_added (seed s)) requests
                      (recognition_store_body (seed s)) (λ _ _, eq_refl) s0) as Hloop
    end.
    rewrite Hres in Hloop. destruct Hloop as (s1 & -> & _). done.
Qed.

Lemma recognition_results_read_back_witness :
  ∃ response s',
    AddressEndpoints.recognize_addresses_endpoint [elm_street] false sample
    = (Ok response, s') ∧
    AddressEndpoints.batch_header response = Some (seed sample) ∧
    ∃ results,
      (AddressEndpoints.get_recognition_results_endpoint (seed sample) s').1 = Ok results ∧
      results ≡ₚ AddressEndpoints.body response.
Proof.
  destruct (AddressEndpoints.recognize_addresses_endpoint [elm_street] false sample)
    as [[response|e] s'] eqn:Hrun.
  - exists response, s'. split; [done|].
    apply (recognition_results_read_back sample s' [elm_street] response).
    + vm_compute. reflexivity.
    + vm_compute. reflexivity.
    + discriminate.
    + exact Hrun.
  - vm_compute in Hrun. discriminate.
Defined.

(** X16.  The route that reads the recognition results runs the query of
    its own; it answers what it would answer if it called
    [retrieve_recognition_results], as the validation route calls
    [retrieve_batch_results], and answered 404 for an empty list. *)
Theorem recognition_route_agrees_with_service (recognition_id : uuid) (s : State) :
  AddressEndpoints.get_recognition_results_endpoint recognition_id s
  = SessionLocal (
      results ← RecognitionService.retrieve_recognition_results recognition_id;
      if ValidationService.is_empty results
      then raise (HTTPException 404 "recognition_id not found or empty")
      else mret results) s.
Proof.
  rewrite get_recognition_results_run.
  unfold RecognitionService.retrieve_recognition_results. unfold_monad.
  destruct (RecognitionService.result_rows (durable s) recognition_id) as [|row rows];
    [done|].
  cbn [traverse].
  destruct (RecognitionService.result_of_item row) as [y|e]; [|done].
  by destruct (traverse RecognitionService.result_of_item rows).
Qed.

(** ** What the tables keep from request to request *)

Lemma initial_consistent : consistent (durable initial).
Proof.
  split; [|split].
  - intros it Hin. cbn in Hin. by apply elem_of_nil in Hin.
  - intros batch_id b Hb. cbn in Hb. by rewrite lookup_empty in Hb.
  - intros batch_id b Hb. cbn in Hb. by rewrite lookup_empty in Hb.
Qed.

Lemma validation_rows_batch (seed batch_id : uuid) (created_at : nat)
    (l : list AddressInputSchema.t) (it : ValidationItem.t) :
  it ∈ validation_rows seed batch_id created_at l → ValidationItem.batch_id it = batch_id.
Proof.
  revert seed. induction l as [|a l IH]; intros seed; cbn [validation_rows].
  - by intros ?%elem_of_nil.
  - intros [->|Hin]%elem_of_cons; [done|]. by apply (IH (Pos.succ seed)).
Qed.

Lemma batch_consistent_items (d d' : Database) (batch_id : uuid) (b : ValidationBatch.t) :
  validation_items_of d' batch_id = validation_items_of d batch_id →
  batch_consistent d batch_id b → batch_consistent d' batch_id b.
Proof. unfold batch_consistent. by intros ->. Qed.

Lemma consistent_items_empty (d : Database) (batch_id : uuid) (b : ValidationBatch.t) :
  consistent d →
  validation_batches d !! batch_id = Some b →
  ValidationService.payload_or_empty (ValidationBatch.request_payload b) = [] →
  validation_items_of d batch_id = [].
Proof.
  intros (_ & Hbatches & _) Hb Hp. destruct (Hbatches batch_id b Hb) as (_ & _ & Hlen).
  rewrite Hp in Hlen. apply nil_length_inv. rewrite Hlen. by case_decide.
Qed.

(** [batch_record.status = "failed"], written for a batch with an empty
    payload. *)
Lemma consistent_marked_failed (d : Database) (batch_id : uuid) (b : ValidationBatch.t) :
  consistent d →
  validation_batches d !! batch_id = Some b →
  ValidationService.payload_or_empty (ValidationBatch.request_payload b) = [] →
  consistent (validation_marked "failed" batch_id d).
Proof.
  intros Hd Hb Hp. pose proof Hd as (Hfk & Hbatches & Hrecognition).
  split; [|split; [|done]].
  - intros it Hin. unfold validation_marked. proj.
    apply lookup_alter_is_Some. by apply Hfk.
  - intros other b'. unfold validation_marked at 1. proj.
    destruct (decide (other = batch_id)) as [->|Hother].
    + rewrite lookup_alter_eq, Hb. intros [= <-].
      split; [unfold stored_statuses; set_solver|]. split; [done|].
      change (validation_items_of (validation_marked "failed" batch_id d) batch_id)
        with (validation_items_of d batch_id).
      by rewrite (consistent_items_empty d batch_id b Hd Hb Hp).
    + rewrite lookup_alter_ne by done. intros Hb'.
      by apply (batch_consistent_items d), Hbatches.
Qed.

(** A pass of the worker over the records of the payload. *)
Lemma consistent_processed (d : Database) (batch_id seed : uuid) (created_at : nat)
    (b : ValidationBatch.t) (addresses : list AddressInputSchema.t) :
  consistent d →
  validation_batches d !! batch_id = Some b →
  traverse AddressInputSchema.model_validate
    (ValidationService.payload_or_empty (ValidationBatch.request_payload b))
  = Ok addresses →
  consistent (validation_processed batch_id seed created_at addresses d).
Proof.
  intros (Hfk & Hbatches & Hrecognition) Hb Hvalid.
  split; [|split; [|done]].
  - intros it. unfold validation_processed. proj.
    rewrite elem_of_app, list_elem_of_filter.
    intros [[_ Hin]|Hin]; do 2 apply lookup_alter_is_Some.
    + by apply Hfk.
    + rewrite (validation_rows_batch _ _ _ _ _ Hin). by eexists.
  - intros other b'. unfold validation_processed at 1. proj.
    destruct (decide (other = batch_id)) as [->|Hother].
    + rewrite !lookup_alter_eq, Hb. intros [= <-].
      split; [unfold stored_statuses; set_solver|]. split; [done|].
      rewrite validation_processed_items, validation_rows_length.
      cbn. by apply (traverse_length _ _ _ Hvalid).
    + rewrite !lookup_alter_ne by done. intros Hb'.
      apply (batch_consistent_items d); [|by apply Hbatches].
      unfold validation_items_of, validation_processed. proj.
      rewrite filter_app, filter_other_batch, validation_rows_other_batch by done.
      by rewrite app_nil_r.
Qed.

(** A requeue. *)
Lemma consistent_requeued (d : Database) (batch_id : uuid) :
  consistent d → consistent (validation_requeued batch_id d).
Proof.
  intros (Hfk & Hbatches & Hrecognition).
  split; [|split; [|done]].
  - intros it. unfold validation_requeued. proj.
    rewrite list_elem_of_filter. intros [_ Hin].
    apply lookup_alter_is_Some. by apply Hfk.
  - intros other b'. unfold validation_requeued at 1. proj.
    destruct (decide (other = batch_id)) as [->|Hother].
    + rewrite lookup_alter_eq.
      destruct (validation_batches d !! batch_id) as [b|]; [|done]. intros [= <-].
      split; [unfold stored_statuses; set_solver|]. split; [done|].
      unfold validation_items_of, validation_requeued. proj.
      by rewrite filter_same_batch.
    + rewrite lookup_alter_ne by done. intros Hb'.
      apply (batch_consistent_items d); [|by apply Hbatches].
      unfold validation_items_of, validation_requeued. proj.
      by rewrite filter_other_batch.
Qed.

(** A deletion. *)
Lemma consistent_removed (d : Database) (batch_id : uuid) :
  consistent d → consistent (validation_removed batch_id d).
Proof.
  intros (Hfk & Hbatches & Hrecognition).
  split; [|split; [|done]].
  - intros it. unfold validation_removed. proj.
    rewrite list_elem_of_filter. intros [Hne Hin].
    rewrite lookup_delete_ne by done. by apply Hfk.
  - intros other b'. unfold validation_removed at 1. proj.
    destruct (decide (other = batch_id)) as [->|Hother].
    + by rewrite lookup_delete_eq.
    + rewrite lookup_delete_ne by done. intros Hb'.
      apply (batch_consistent_items d); [|by apply Hbatches].
      unfold validation_items_of, validation_removed. proj.
      by rewrite filter_other_batch.
Qed.

(** A batch stored by the synchronous route. *)
Lemma consistent_stored (d : Database) (new_batch : uuid) (created_at : nat)
    (addresses : list AddressInputSchema.t) :
  consistent d →
  validation_batches d !! new_batch = None →
  consistent (validation_stored new_batch created_at addresses d).
Proof.
  intros (Hfk & Hbatches & Hrecognition) Hfresh.
  split; [|split; [|done]].
  - intros it. unfold validation_stored. proj. rewrite elem_of_app.
    intros [Hin|Hin].
    + apply lookup_insert_is_Some'. right. by apply Hfk.
    + rewrite (validation_rows_batch _ _ _ _ _ Hin), lookup_insert_eq. by eexists.
  - intros other b'. unfold validation_stored at 1. proj.
    destruct (decide (other = new_batch)) as [->|Hother].
    + rewrite lookup_insert_eq. intros [= <-].
      split; [unfold stored_statuses; set_solver|]. split; [done|].
      rewrite (validation_stored_items _ _ _ _ Hfk Hfresh), validation_rows_length.
      cbn [ValidationBatch.status ValidationBatch.request_payload].
      rewrite payload_or_empty_Some, length_fmap. by case_decide.
    + rewrite lookup_insert_ne by done. intros Hb'.
      apply (batch_consistent_items d); [|by apply Hbatches].
      unfold validation_items_of, validation_stored. proj.
      rewrite filter_app, validation_rows_other_batch by done.
      by rewrite app_nil_r.
Qed.

(** A batch stored by the asynchronous route. *)
Lemma consistent_queued (d : Database) (new_batch : uuid) (created_at : nat)
    (addresses : list AddressInputSchema.t) :
  consistent d →
  validation_batches d !! new_batch = None →
  consistent (validation_queued new_batch created_at addresses d).
Proof.
  intros (Hfk & Hbatches & Hrecognition) Hfresh.
  split; [|split; [|done]].
  - intros it Hin. unfold validation_queued. proj.
    apply lookup_insert_is_Some'. right. by apply Hfk.
  - intros other b'. unfold validation_queued at 1. proj.
    destruct (decide (other = new_batch)) as [->|Hother].
    + rewrite lookup_insert_eq. intros [= <-].
      split; [unfold stored_statuses; set_solver|]. split; [done|].
      change (validation_items_of (validation_queued new_batch created_at addresses d)
                new_batch) with (validation_items_of d new_batch).
      by rewrite (unknown_batch_has_no_items d new_batch Hfk Hfresh).
    + rewrite lookup_insert_ne by done. intros Hb'.
      by apply (batch_consistent_items d), Hbatches.
Qed.

(** The recognition side writes the recognition tables alone. *)
Lemma consistent_recognition (d d' : Database) :
  validation_batches d' = validation_batches d →
  validation_items d' = validation_items d →
  (∀ batch_id b, recognition_batches d' !! batch_id = Some b →
     RecognitionBatch.status b ∈ BatchStatusType) →
  consistent d → consistent d'.
Proof.
  intros Hb Hi Hr (Hfk & Hbatches & _). split; [|split; [|done]].
  - intros it. rewrite Hb, Hi. apply Hfk.
  - intros batch_id b. rewrite Hb. intros Hlookup.
    apply (batch_consistent_items d); [|by apply Hbatches].
    unfold validation_items_of. by rewrite Hi.
Qed.

Lemma recognition_marked_statuses (d : Database) (batch_id : uuid) (st : string) :
  st ∈ BatchStatusType →
  (∀ other b, recognition_batches d !! other = Some b →
     RecognitionBatch.status b ∈ BatchStatusType) →
  ∀ other b, recognition_batches (recognition_marked st batch_id d) !! other = Some b →
    RecognitionBatch.status b ∈ BatchStatusType.
Proof.
  intros Hst Hr other b. unfold recognition_marked. proj.
  destruct (decide (other = batch_id)) as [->|Hother].
  - rewrite lookup_alter_eq. destruct (recognition_batches d !! batch_id); [|done].
    by intros [= <-].
  - rewrite lookup_alter_ne by done. apply Hr.
Qed.

(** *** The requests *)

Lemma validation_job_consistent (s : State) (batch_id : uuid) :
  consistent (durable s) →
  consistent (durable (after (validate_addresses_batch batch_id) s)).
Proof.
  intros Hd. unfold after.
  destruct (validation_batches (durable s) !! batch_id) as [b|] eqn:Hb.
  2: { by rewrite (process_batch_validation_unknown s batch_id Hb). }
  destruct (validation_guard_cases s batch_id) as [[Hst Hitems]|Hguard].
  { by rewrite (process_batch_validation_guard s batch_id Hst Hitems). }
  assert (validation_payload s batch_id
          = Some (ValidationService.payload_or_empty (ValidationBatch.request_payload b)))
    as Hp by (unfold validation_payload; by rewrite Hb).
  destruct (ValidationService.payload_or_empty (ValidationBatch.request_payload b))
    as [|x p] eqn:Hpayload.
  { rewrite (process_batch_validation_empty s batch_id Hp Hguard). proj.
    by apply (consistent_marked_failed _ _ b). }
  destruct (traverse AddressInputSchema.model_validate (x :: p)) as [addresses|e] eqn:Hvalid.
  - rewrite (process_batch_validation_pass s batch_id (x :: p) addresses Hp ltac:(done)
               Hguard Hvalid). proj.
    apply (consistent_processed _ _ _ _ b); [done|done|]. by rewrite Hpayload.
  - by rewrite (process_batch_validation_invalid s batch_id (x :: p) e Hp ltac:(done)
                  Hguard Hvalid).
Qed.

Lemma requeue_consistent (s : State) (batch_id : uuid) :
  consistent (durable s) →
  consistent (durable
    (after (AddressEndpoints.requeue_validation_batch_endpoint batch_id) s)).
Proof.
  intros Hd. unfold after, AddressEndpoints.requeue_validation_batch_endpoint, SessionLocal.
  destruct (validation_batches (durable s) !! batch_id) as [b|] eqn:Hb.
  2: { by rewrite (reset_unknown s batch_id Hb). }
  destruct (decide (validation_status s batch_id = Some "processing")) as [Hst|Hst].
  { by rewrite (reset_while_processing s batch_id Hst). }
  assert (validation_payload s batch_id
          = Some (ValidationService.payload_or_empty (ValidationBatch.request_payload b)))
    as Hp by (unfold validation_payload; by rewrite Hb).
  destruct (ValidationService.payload_or_empty (ValidationBatch.request_payload b))
    as [|x p] eqn:Hpayload.
  - rewrite (reset_with_empty_payload s batch_id Hp Hst). proj.
    by apply (consistent_marked_failed _ _ b).
  - rewrite (reset_requeues s batch_id (x :: p) Hp ltac:(done) Hst).
    unfold enqueue_job. proj. by apply consistent_requeued.
Qed.

Lemma delete_consistent (s : State) (batch_id : uuid) :
  consistent (durable s) →
  consistent (durable
    (after (AddressEndpoints.delete_validation_batch_endpoint batch_id) s)).
Proof.
  intros Hd. unfold after, AddressEndpoints.delete_validation_batch_endpoint.
  unfold SessionLocal, mbind, M_bind.
  destruct (validation_batches (durable s) !! batch_id) as [b|] eqn:Hb.
  - rewrite (remove_batch_removes s batch_id) by (by rewrite Hb). proj.
    by apply consistent_removed.
  - by rewrite (remove_batch_unknown s batch_id Hb).
Qed.

Lemma validate_consistent (s : State) (addresses : list AddressInputSchema.t)
    (async_mode : bool) :
  consistent (durable s) →
  consistent (durable
    (after (AddressEndpoints.validate_addresses_endpoint addresses async_mode) s)).
Proof.
  intros Hd.
  destruct (validation_batches (durable s) !! seed s) as [b|] eqn:Hfresh.
  { unfold after, AddressEndpoints.validate_addresses_endpoint.
    destruct async_mode.
    - unfold ValidationService.create_queued_batch. unfold_monad.
      rewrite validation_add_run. proj.
      by rewrite bool_decide_eq_true_2 by (by rewrite Hfresh).
    - unfold ValidationService.validate_and_store_addresses. unfold_monad.
      rewrite validation_add_run. proj.
      by rewrite bool_decide_eq_true_2 by (by rewrite Hfresh). }
  destruct async_mode.
  - destruct (validation_async_queues s addresses Hfresh) as (s' & Hrun & Hdurable & _).
    unfold after. rewrite Hrun. proj. rewrite Hdurable. by apply consistent_queued.
  - unfold after.
    destruct (traverse validation_result addresses) as [results|e] eqn:Hresults.
    + rewrite (validate_now_returns addresses results s Hfresh Hresults). proj.
      by apply consistent_stored.
    + destruct (validate_now_raises addresses e s Hfresh Hresults) as (s' & -> & Hs').
      proj. by rewrite Hs'.
Qed.

Lemma recognize_consistent (s : State) (requests : list RecognitionRequestSchema.t)
    (async_mode : bool) :
  consistent (durable s) →
  consistent (durable
    (after (AddressEndpoints.recognize_addresses_endpoint requests async_mode) s)).
Proof.
  intros Hd.
  destruct (recognition_batches (durable s) !! seed s) as [b|] eqn:Hfresh.
  { unfold after, AddressEndpoints.recognize_addresses_endpoint.
    destruct async_mode.
    - unfold RecognitionService.create_queued_recognition_batch. unfold_monad.
      rewrite recognition_add_run. proj.
      by rewrite bool_decide_eq_true_2 by (by rewrite Hfresh).
    - unfold RecognitionService.recognize_and_store_addresses. unfold_monad.
      rewrite recognition_add_run. proj.
      by rewrite bool_decide_eq_true_2 by (by rewrite Hfresh). }
  assert (∀ st payload other b',
            st ∈ BatchStatusType →
            <[seed s := RecognitionBatch.mk st (clock s) payload]>
              (recognition_batches (durable s)) !! other = Some b' →
            RecognitionBatch.status b' ∈ BatchStatusType) as Hinsert.
  { intros st payload other b' Hst.
    destruct (decide (other = seed s)) as [->|Hother].
    - rewrite lookup_insert_eq. by intros [= <-].
    - rewrite lookup_insert_ne by done. apply Hd. }
  destruct async_mode.
  - destruct (recognition_async_queues s requests Hfresh) as (s' & Hrun & Hdurable & _).
    unfold after. rewrite Hrun. proj. rewrite Hdurable.
    apply (consistent_recognition (durable s)); [done|done| |done].
    unfold recognition_queued. proj. intros other b'. apply Hinsert.
    unfold BatchStatusType. set_solver.
  - unfold after.
    destruct (traverse recognition_result requests) as [results|e] eqn:Hresults.
    + rewrite (recognize_now_returns requests results s Hfresh Hresults). proj.
      apply (consistent_recognition (durable s)); [done|done| |done].
      unfold recognition_stored. proj. intros other b'. apply Hinsert.
      unfold BatchStatusType. set_solver.
    + unfold AddressEndpoints.recognize_addresses_endpoint,
        RecognitionService.recognize_and_store_addresses.
      unfold_monad. rewrite recognition_add_run. proj.
      rewrite bool_decide_eq_false_2 by (rewrite Hfresh; by intros []). proj.
      match goal with
      | |- context [for_each requests ?body ?s0] =>
          pose proof (for_each_traverse body recognition_result
                        (recognition_item_added (seed s)) requests
                        (recognition_store_body (seed s)) (λ _ _, eq_refl) s0) as Hloop
      end.
      rewrite Hresults in Hloop. destruct Hloop as (s1 & -> & Hs1). proj.
      by rewrite Hs1.
Qed.

Lemma recognition_job_consistent (s : State) (batch_id : uuid) :
  consistent (durable s) →
  consistent (durable (after (recognize_addresses_batch batch_id) s)).
Proof.
  intros Hd. unfold after.
  destruct (recognition_batches (durable s) !! batch_id) as [b|] eqn:Hb.
  2: { by rewrite (process_recognition_batch_unknown s batch_id Hb). }
  destruct (recognition_guard_cases s batch_id) as [Hst|[Hst|Hguard]].
  { rewrite (process_recognition_batch_guard s batch_id _ Hst); [done|by left]. }
  { rewrite (process_recognition_batch_guard s batch_id _ Hst); [done|by right]. }
  assert (recognition_payload s batch_id
          = Some (ValidationService.payload_or_empty (RecognitionBatch.request_payload b)))
    as Hp by (unfold recognition_payload; by rewrite Hb).
  assert (∀ st, st ∈ BatchStatusType →
                consistent (recognition_marked st batch_id (durable s))) as Hmarked.
  { intros st Hst. apply (consistent_recognition (durable s)); [done|done| |done].
    apply recognition_marked_statuses; [done|apply Hd]. }
  destruct (ValidationService.payload_or_empty (RecognitionBatch.request_payload b))
    as [|x p] eqn:Hpayload.
  { rewrite (process_recognition_batch_empty s batch_id Hp Hguard). proj.
    apply Hmarked. unfold BatchStatusType. set_solver. }
  destruct (traverse RecognitionRequestSchema.model_validate (x :: p))
    as [requests|e] eqn:Hvalid.
  - rewrite (process_recognition_batch_pass s batch_id (x :: p) requests Hp ltac:(done)
               Hguard Hvalid). proj.
    apply (consistent_recognition (durable s)); [done|done| |done].
    unfold recognition_processed. proj. intros other b'.
    destruct (decide (other = batch_id)) as [->|Hother].
    + rewrite !lookup_alter_eq, Hb. intros [= <-]. unfold BatchStatusType. set_solver.
    + rewrite !lookup_alter_ne by done. apply Hd.
  - rewrite (process_recognition_batch_invalid s batch_id (x :: p) e Hp ltac:(done)
               Hguard Hvalid). proj.
    apply Hmarked. unfold BatchStatusType. set_solver.
Qed.

Lemma listing_keeps_database (s : State) (limit offset : nat) (status : option string) :
  durable (after (AddressEndpoints.list_validation_batches_endpoint limit offset status) s)
  = durable s.
Proof.
  unfold after, AddressEndpoints.list_validation_batches_endpoint,
    ValidationService.list_validation_batches.
  unfold_monad. by destruct (traverse _ _).
Qed.

Lemma serve_consistent (r : request) (s : State) :
  consistent (durable s) → consistent (durable (serve r s)).
Proof.
  intros Hd.
  destruct r as [addresses async_mode|batch_id|limit offset status|batch_id|batch_id
                 |batch_id|requests async_mode|recognition_id|batch_id|batch_id];
    cbn [serve].
  - by apply validate_consistent.
  - by rewrite (proj1 (readers_keep_database s batch_id)).
  - by rewrite listing_keeps_database.
  - by rewrite (proj1 (proj2 (readers_keep_database s batch_id))).
  - by apply delete_consistent.
  - by apply requeue_consistent.
  - by apply recognize_consistent.
  - by rewrite (proj2 (proj2 (readers_keep_database s recognition_id))).
  - by apply validation_job_consistent.
  - by apply recognition_job_consistent.
Qed.

Lemma serve_all_consistent (requests : list request) (s : State) :
  consistent (durable s) → consistent (durable (serve_all requests s)).
Proof.
  revert s. induction requests as [|r requests IH]; intros s Hd; [done|].
  cbn [serve_all foldl]. apply IH. by apply serve_consistent.
Qed.

(** X17.  Whatever requests and jobs are served, one at a time, from
    tables that are consistent: every item belongs to a batch that
    exists; a validation batch is committed [queued], [completed] or
    [failed], never [processing]; it is [failed] only with an empty
    payload; it has one item per record of its payload when it is
    [completed] and no item otherwise; and the status of a recognition
    batch is one of the four of [BatchStatusType]. *)
Theorem requests_keep_tables_consistent (requests : list request) (s : State) :
  consistent (durable s) →
  let d := durable (serve_all requests s) in
  foreign_keys_hold d ∧
  (∀ batch_id b, validation_batches d !! batch_id = Some b →
     ValidationBatch.status b ∈ ["queued"; "completed"; "failed"] ∧
     (ValidationBatch.status b = "failed" →
      ValidationService.payload_or_empty (ValidationBatch.request_payload b) = []) ∧
     (ValidationBatch.status b = "completed" →
      length (validation_items_of d batch_id)
      = length (ValidationService.payload_or_empty (ValidationBatch.request_payload b))) ∧
     (ValidationBatch.status b ≠ "completed" → validation_items_of d batch_id = [])) ∧
  (∀ batch_id b, recognition_batches d !! batch_id = Some b →
     RecognitionBatch.status b ∈ BatchStatusType).
Proof.
  intros Hd d. destruct (serve_all_consistent requests s Hd) as (Hfk & Hbatches & Hr).
  split; [done|]. split; [|done].
  intros batch_id b Hb. destruct (Hbatches batch_id b Hb) as (Hst & Hfailed & Hlen).
  split; [done|]. split; [done|].
  split; intros Hcompleted; rewrite decide_bool_decide in Hlen.
  - by rewrite bool_decide_eq_true_2 in Hlen.
  - rewrite bool_decide_eq_false_2 in Hlen by done. by apply nil_length_inv.
Qed.

Lemma requests_keep_tables_consistent_witness :
  let d := durable (serve_all [ValidateAddresses [main_street] true;
                               ValidateAddressesBatch 1;
                               RequeueValidationBatch 1;
                               RecognizeAddresses [elm_street] true;
                               RecognizeAddressesBatch 2] initial) in
  foreign_keys_hold d ∧
  (∀ batch_id b, validation_batches d !! batch_id = Some b →
     ValidationBatch.status b ∈ ["queued"; "completed"; "failed"] ∧
     (ValidationBatch.status b = "failed" →
      ValidationService.payload_or_empty (ValidationBatch.request_payload b) = []) ∧
     (ValidationBatch.status b = "completed" →
      length (validation_items_of d batch_id)
      = length (ValidationService.payload_or_empty (ValidationBatch.request_payload b))) ∧
     (ValidationBatch.status b ≠ "completed" → validation_items_of d batch_id = [])) ∧
  (∀ batch_id b, recognition_batches d !! batch_id = Some b →
     RecognitionBatch.status b ∈ BatchStatusType).
Proof.
  apply (requests_keep_tables_consistent _ initial). apply initial_consistent.
Defined.

(** ** After any requests *)

Lemma traverse_total {A B} (f : A → result B) (l : list A) :
  Forall (λ x, ∃ y, f x = Ok y) l → ∃ ys, traverse f l = Ok ys.
Proof.
  induction 1 as [|x l [y Hy] _ [ys IH]]; [by exists []|].
  exists (y :: ys). cbn [traverse]. by rewrite Hy, IH.
Qed.

Lemma stored_status_is_literal (st : string) :
  st ∈ stored_statuses → is_literal BatchStatusType st = true.
Proof.
  unfold stored_statuses. rewrite !elem_of_cons, elem_of_nil.
  intros [->|[->|[->|[]]]]; reflexivity.
Qed.

Lemma get_batch_info_run (s : State) (batch_id : uuid) (b : ValidationBatch.t) :
  validation_batches (durable s) !! batch_id = Some b →
  is_literal BatchStatusType (ValidationBatch.status b) = true →
  (AddressEndpoints.get_validation_batch_endpoint batch_id s).1
  = Ok (BatchInfoSchema.mk batch_id (ValidationBatch.status b)
          (ValidationBatch.created_at b)
          (length (validation_items_of (durable s) batch_id))
          (ValidationBatch.request_payload b)).
Proof.
  intros Hb Hst.
  unfold AddressEndpoints.get_validation_batch_endpoint, ValidationService.get_batch_info.
  unfold_monad. rewrite Hb. cbn [fmap option_fmap option_map].
  unfold BatchInfoSchema.new. by rewrite Hst.
Qed.

(** X18.  After any requests served from the empty database, a validation
    batch that is [failed] stays [failed]: its payload is empty, so that
    the requeue route answers 404 and writes [failed] again, the job of
    the batch returns and writes [failed] again, and the reader of its
    results answers 404. *)
Theorem failed_batch_stays_failed (requests : list request) (batch_id : uuid) :
  let s := serve_all requests initial in
  validation_status s batch_id = Some "failed" →
  validation_payload s batch_id = Some [] ∧
  (AddressEndpoints.requeue_validation_batch_endpoint batch_id s).1
  = Raise (HTTPException 404 "batch_id not found") ∧
  validation_status (serve (RequeueValidationBatch batch_id) s) batch_id = Some "failed" ∧
  (validate_addresses_batch batch_id s).1 = Ok tt ∧
  validation_status (serve (ValidateAddressesBatch batch_id) s) batch_id = Some "failed" ∧
  (AddressEndpoints.get_validation_results_endpoint batch_id s).1
  = Raise (HTTPException 404 "batch_id not found or empty").
Proof.
  intros s Hst.
  pose proof (serve_all_consistent requests initial initial_consistent) as Hd.
  fold s in Hd.
  destruct (validation_status_lookup s batch_id "failed" Hst) as (b & Hb & Hfailed).
  pose proof Hd as (_ & Hbatches & _).
  destruct (Hbatches batch_id b Hb) as (_ & Hempty & _).
  specialize (Hempty Hfailed).
  assert (validation_payload s batch_id = Some []) as Hp
    by (unfold validation_payload; by rewrite Hb, <- Hempty).
  assert (validation_status s batch_id ≠ Some "processing") as Hnp by (by rewrite Hst).
  assert (passes_validation_guard s batch_id) as Hguard by (left; by rewrite Hst).
  assert (is_Some (validation_batches (durable s) !! batch_id)) as Hsome by (by eexists).
  split; [done|].
  cbn [serve]. unfold after.
  unfold AddressEndpoints.requeue_validation_batch_endpoint, SessionLocal.
  rewrite (reset_with_empty_payload s batch_id Hp Hnp).
  rewrite (process_batch_validation_empty s batch_id Hp Hguard).
  unfold validation_status. proj.
  split; [done|]. split; [by apply validation_marked_status|].
  split; [done|]. split; [by apply validation_marked_status|].
  rewrite get_validation_results_run. cbn [fst].
  unfold ValidationService.result_rows.
  by rewrite (consistent_items_empty (durable s) batch_id b Hd Hb Hempty).
Qed.

Lemma failed_batch_stays_failed_witness :
  let s := serve_all [ValidateAddresses [] true; ValidateAddressesBatch 1] initial in
  validation_payload s 1 = Some [] ∧
  (AddressEndpoints.requeue_validation_batch_endpoint 1 s).1
  = Raise (HTTPException 404 "batch_id not found") ∧
  validation_status (serve (RequeueValidationBatch 1) s) 1 = Some "failed" ∧
  (validate_addresses_batch 1 s).1 = Ok tt ∧
  validation_status (serve (ValidateAddressesBatch 1) s) 1 = Some "failed" ∧
  (AddressEndpoints.get_validation_results_endpoint 1 s).1
  = Raise (HTTPException 404 "batch_id not found or empty").
Proof.
  apply (failed_batch_stays_failed [ValidateAddresses [] true; ValidateAddressesBatch 1] 1).
  vm_compute. reflexivity.
Defined.

(** X19.  After any requests served from the empty database, the route
    that describes a batch does not raise for a batch that exists, and
    the number of items it answers is the number of records of the
    payload when the batch is [completed] and 0 otherwise. *)
Theorem batch_info_counts_records (requests : list request) (batch_id : uuid)
    (b : ValidationBatch.t) :
  let s := serve_all requests initial in
  validation_batches (durable s) !! batch_id = Some b →
  (AddressEndpoints.get_validation_batch_endpoint batch_id s).1
  = Ok (BatchInfoSchema.mk batch_id (ValidationBatch.status b)
          (ValidationBatch.created_at b)
          (if decide (ValidationBatch.status b = "completed")
           then length (ValidationService.payload_or_empty
                          (ValidationBatch.request_payload b))
           else 0%nat)
          (ValidationBatch.request_payload b)).
Proof.
  intros s Hb.
  pose proof (serve_all_consistent requests initial initial_consistent) as (_ & Hbatches & _).
  fold s in Hbatches. destruct (Hbatches batch_id b Hb) as (Hst & _ & Hlen).
  rewrite (get_batch_info_run s batch_id b Hb (stored_status_is_literal _ Hst)).
  by rewrite Hlen.
Qed.

Lemma batch_info_counts_records_witness :
  let s := serve_all [ValidateAddresses [main_street] true; ValidateAddressesBatch 1]
             initial in
  (AddressEndpoints.get_validation_batch_endpoint 1 s).1
  = Ok (BatchInfoSchema.mk 1 "completed" 0 1
          (Some [AddressInputSchema.model_dump main_street])).
Proof.
  apply (batch_info_counts_records
           [ValidateAddresses [main_street] true; ValidateAddressesBatch 1] 1
           (ValidationBatch.mk "completed" 0
              (Some [AddressInputSchema.model_dump main_street]))).
  vm_compute. reflexivity.
Defined.

(** X20.  After any requests served from the empty database the listing
    does not raise, and every batch it answers has the number of its
    records as its number of items when it is [completed], and 0
    otherwise. *)
Theorem listing_answers_after_any_requests (requests : list request)
    (limit offset : nat) (status : option string) :
  let s := serve_all requests initial in
  ∃ infos,
    (AddressEndpoints.list_validation_batches_endpoint limit offset status s).1
    = Ok infos ∧
    ∀ info, info ∈ infos →
      BatchInfoSchema.status info ∈ ["queued"; "completed"; "failed"] ∧
      BatchInfoSchema.items_count info
      = if decide (BatchInfoSchema.status info = "completed")
        then length (ValidationService.payload_or_empty
                       (BatchInfoSchema.request_payload info))
        else 0%nat.
Proof.
  intros s.
  pose proof (serve_all_consistent requests initial initial_consistent) as (_ & Hbatches & _).
  fold s in Hbatches.
  assert (Forall (λ row, ∃ info, ValidationService.info_of_row row = Ok info)
            (ValidationService.listed_rows (durable s) limit offset status)) as Hrows.
  { apply Forall_forall. intros [[batch_id b] n] Hin.
    apply listed_rows_spec in Hin as (Hb & _ & _).
    destruct (Hbatches batch_id b Hb) as (Hst & _ & _).
    unfold ValidationService.info_of_row, BatchInfoSchema.new.
    rewrite (stored_status_is_literal _ Hst). by eexists. }
  destruct (traverse_total _ _ Hrows) as (infos & Hinfos).
  exists infos. split.
  { unfold AddressEndpoints.list_validation_batches_endpoint,
      ValidationService.list_validation_batches.
    unfold_monad. by rewrite Hinfos. }
  intros info Hin.
  apply traverse_Forall2 in Hinfos.
  destruct (proj1 (list_elem_of_lookup _ _) Hin) as (i & Hi).
  destruct (Forall2_lookup_r _ _ _ _ _ Hinfos Hi) as ([[batch_id b] n] & Hrow & Hinfo).
  apply list_elem_of_lookup_2, listed_rows_spec in Hrow as (Hb & -> & _).
  destruct (Hbatches batch_id b Hb) as (Hst & _ & Hlen).
  unfold ValidationService.info_of_row, BatchInfoSchema.new in Hinfo.
  rewrite (stored_status_is_literal _ Hst) in Hinfo. injection Hinfo as <-.
  cbn [BatchInfoSchema.status BatchInfoSchema.items_count BatchInfoSchema.request_payload].
  by split.
Qed.
